(** * Rock-Paper-Scissors-Bomb with an AI judge: the round pipeline

    A shallow embedding of the JavaScript sources

      - [src/assignment/state.js]            (round state tracker),
      - [src/assignment/ai-judge.js]         (judge client and result parser),
      - [src/assignment/normalize-input.js]  (spelling normalisation of the move),
      - [src/assignment/rules-and-prompt.js] (the prompt of a round),
      - [index.js]                           (the game loop of the command line),

    and the properties of the round-result contract stated about them.

    JavaScript strings are sequences of UTF-16 code units; they are modelled
    as lists of [N].  Values that come back from [JSON.parse] are modelled by
    the inductive type [JsValue].  An exception thrown inside a [try] block is
    [None] in the option monad, the [catch] clause is the match on it. *)

From Stdlib Require Import String Ascii DecimalString.
From Stdlib Require Import List NArith ZArith Bool Lia.
Import ListNotations.

Set Implicit Arguments.

(* ===================================================================== *)
(** * JavaScript strings *)
(* ===================================================================== *)

Module Js.

(** A string is a list of UTF-16 code units. *)
Definition jsstring := list N.

(** [lit "abc"] is the JavaScript literal ['abc'] (ASCII literals only). *)
Definition lit (s : String.string) : jsstring :=
  map Ascii.N_of_ascii (String.list_ascii_of_string s).
Arguments lit s%_string.

Definition chr (a : Ascii.ascii) : N := Ascii.N_of_ascii a.
Arguments chr a%_char.

(** A literal in which the double quotes are written as apostrophes:
    [jlit "{'a':1}"] is the text of the JSON object with the key [a]. *)
Definition jlit (s : String.string) : jsstring :=
  map (fun c => if N.eqb c 39 then 34%N else c) (lit s).
Arguments jlit s%_string.

Fixpoint jseqb (a b : jsstring) : bool :=
  match a, b with
  | [], [] => true
  | x :: a', y :: b' => N.eqb x y && jseqb a' b'
  | _, _ => false
  end.

Definition between (lo hi c : N) : bool := N.leb lo c && N.leb c hi.

(** WhiteSpace and LineTerminator of ECMA-262: what [String.prototype.trim]
    strips and what [\s] matches. *)
Definition is_space (c : N) : bool :=
  between 9 13 c || N.eqb c 32 || N.eqb c 160 || N.eqb c 5760
  || between 8192 8202 c || N.eqb c 8232 || N.eqb c 8233 || N.eqb c 8239
  || N.eqb c 8287 || N.eqb c 12288 || N.eqb c 65279.

(** [\w] without the unicode flag: [A-Za-z0-9_]. *)
Definition is_word (c : N) : bool :=
  between 65 90 c || between 97 122 c || between 48 57 c || N.eqb c 95.

(** [\d]: [0-9]. *)
Definition is_digit (c : N) : bool := between 48 57 c.

Fixpoint dropWhile (p : N -> bool) (s : jsstring) : jsstring :=
  match s with
  | c :: r => if p c then dropWhile p r else s
  | [] => []
  end.

Fixpoint takeWhile (p : N -> bool) (s : jsstring) : jsstring :=
  match s with
  | c :: r => if p c then c :: takeWhile p r else []
  | [] => []
  end.

Definition trimStart (s : jsstring) : jsstring := dropWhile is_space s.
Definition trimEnd (s : jsstring) : jsstring := rev (dropWhile is_space (rev s)).

(** [s.trim()] *)
Definition trim (s : jsstring) : jsstring := trimEnd (trimStart s).

(** [s.slice(0, n)] for a non-negative [n]. *)
Definition slice0 (n : nat) (s : jsstring) : jsstring := firstn n s.

(** [s.startsWith(p)], returning what follows the prefix. *)
Fixpoint strip_prefix (p s : jsstring) : option jsstring :=
  match p, s with
  | [], _ => Some s
  | x :: p', y :: s' => if N.eqb x y then strip_prefix p' s' else None
  | _ :: _, [] => None
  end.

(** Upper-case mapping of the ASCII letters: the canonicalisation that the
    [i] flag of a non-unicode regular expression applies to the characters
    of an ASCII pattern.  (A code unit of 128 or more is never mapped into
    ASCII by that canonicalisation, so it never matches an ASCII pattern
    character.) *)
Definition ascii_upper (c : N) : N :=
  if between 97 122 c then (c - 32)%N else c.

Definition ascii_lower (c : N) : N :=
  if between 65 90 c then (c + 32)%N else c.

(** Match of an ASCII literal at the head of [s], ignoring ASCII case;
    returns what follows. *)
Fixpoint strip_prefix_ci (p s : jsstring) : option jsstring :=
  match p, s with
  | [], _ => Some s
  | x :: p', y :: s' =>
      if N.eqb (ascii_upper x) (ascii_upper y) then strip_prefix_ci p' s' else None
  | _ :: _, [] => None
  end.

(** [/lit/i.test(s)] for an ASCII literal: the literal occurs somewhere. *)
Fixpoint includes_ci (p s : jsstring) : bool :=
  match strip_prefix_ci p s with
  | Some _ => true
  | None => match s with
            | [] => false
            | _ :: s' => includes_ci p s'
            end
  end.

(** [/a|b|c/i.test(s)] for ASCII literal alternatives. *)
Definition test_any_ci (alts : list jsstring) (s : jsstring) : bool :=
  existsb (fun p => includes_ci p s) alts.

(** Decimal rendering of a non-negative integer, as [String(n)] gives for
    integers below 2^53. *)
Definition decimal (n : N) : jsstring :=
  lit (DecimalString.NilZero.string_of_uint (N.to_uint n)).

(** Template-literal rendering of an integer. *)
Definition decimalZ (z : Z) : jsstring :=
  match z with
  | Zneg p => chr "-" :: decimal (Npos p)
  | _ => decimal (Z.to_N z)
  end.

End Js.
Import Js.

(* ===================================================================== *)
(** * Values: what [JSON.parse] produces and what the records hold *)
(* ===================================================================== *)

#[local] Unset Elimination Schemes.
Inductive JsValue : Type :=
| JUndefined
| JNull
| JBool (b : bool)
| JNum (lexeme : jsstring)      (* a number, kept as the text it was read from *)
| JStr (s : jsstring)
| JArr (elems : list JsValue)
| JObj (members : list (jsstring * JsValue)).
#[local] Set Elimination Schemes.

(** Strict equality [v === 'lit'] against a string literal. *)
Definition is_str (l : jsstring) (v : JsValue) : bool :=
  match v with
  | JStr s => jseqb s l
  | _ => false
  end.

(* ===================================================================== *)
(** * state.js *)
(* ===================================================================== *)

Record Intent := mkIntent {
  status : JsValue;
  move : JsValue;
  reason : JsValue
}.

(** The object returned by the judge.  [raw] is [JUndefined] where the
    object has no such property. *)
Record JudgeResult := mkJudgeResult {
  intent : Intent;
  round_winner : JsValue;
  response : JsValue;
  raw : JsValue
}.

Module State.

(** The round number and the scores are JavaScript numbers that hold small
    integers (1, 2, ... and 0, 1, ...); they are modelled by [Z], on which
    [+ 1] is what the double-precision addition gives below 2^53.  What is
    stated of a counter that is raised is stated for counters in that range
    ([safe_integer] below), or for the states of a game that starts from
    [createState]. *)
Record RoundState := mkState {
  round : Z;
  userScore : Z;
  botScore : Z;
  bombUsed : bool
}.

(** The integers on which the model's [+ 1] is the code's: [x] and [x + 1]
    are both held exactly by a double.  (From 2^53 on the double-precision
    sum is rounded: [2^53 + 1] gives [2^53] again.) *)
Definition safe_integer (x : Z) : Prop := (- 2 ^ 53 <= x < 2 ^ 53)%Z.

Definition TOTAL_ROUNDS : Z := 3.

Definition createState : RoundState :=
  {| round := 1; userScore := 0; botScore := 0; bombUsed := false |}.

(** [applyRoundResult(state, result)].  The three [if] statements update the
    copy [next] one after the other.  ([result.intent?.move]: every
    [JudgeResult] has an intent, so the optional chaining reads the move.) *)
Definition applyRoundResult (state : RoundState) (result : JudgeResult) : RoundState :=
  let next := {| round := state.(round) + 1;
                 userScore := state.(userScore);
                 botScore := state.(botScore);
                 bombUsed := state.(bombUsed) |} in
  let next := if is_str (lit "user") result.(round_winner)
              then {| round := next.(round); userScore := next.(userScore) + 1;
                      botScore := next.(botScore); bombUsed := next.(bombUsed) |}
              else next in
  let next := if is_str (lit "bot") result.(round_winner)
              then {| round := next.(round); userScore := next.(userScore);
                      botScore := next.(botScore) + 1; bombUsed := next.(bombUsed) |}
              else next in
  let next := if is_str (lit "bomb") result.(intent).(move)
              then {| round := next.(round); userScore := next.(userScore);
                      botScore := next.(botScore); bombUsed := true |}
              else next in
  next.

Definition isGameOver (state : RoundState) : bool :=
  Z.ltb TOTAL_ROUNDS state.(round).

Definition getFinalResult (state : RoundState) : jsstring :=
  if Z.ltb state.(botScore) state.(userScore) then lit "User wins"
  else if Z.ltb state.(userScore) state.(botScore) then lit "Bot wins"
  else lit "Draw".

End State.

(* ===================================================================== *)
(** * The runtime's JSON support *)
(* ===================================================================== *)

Module Json.

(** ** [JSON.parse]: the grammar of ECMA-404 *)

(** Result of a parsing function: a value with the unread input, a
    [SyntaxError], or the recursion budget used up (which the budget of
    [JSON_parse] excludes, see [JSON_parse_budget]). *)
Inductive parse (A : Type) : Type :=
| Parsed (a : A) (rest : jsstring)
| SyntaxError
| OutOfFuel.
Arguments SyntaxError {A}.
Arguments OutOfFuel {A}.

(** JSON white space: space, tab, line feed, carriage return. *)
Definition is_json_ws (c : N) : bool :=
  N.eqb c 32 || N.eqb c 9 || N.eqb c 10 || N.eqb c 13.

Definition skip_ws (s : jsstring) : jsstring := dropWhile is_json_ws s.

Definition hex_value (c : N) : option N :=
  if between 48 57 c then Some (c - 48)%N
  else if between 97 102 c then Some (c - 87)%N
  else if between 65 70 c then Some (c - 55)%N
  else None.

Definition hex4 (a b c d : N) : option N :=
  match hex_value a, hex_value b, hex_value c, hex_value d with
  | Some x, Some y, Some z, Some w => Some (((x * 16 + y) * 16 + z) * 16 + w)%N
  | _, _, _, _ => None
  end.

(** The single-character escapes. *)
Definition unescape (e : N) : option N :=
  if N.eqb e 34 then Some 34%N             (* quote *)
  else if N.eqb e 92 then Some 92%N        (* backslash *)
  else if N.eqb e 47 then Some 47%N        (* slash *)
  else if N.eqb e 98 then Some 8%N         (* b: backspace *)
  else if N.eqb e 102 then Some 12%N       (* f: form feed *)
  else if N.eqb e 110 then Some 10%N       (* n: line feed *)
  else if N.eqb e 114 then Some 13%N       (* r: carriage return *)
  else if N.eqb e 116 then Some 9%N        (* t: tab *)
  else None.

(** The characters of a string literal after its opening quote, up to and
    including the closing quote. *)
Fixpoint parse_chars (s : jsstring) : option (jsstring * jsstring) :=
  match s with
  | [] => None
  | c :: r =>
      if N.eqb c 34 then Some ([], r)
      else if N.eqb c 92 then
        match r with
        | [] => None
        | e :: r1 =>
            if N.eqb e 117 then
              match r1 with
              | h1 :: h2 :: h3 :: h4 :: r2 =>
                  match hex4 h1 h2 h3 h4 with
                  | Some u =>
                      match parse_chars r2 with
                      | Some (t, rest) => Some (u :: t, rest)
                      | None => None
                      end
                  | None => None
                  end
              | _ => None
              end
            else
              match unescape e with
              | Some u =>
                  match parse_chars r1 with
                  | Some (t, rest) => Some (u :: t, rest)
                  | None => None
                  end
              | None => None
              end
        end
      else if N.ltb c 32 then None
      else
        match parse_chars r with
        | Some (t, rest) => Some (c :: t, rest)
        | None => None
        end
  end.

(** A run of digits that must not be empty. *)
Definition digits1 (s : jsstring) : option (jsstring * jsstring) :=
  match takeWhile is_digit s with
  | [] => None
  | ds => Some (ds, dropWhile is_digit s)
  end.

(** A number: an optional minus sign; then a single 0, or a non-zero digit
    and further digits; then optionally a point and one or more digits; then
    optionally e or E, an optional sign and one or more digits.  Each part
    returns the characters it read and what follows. *)
Definition minus_sign (s : jsstring) : jsstring * jsstring :=
  match s with
  | c :: r => if N.eqb c 45 then ([c], r) else ([], s)
  | [] => ([], s)
  end.

Definition int_part (s : jsstring) : option (jsstring * jsstring) :=
  match s with
  | [] => None
  | d :: r =>
      if N.eqb d 48 then Some ([d], r)
      else if is_digit d then Some (d :: takeWhile is_digit r, dropWhile is_digit r)
      else None
  end.

Definition frac_part (s : jsstring) : option (jsstring * jsstring) :=
  match s with
  | c :: r =>
      if N.eqb c 46 then
        match digits1 r with
        | Some (ds, s') => Some (c :: ds, s')
        | None => None
        end
      else Some ([], s)
  | [] => Some ([], s)
  end.

Definition exp_sign (s : jsstring) : jsstring * jsstring :=
  match s with
  | g :: r => if N.eqb g 43 || N.eqb g 45 then ([g], r) else ([], s)
  | [] => ([], s)
  end.

Definition exp_part (s : jsstring) : option (jsstring * jsstring) :=
  match s with
  | c :: r =>
      if N.eqb c 101 || N.eqb c 69 then
        match digits1 (snd (exp_sign r)) with
        | Some (ds, s') => Some (c :: fst (exp_sign r) ++ ds, s')
        | None => None
        end
      else Some ([], s)
  | [] => Some ([], s)
  end.

Definition parse_number (s : jsstring) : option (jsstring * jsstring) :=
  match int_part (snd (minus_sign s)) with
  | None => None
  | Some (ip, s1) =>
      match frac_part s1 with
      | None => None
      | Some (fp, s2) =>
          match exp_part s2 with
          | None => None
          | Some (ep, s3) => Some (fst (minus_sign s) ++ ip ++ fp ++ ep, s3)
          end
      end
  end.

(** Values, array elements and object members.  Each function is entered on
    the first character of what it reads (white space already skipped). *)
Fixpoint parse_value (fuel : nat) (s : jsstring) : parse JsValue :=
  match fuel with
  | O => OutOfFuel
  | S fuel' =>
      match s with
      | [] => SyntaxError
      | c :: r =>
          if N.eqb c 123 then                        (* { *)
            match skip_ws r with
            | [] => SyntaxError
            | d :: r1 =>
                if N.eqb d 125 then Parsed (JObj []) r1
                else parse_members fuel' [] (d :: r1)
            end
          else if N.eqb c 91 then                    (* [ *)
            match skip_ws r with
            | [] => SyntaxError
            | d :: r1 =>
                if N.eqb d 93 then Parsed (JArr []) r1
                else parse_elements fuel' [] (d :: r1)
            end
          else if N.eqb c 34 then                    (* quote *)
            match parse_chars r with
            | Some (t, rest) => Parsed (JStr t) rest
            | None => SyntaxError
            end
          else
            match strip_prefix (lit "true") s with
            | Some rest => Parsed (JBool true) rest
            | None =>
            match strip_prefix (lit "false") s with
            | Some rest => Parsed (JBool false) rest
            | None =>
            match strip_prefix (lit "null") s with
            | Some rest => Parsed JNull rest
            | None =>
            match parse_number s with
            | Some (lx, rest) => Parsed (JNum lx) rest
            | None => SyntaxError
            end end end end
      end
  end

with parse_elements (fuel : nat) (acc : list JsValue) (s : jsstring) : parse JsValue :=
  match fuel with
  | O => OutOfFuel
  | S fuel' =>
      match parse_value fuel' s with
      | Parsed v r =>
          match skip_ws r with
          | [] => SyntaxError
          | d :: r1 =>
              if N.eqb d 44 then parse_elements fuel' (acc ++ [v]) (skip_ws r1)
              else if N.eqb d 93 then Parsed (JArr (acc ++ [v])) r1
              else SyntaxError
          end
      | SyntaxError => SyntaxError
      | OutOfFuel => OutOfFuel
      end
  end

with parse_members (fuel : nat) (acc : list (jsstring * JsValue)) (s : jsstring)
  : parse JsValue :=
  match fuel with
  | O => OutOfFuel
  | S fuel' =>
      match s with
      | [] => SyntaxError
      | q :: r =>
          if N.eqb q 34 then
            match parse_chars r with
            | None => SyntaxError
            | Some (k, r1) =>
                match skip_ws r1 with
                | [] => SyntaxError
                | col :: r2 =>
                    if N.eqb col 58 then
                      match parse_value fuel' (skip_ws r2) with
                      | Parsed v r3 =>
                          match skip_ws r3 with
                          | [] => SyntaxError
                          | d :: r4 =>
                              if N.eqb d 44 then
                                parse_members fuel' (acc ++ [(k, v)]) (skip_ws r4)
                              else if N.eqb d 125 then Parsed (JObj (acc ++ [(k, v)])) r4
                              else SyntaxError
                          end
                      | SyntaxError => SyntaxError
                      | OutOfFuel => OutOfFuel
                      end
                    else SyntaxError
                end
            end
          else SyntaxError
      end
  end.

(** [JSON.parse(text)]; [None] is the [SyntaxError] it throws.  A value and
    the list it opens use two units of the budget for at least one character
    read, so twice the length of the text is enough. *)
Definition JSON_parse (text : jsstring) : option JsValue :=
  match parse_value (S (2 * List.length text)) (skip_ws text) with
  | Parsed v rest =>
      match skip_ws rest with
      | [] => Some v
      | _ :: _ => None
      end
  | SyntaxError => None
  | OutOfFuel => None
  end.

(** ** [JSON.stringify] of a string: QuoteJSONString *)

Definition hex_digit (n : N) : N :=
  if N.ltb n 10 then (48 + n)%N else (87 + n)%N.

(** [\uXXXX] with lower-case hexadecimal digits. *)
Definition unicode_escape (c : N) : jsstring :=
  [92; 117; hex_digit (c / 4096 mod 16); hex_digit (c / 256 mod 16);
   hex_digit (c / 16 mod 16); hex_digit (c mod 16)]%N.

Definition is_high_surrogate (c : N) : bool := between 55296 56319 c.
Definition is_low_surrogate (c : N) : bool := between 56320 57343 c.

(** Escaped form of one code point that is a single code unit. *)
Definition quote_unit (c : N) : jsstring :=
  if N.eqb c 8 then [92; 98]%N
  else if N.eqb c 9 then [92; 116]%N
  else if N.eqb c 10 then [92; 110]%N
  else if N.eqb c 12 then [92; 102]%N
  else if N.eqb c 13 then [92; 114]%N
  else if N.eqb c 34 then [92; 34]%N
  else if N.eqb c 92 then [92; 92]%N
  else if N.ltb c 32 || is_high_surrogate c || is_low_surrogate c
       then unicode_escape c
  else [c].

(** The body of the quoted string.  A high surrogate followed by a low one
    is a code point outside the basic plane and is copied; a surrogate on
    its own is written as an escape. *)
Fixpoint quote_body (s : jsstring) : jsstring :=
  match s with
  | [] => []
  | c :: r =>
      match r with
      | d :: r' =>
          if is_high_surrogate c && is_low_surrogate d
          then c :: d :: quote_body r'
          else quote_unit c ++ quote_body r
      | [] => quote_unit c
      end
  end.

Definition QuoteJSONString (s : jsstring) : jsstring :=
  34%N :: quote_body s ++ [34%N].

End Json.

(* ===================================================================== *)
(** * ai-judge.js *)
(* ===================================================================== *)

Module AiJudge.
Import Json.

(** ** Property access and string conversion on parsed values *)

(** The own property [name] of an object literal read by [JSON.parse]: the
    last member with that key, [JUndefined] when there is none. *)
Definition own_property (members : list (jsstring * JsValue)) (name : jsstring) : JsValue :=
  fold_left (fun acc kv => if jseqb (fst kv) name then snd kv else acc) members JUndefined.

Definition has_own (members : list (jsstring * JsValue)) (name : jsstring) : bool :=
  existsb (fun kv => jseqb (fst kv) name) members.

(** [v.name] for the names read by the parser ([intent], [status], [move],
    [reason], [round_winner], [response]); none of them is a property of a
    built-in prototype, so on anything but an object literal the access
    gives [undefined].  On [null] and [undefined] it throws a [TypeError]
    ([None]). *)
Definition Get (v : JsValue) (name : jsstring) : option JsValue :=
  match v with
  | JUndefined | JNull => None
  | JObj members => Some (own_property members name)
  | _ => Some JUndefined
  end.

(** [v ?? d] *)
Definition nullish (v d : JsValue) : JsValue :=
  match v with
  | JUndefined | JNull => d
  | _ => v
  end.

(** [allowed.includes(v)] for a list of string literals. *)
Definition includes (allowed : list jsstring) (v : JsValue) : bool :=
  existsb (fun l => is_str l v) allowed.

(** [v && typeof v === 'object']: [typeof] answers ['object'] for objects,
    arrays and [null]; [null] is falsy and stops at the left operand, and
    every object or array is truthy. *)
Definition is_object (v : JsValue) : bool :=
  match v with
  | JObj _ | JArr _ => true
  | _ => false
  end.

Section Runtime.

(** [String(x)] for a number [x] read from the lexeme: double-precision
    parsing and printing are the runtime's. *)
Variable Number_toString : jsstring -> jsstring.

(** [Math.ceil(parseFloat(x) * 1000)] for a decimal lexeme [x]:
    double-precision arithmetic of the runtime. *)
Variable ceil_ms : jsstring -> Z.

(** [String(v)].  [None] is the [TypeError] of an object whose own
    [toString] member (a parsed value, so not callable) hides
    [Object.prototype.toString]: [valueOf] then returns the object itself and
    no primitive is found.  An array is converted by
    [Array.prototype.join]. *)
Fixpoint ToString (v : JsValue) : option jsstring :=
  match v with
  | JUndefined => Some (lit "undefined")
  | JNull => Some (lit "null")
  | JBool b => Some (if b then lit "true" else lit "false")
  | JNum x => Some (Number_toString x)
  | JStr s => Some s
  | JArr elems =>
      (fix join (first : bool) (l : list JsValue) : option jsstring :=
         match l with
         | [] => Some []
         | x :: r =>
             let item := match x with
                         | JUndefined | JNull => Some []
                         | _ => ToString x
                         end in
             match item, join false r with
             | Some e, Some t => Some ((if first then [] else [chr ","]) ++ e ++ t)
             | _, _ => None
             end
         end) true elems
  | JObj members =>
      if has_own members (lit "toString") then None
      else Some (lit "[object Object]")
  end.

(** ** Errors *)

Definition MAX_RETRIES : nat := 2.
Definition DEFAULT_RETRY_MS : Z := 10000.

(** A thrown value is seen only through [(err && err.message) || '']: it is
    modelled by that string. *)
Definition ErrorMessage := jsstring.

Definition quota_patterns : list jsstring :=
  [lit "429"; lit "quota"; lit "Too Many Requests"; lit "rate limit"].

Definition not_found_patterns : list jsstring := [lit "404"; lit "not found"].

Definition auth_patterns : list jsstring :=
  [lit "401"; lit "403"; lit "API key"; lit "invalid api key"].

Definition isQuotaError (msg : ErrorMessage) : bool :=
  test_any_ci quota_patterns msg.

(** The capture of [/retry in (\d+(?:\.\d+)?)\s*s/i] at the head of [s]:
    the literal, the longest run of digits, a point with the longest run of
    digits after it when there is at least one, any white space, then [s] or
    [S].  A shorter run of digits or of white space is followed by a digit or
    a white space character and cannot be continued, so the longest runs
    are the only candidates. *)
Definition retry_in_here (s : jsstring) : option jsstring :=
  match strip_prefix_ci (lit "retry in ") s with
  | None => None
  | Some r =>
      match takeWhile is_digit r with
      | [] => None
      | ds =>
          let r1 := dropWhile is_digit r in
          let try_end (cap : jsstring) (rest : jsstring) : option jsstring :=
            match dropWhile is_space rest with
            | c :: _ => if N.eqb (ascii_upper c) 83 then Some cap else None
            | [] => None
            end in
          match r1 with
          | c :: r2 =>
              if N.eqb c 46 then
                match takeWhile is_digit r2 with
                | [] => None
                | fs => try_end (ds ++ c :: fs) (dropWhile is_digit r2)
                end
              else try_end ds r1
          | [] => None
          end
      end
  end.

(** [msg.match(/retry in .../i)]: the leftmost position with a match. *)
Fixpoint retry_in (s : jsstring) : option jsstring :=
  match retry_in_here s with
  | Some cap => Some cap
  | None => match s with
            | [] => None
            | _ :: s' => retry_in s'
            end
  end.

Definition parseRetryDelayMs (msg : ErrorMessage) : Z :=
  match retry_in msg with
  | Some cap => ceil_ms cap
  | None => DEFAULT_RETRY_MS
  end.

(** [Math.ceil(ms / 1000)] (exact for the delays that occur: integers below
    2^40 * 1000). *)
Definition ceil_seconds (ms : Z) : Z := (ms + 999) / 1000.

Inductive Provider := claude | gemini.

Definition ellipsis : N := 8230.

Definition shortError (msg : ErrorMessage) (provider : Provider) : jsstring :=
  if test_any_ci quota_patterns msg then
    let sec := ceil_seconds (parseRetryDelayMs msg) in
    lit "Rate limit exceeded. Wait ~" ++ decimalZ sec ++ lit "s and try again."
  else if test_any_ci not_found_patterns msg then
    match provider with
    | gemini => lit "Model not found. Try setting GEMINI_MODEL (e.g. gemini-2.0-flash)."
    | claude => lit "Model not found. Try setting ANTHROPIC_MODEL (e.g. claude-3-5-haiku-latest)."
    end
  else if test_any_ci auth_patterns msg then
    lit "Invalid or missing API key. Set GEMINI_API_KEY or ANTHROPIC_API_KEY."
  else if Nat.ltb 120 (List.length msg) then slice0 120 msg ++ [ellipsis] else msg.

(** ** The result parser *)

(** [jsonStr.match(/^```(?:json)?\s*([\s\S]*?)```$/)], giving the capture.
    The lazy group grows until the three backquotes that follow it end the
    string, so the capture is what lies between the prefix and the last
    three characters. *)
Definition strip_suffix (p s : jsstring) : option jsstring :=
  match strip_prefix (rev p) (rev s) with
  | Some t => Some (rev t)
  | None => None
  end.

Definition codeBlock (s : jsstring) : option jsstring :=
  match strip_prefix (lit "```") s with
  | None => None
  | Some r =>
      let r1 := match strip_prefix (lit "json") r with
                | Some r' => r'
                | None => r
                end in
      strip_suffix (lit "```") (dropWhile is_space r1)
  end.

Definition statuses : list jsstring := [lit "VALID"; lit "INVALID"; lit "UNCLEAR"].
Definition moves : list jsstring := [lit "rock"; lit "paper"; lit "scissors"; lit "bomb"].
Definition winners : list jsstring := [lit "user"; lit "bot"; lit "draw"].

(** The [intent] of the result, from [obj.intent]. *)
Definition parse_intent (i : JsValue) : option Intent :=
  if is_object i then
    match Get i (lit "status"), Get i (lit "move"), Get i (lit "reason") with
    | Some st, Some mv, Some rs =>
        match ToString (nullish rs (JStr [])) with
        | Some reason =>
            Some {| status := if includes statuses st then st else JStr (lit "UNCLEAR");
                    move := if includes moves mv then mv else JNull;
                    reason := JStr reason |}
        | None => None
        end
    | _, _, _ => None
    end
  else Some {| status := JStr (lit "UNCLEAR"); move := JNull;
               reason := JStr (lit "Missing intent.") |}.

(** The [round_winner] of the result, from [obj.round_winner]. *)
Definition parse_winner (w : JsValue) : JsValue :=
  if includes winners w then w else JNull.

(** The [response] of the result, from [obj.response]. *)
Definition parse_response (resp : JsValue) : option JsValue :=
  match resp with
  | JStr _ => Some resp
  | _ => match ToString (nullish resp (JStr [])) with
         | Some s => Some (JStr s)
         | None => None
         end
  end.

(** The body of the [try] block; [None] when it throws. *)
Definition try_parse (jsonStr : jsstring) : option JudgeResult :=
  match JSON_parse jsonStr with
  | None => None
  | Some obj =>
      match Get obj (lit "intent") with
      | None => None
      | Some i =>
      match parse_intent i with
      | None => None
      | Some intent =>
      match Get obj (lit "round_winner") with
      | None => None
      | Some w =>
      match Get obj (lit "response") with
      | None => None
      | Some resp =>
      match parse_response resp with
      | None => None
      | Some response =>
          Some {| intent := intent; round_winner := parse_winner w;
                  response := response; raw := JUndefined |}
      end end end end end
  end.

(** The result of the [catch] clause. *)
Definition not_json (text : jsstring) : JudgeResult :=
  {| intent := {| status := JStr (lit "UNCLEAR"); move := JNull;
                  reason := JStr (lit "Response was not valid JSON.") |};
     round_winner := JNull;
     response := JStr (slice0 500 text);
     raw := JUndefined |}.

(** The text handed to [JSON.parse]. *)
Definition json_text (text : jsstring) : jsstring :=
  let jsonStr := trim text in
  match codeBlock jsonStr with
  | Some m1 => trim m1
  | None => jsonStr
  end.

Definition parseStructuredOutput (text : jsstring) : JudgeResult :=
  match try_parse (json_text text) with
  | Some result => result
  | None => not_json text
  end.

(** ** The judge client *)

(** [process.env] and the [options] argument: a variable or option that is
    not set reads [None] ([undefined]). *)
Record Env := mkEnv {
  ANTHROPIC_API_KEY : option jsstring;
  GEMINI_API_KEY : option jsstring;
  GOOGLE_API_KEY : option jsstring;
  ANTHROPIC_MODEL : option jsstring;
  GEMINI_MODEL : option jsstring
}.

Record Options := mkOptions {
  apiKey : option jsstring;
  model : option jsstring
}.

(** Truthiness of a string or [undefined]: the empty string is falsy. *)
Definition truthy (v : option jsstring) : bool :=
  match v with
  | Some (_ :: _) => true
  | _ => false
  end.

(** [a || b] *)
Definition or_else (a b : option jsstring) : option jsstring :=
  if truthy a then a else b.

Definition getProvider (env : Env) (options : Options) : option Provider * option jsstring :=
  let anthropicKey := or_else options.(apiKey) env.(ANTHROPIC_API_KEY) in
  let geminiKey := or_else env.(GEMINI_API_KEY) env.(GOOGLE_API_KEY) in
  if truthy anthropicKey then (Some claude, anthropicKey)
  else if truthy geminiKey then (Some gemini, geminiKey)
  else (None, None).

Definition ANTHROPIC_DEFAULT_MODEL : jsstring := lit "claude-3-5-haiku-latest".
Definition GEMINI_DEFAULT_MODEL : jsstring := lit "gemini-2.0-flash".

(** What one call of a provider's SDK does: it returns the reply text (the
    text of the first text block, the empty string when there is none), or
    it throws. *)
Inductive Outcome :=
| Replied (text : jsstring)
| Threw (msg : ErrorMessage).

(** The observable actions of [judgeRound], in the order they happen. *)
Inductive Event :=
| Call (provider : Provider) (prompt key modelId : jsstring)
| Sleep (ms : Z)
| ConsoleError (line : jsstring).

(** The world threaded through the client: the actions so far. *)
Definition World := list Event.

Definition is_call (e : Event) : bool :=
  match e with
  | Call _ _ _ _ => true
  | _ => false
  end.

(** The number of provider calls among the actions. *)
Definition calls_made (w : World) : nat := List.length (filter is_call w).

(** State monad over the world. *)
Definition M (A : Type) : Type := World -> A * World.
Definition ret {A} (a : A) : M A := fun w => (a, w).
Definition bind {A B} (m : M A) (k : A -> M B) : M B :=
  fun w => let '(a, w') := m w in k a w'.

Notation "x <- m ;; k" := (bind m (fun x => k))
  (at level 61, m at next level, right associativity).
Notation "m ;;; k" := (bind m (fun _ => k))
  (at level 61, right associativity).

Section Client.

(** The provider: the outcome of the n-th call made during the round
    (counting from 0). *)
Variable sdk : nat -> Outcome.

(** [buildRoundPrompt] of rules-and-prompt.js: the prompt text sent to the
    provider. *)
Variable buildRoundPrompt : State.RoundState -> jsstring -> jsstring -> Z -> jsstring.

Variable env : Env.

(** [callGemini] and [callClaude]: one SDK call; the reply text is trimmed. *)
Definition callProvider (provider : Provider) (prompt key modelId : jsstring)
  : M (jsstring + ErrorMessage) :=
  fun w =>
    let w' := w ++ [Call provider prompt key modelId] in
    match sdk (calls_made w) with
    | Replied text => (inl (trim text), w')
    | Threw msg => (inr msg, w')
    end.

Definition sleep (ms : Z) : M unit := fun w => (tt, w ++ [Sleep ms]).
Definition console_error (line : jsstring) : M unit :=
  fun w => (tt, w ++ [ConsoleError line]).

Definition provider_name (p : Provider) : jsstring :=
  match p with
  | claude => lit "claude"
  | gemini => lit "gemini"
  end.

Definition retry_notice (provider : Provider) (delayMs : Z) (attempt : nat) : jsstring :=
  lit "AI Judge (" ++ provider_name provider ++ lit "): rate limit. Retrying in "
  ++ decimalZ (ceil_seconds delayMs) ++ lit "s (attempt "
  ++ decimal (N.of_nat (attempt + 1)) ++ lit "/" ++ decimal (N.of_nat (MAX_RETRIES + 1))
  ++ [chr ")"; ellipsis].

Definition no_content_result : JudgeResult :=
  {| intent := {| status := JStr (lit "UNCLEAR"); move := JNull;
                  reason := JStr (lit "Model returned no content.") |};
     round_winner := JNull;
     response := JStr (lit "No response from the Judge. Try again.");
     raw := JNull |}.

(** [{ ...parsed, raw: text }] *)
Definition with_raw (parsed : JudgeResult) (text : jsstring) : JudgeResult :=
  {| intent := parsed.(intent);
     round_winner := parsed.(round_winner);
     response := parsed.(response);
     raw := JStr text |}.

(** The [for] loop.  [remaining] counts the iterations the loop condition
    still allows ([MAX_RETRIES + 1 - attempt]); the loop is left with
    [inl result] by a [return] and with [inr lastErr] by [break] or by its
    condition. *)
Fixpoint attempts (provider : Provider) (prompt key modelId : jsstring)
    (remaining attempt : nat) (lastErr : option ErrorMessage)
  : M (JudgeResult + option ErrorMessage) :=
  match remaining with
  | O => ret (inr lastErr)
  | S remaining' =>
      r <- callProvider provider prompt key modelId ;;
      match r with
      | inl text =>
          match text with
          | [] => ret (inl no_content_result)
          | _ :: _ =>
              let parsed := parseStructuredOutput text in
              ret (inl (with_raw parsed text))
          end
      | inr err =>
          if Nat.ltb attempt MAX_RETRIES && isQuotaError err then
            let delayMs := parseRetryDelayMs err in
            console_error (retry_notice provider delayMs attempt) ;;;
            sleep delayMs ;;;
            attempts provider prompt key modelId remaining' (attempt + 1) (Some err)
          else ret (inr (Some err))
      end
  end.

Definition no_key_result : JudgeResult :=
  {| intent := {| status := JStr (lit "INVALID"); move := JNull;
                  reason := JStr (lit "No API key. Set GEMINI_API_KEY or ANTHROPIC_API_KEY in .env.") |};
     round_winner := JNull;
     response := JStr (lit "Cannot run AI Judge: set either GEMINI_API_KEY or ANTHROPIC_API_KEY in .env.");
     raw := JNull |}.

Definition error_result (short : jsstring) : JudgeResult :=
  {| intent := {| status := JStr (lit "INVALID"); move := JNull; reason := JStr short |};
     round_winner := JNull;
     response := JStr (lit "Judge error: " ++ short);
     raw := JNull |}.

(** [options.model || (provider === 'gemini' ? (process.env.GEMINI_MODEL ||
    GEMINI_DEFAULT_MODEL) : (process.env.ANTHROPIC_MODEL ||
    ANTHROPIC_DEFAULT_MODEL))] *)
Definition chooseModel (provider : Provider) (options : Options) : jsstring :=
  match or_else options.(model)
          (match provider with
           | gemini => or_else env.(GEMINI_MODEL) (Some GEMINI_DEFAULT_MODEL)
           | claude => or_else env.(ANTHROPIC_MODEL) (Some ANTHROPIC_DEFAULT_MODEL)
           end) with
  | Some m => m
  | None => []
  end.

Definition judgeRound (state : State.RoundState) (userInput botMove : jsstring)
    (options : Options) : M JudgeResult :=
  match getProvider env options with
  | (Some provider, Some key) =>
      if negb (truthy (Some key)) then ret no_key_result
      else
        let prompt := buildRoundPrompt state userInput botMove State.TOTAL_ROUNDS in
        let modelId := chooseModel provider options in
        r <- attempts provider prompt key modelId (MAX_RETRIES + 1) 0 None ;;
        match r with
        | inl result => ret result
        | inr lastErr =>
            let short := shortError (match lastErr with Some m => m | None => [] end) provider in
            console_error (lit "AI Judge error: " ++ short) ;;;
            ret (error_result short)
        end
  | _ => ret no_key_result
  end.

End Client.
End Runtime.
End AiJudge.

(* ===================================================================== *)
(** * normalize-input.js *)
(* ===================================================================== *)

Module NormalizeInput.

(** What the functions of this file can receive and return: besides
    strings, the members that the object literal [TYPO_MAP] inherits from
    [Object.prototype]. *)
Inductive Value :=
| VUndefined
| VStr (s : jsstring)
| VFunction (name : jsstring)     (* a built-in function *)
| VObjectPrototype.               (* the object [Object.prototype] *)

Definition CANONICAL : list jsstring :=
  [lit "rock"; lit "paper"; lit "scissors"; lit "bomb"].

(** The own properties of [TYPO_MAP]. *)
Definition TYPO_MAP : list (jsstring * jsstring) :=
  [ (lit "scissor", lit "scissors");
    (lit "scisors", lit "scissors");
    (lit "scisor", lit "scissors");
    (lit "sissors", lit "scissors");
    (lit "sissor", lit "scissors");
    (lit "roc", lit "rock");
    (lit "rok", lit "rock");
    (lit "rck", lit "rock");
    (lit "papper", lit "paper");
    (lit "pape", lit "paper");
    (lit "papr", lit "paper");
    (lit "paer", lit "paper");
    (lit "bom", lit "bomb");
    (lit "bmb", lit "bomb");
    (lit "bome", lit "bomb") ].

Fixpoint assoc (key : jsstring) (m : list (jsstring * jsstring)) : option jsstring :=
  match m with
  | [] => None
  | (k, v) :: m' => if jseqb k key then Some v else assoc key m'
  end.

(** The function-valued properties of [Object.prototype], with the name of
    the function each holds. *)
Definition Object_prototype_functions : list (jsstring * jsstring) :=
  [ (lit "constructor", lit "Object");
    (lit "__defineGetter__", lit "__defineGetter__");
    (lit "__defineSetter__", lit "__defineSetter__");
    (lit "hasOwnProperty", lit "hasOwnProperty");
    (lit "__lookupGetter__", lit "__lookupGetter__");
    (lit "__lookupSetter__", lit "__lookupSetter__");
    (lit "isPrototypeOf", lit "isPrototypeOf");
    (lit "propertyIsEnumerable", lit "propertyIsEnumerable");
    (lit "toString", lit "toString");
    (lit "valueOf", lit "valueOf");
    (lit "toLocaleString", lit "toLocaleString") ].

(** [TYPO_MAP[key]]: an own property, else what the prototype chain gives
    ([TYPO_MAP] is an object literal, its prototype is [Object.prototype];
    the accessor [__proto__] returns that prototype). *)
Definition TYPO_MAP_get (key : jsstring) : Value :=
  match assoc key TYPO_MAP with
  | Some v => VStr v
  | None =>
      match assoc key Object_prototype_functions with
      | Some f => VFunction f
      | None => if jseqb key (lit "__proto__") then VObjectPrototype else VUndefined
      end
  end.

(** Truthiness. *)
Definition truthy (v : Value) : bool :=
  match v with
  | VUndefined => false
  | VStr [] => false
  | _ => true
  end.

(** String conversion, as [Array.prototype.join] applies it to an element
    (V8 prints a built-in function as below). *)
Definition to_text (v : Value) : jsstring :=
  match v with
  | VUndefined => []
  | VStr s => s
  | VFunction name => lit "function " ++ name ++ lit "() { [native code] }"
  | VObjectPrototype => lit "[object Object]"
  end.

(** [s.split(/\s+/)] *)
Fixpoint split_spaces_from (in_space : bool) (s : jsstring) : list jsstring :=
  match s with
  | [] => [[]]
  | c :: r =>
      if is_space c then
        if in_space then split_spaces_from true r
        else [] :: split_spaces_from true r
      else
        match split_spaces_from false r with
        | p :: ps => (c :: p) :: ps
        | [] => [[c]]
        end
  end.

Definition split_spaces (s : jsstring) : list jsstring := split_spaces_from false s.

(** [s.split(/\b/)]: the string is cut wherever a word character meets a
    character that is not one. *)
Fixpoint split_boundaries (s : jsstring) : list jsstring :=
  match s with
  | [] => [[]]
  | c :: r =>
      match r with
      | [] => [[c]]
      | d :: _ =>
          if Bool.eqb (is_word c) (is_word d) then
            match split_boundaries r with
            | p :: ps => (c :: p) :: ps
            | [] => [[c]]
            end
          else [c] :: split_boundaries r
      end
  end.

Section Unicode.

(** [String.prototype.toLowerCase] maps the ASCII capitals to the small
    letters and leaves the other ASCII characters alone; what it does to a
    code unit of 128 or more is the Unicode tables' of the runtime. *)
Variable unicode_lower : N -> jsstring.

Definition toLowerCase (s : jsstring) : jsstring :=
  flat_map (fun c => if N.ltb c 128 then [ascii_lower c] else unicode_lower c) s.

Definition normalizeExact (input : jsstring) : Value :=
  let key := toLowerCase (trim input) in
  match key with
  | [] => VStr input
  | _ :: _ =>
      if truthy (TYPO_MAP_get key) then TYPO_MAP_get key
      else if existsb (jseqb key) CANONICAL then VStr key
      else VStr input
  end.

Definition normalizeWords (text : jsstring) : jsstring :=
  let words := split_boundaries text in
  concat (map (fun w =>
                 let key := toLowerCase w in
                 to_text (if truthy (TYPO_MAP_get key) then TYPO_MAP_get key else VStr w))
              words).

(** [normalizeMoveInput(raw)]; [None] is the [TypeError] of calling [trim]
    on a value that has no such method. *)
Definition normalizeMoveInput (raw : Value) : option Value :=
  match (if truthy raw then raw else VStr []) with
  | VStr s =>
      let trimmed := trim s in
      match trimmed with
      | [] => Some (VStr trimmed)
      | _ :: _ =>
          let singleWord := Nat.eqb (List.length (split_spaces trimmed)) 1 in
          if singleWord then Some (normalizeExact trimmed)
          else Some (VStr (normalizeWords trimmed))
      end
  | _ => None
  end.

(** What the documentation asks of one word: a known typo becomes its
    canonical move, any other word stays. *)
Definition correct_word (w : jsstring) : jsstring :=
  match assoc (toLowerCase w) TYPO_MAP with
  | Some v => v
  | None => w
  end.

(** The lookups of the input reach no inherited property: neither the
    whole trimmed input nor any of its pieces is, in lower case, a property
    name of [Object.prototype]. *)
Definition inherited (key : jsstring) : bool :=
  match assoc key TYPO_MAP with
  | Some _ => false
  | None =>
      match assoc key Object_prototype_functions with
      | Some _ => true
      | None => jseqb key (lit "__proto__")
      end
  end.

Definition own_lookups_only (raw : jsstring) : Prop :=
  inherited (toLowerCase (trim raw)) = false
  /\ Forall (fun w => inherited (toLowerCase w) = false) (split_boundaries (trim raw)).

End Unicode.

(** The class of a piece cut by [split(/\b/)]: made of word characters or
    not, decided by its first character. *)
Definition word_class (p : jsstring) : bool :=
  match p with
  | c :: _ => is_word c
  | [] => false
  end.

(** All characters of the piece are of its class. *)
Definition uniform (p : jsstring) : Prop :=
  Forall (fun c => is_word c = word_class p) p.

(** A list of pieces as [split(/\b/)] gives them: none empty, each of one
    class, neighbours of different classes. *)
Inductive runs : list jsstring -> Prop :=
| runs_one (p : jsstring) :
    p <> [] -> uniform p -> runs [p]
| runs_cons (p q : jsstring) (ps : list jsstring) :
    p <> [] -> uniform p -> word_class p <> word_class q ->
    runs (q :: ps) -> runs (p :: q :: ps).

(** The string does not start with white space. *)
Definition clean_start (t : jsstring) : Prop :=
  match t with
  | [] => True
  | c :: _ => is_space c = false
  end.

(** What all keys of [TYPO_MAP] have in common: not empty, made of word
    characters, and not made of the letter k alone. *)
Definition is_typo_key (key : jsstring) : Prop :=
  key <> [] /\ forallb is_word key = true
  /\ existsb (fun c => negb (N.eqb 107 c)) key = true.

End NormalizeInput.

(* ===================================================================== *)
(** * The round-result contract *)
(* ===================================================================== *)

Module Contract.
Import AiJudge.

(** All fields populated, the enumerated ones within their closed sets. *)
Definition well_formed (r : JudgeResult) : Prop :=
  In (status (intent r)) (map JStr statuses)
  /\ (move (intent r) = JNull \/ In (move (intent r)) (map JStr moves))
  /\ (round_winner r = JNull \/ In (round_winner r) (map JStr winners))
  /\ (exists s, reason (intent r) = JStr s)
  /\ (exists s, response r = JStr s).

(** A status other than VALID comes with a null winner and a null move. *)
Definition cross_field_invariant (r : JudgeResult) : Prop :=
  status (intent r) <> JStr (lit "VALID") ->
  round_winner r = JNull /\ move (intent r) = JNull.



(** [JSON.stringify] of a field that holds a string or [null]. *)
Definition stringify_field (v : JsValue) : jsstring :=
  match v with
  | JStr s => Json.QuoteJSONString s
  | _ => lit "null"
  end.

(** [JSON.stringify] of an object, from the texts of its member values:
    the members are written as quoted key, colon, value, separated by
    commas, between braces, without white space. *)
Definition member_text (kv : jsstring * jsstring) : jsstring :=
  Json.QuoteJSONString (fst kv) ++ chr ":" :: snd kv.

Fixpoint join_members (ms : list (jsstring * jsstring)) : jsstring :=
  match ms with
  | [] => []
  | kv :: rest =>
      match rest with
      | [] => member_text kv
      | _ :: _ => member_text kv ++ chr "," :: join_members rest
      end
  end.

Definition stringify_object (ms : list (jsstring * jsstring)) : jsstring :=
  chr "{" :: join_members ms ++ [chr "}"].

(** The record written in the exact output shape, as [JSON.stringify]
    writes the object
    [{intent: {status, move, reason}, round_winner, response}]. *)
Definition serialize (r : JudgeResult) : jsstring :=
  stringify_object
    [ (lit "intent",
       stringify_object
         [ (lit "status", stringify_field (status (intent r)));
           (lit "move", stringify_field (move (intent r)));
           (lit "reason", stringify_field (reason (intent r))) ]);
      (lit "round_winner", stringify_field (round_winner r));
      (lit "response", stringify_field (response r)) ].

(** The object that [serialize] writes. *)
Definition record_object (r : JudgeResult) : JsValue :=
  JObj [ (lit "intent", JObj [ (lit "status", status (intent r));
                               (lit "move", move (intent r));
                               (lit "reason", reason (intent r)) ]);
         (lit "round_winner", round_winner r);
         (lit "response", response r) ].

(** [text] is read back as [v] by a parse with a budget above [g],
    whatever follows it, and does not start with white space. *)
Definition reads_as (g : nat) (text : jsstring) (v : JsValue) : Prop :=
  forall f rest, g <= f ->
    Json.parse_value (S f) (text ++ rest) = Json.Parsed v rest
    /\ Json.skip_ws (text ++ rest) = text ++ rest.

(** A field that holds a string or [null]. *)
Definition plain (v : JsValue) : Prop := v = JNull \/ exists s, v = JStr s.

(** A character read in front of the characters read after it. *)
Definition cons_char (c : N) (o : option (jsstring * jsstring)) :
  option (jsstring * jsstring) :=
  match o with
  | Some (t, rest) => Some (c :: t, rest)
  | None => None
  end.

End Contract.

(* ===================================================================== *)
(** * rules-and-prompt.js *)
(* ===================================================================== *)

Module RulesAndPrompt.

Definition quote : N := 34.
Definition em_dash : N := 8212.
Definition arrow : N := 8594.

(** The lines of a template literal, each with the line break that ends
    it. *)
Definition lines (ls : list jsstring) : jsstring :=
  concat (map (fun l => l ++ [10%N]) ls).

Definition RULES : jsstring :=
  [10%N] ++ lines [
    lit "## Game rules (you must apply these exactly)";
    [];
    lit "1. **Valid moves** (exactly these, nothing else):";
    lit "   - rock";
    lit "   - paper";
    lit "   - scissors";
    lit "   - bomb (can be used by the player ONLY ONCE in the entire game)";
    [];
    lit "2. **Outcomes**:";
    lit "   - rock beats scissors; scissors beats paper; paper beats rock.";
    lit "   - bomb beats rock, paper, and scissors.";
    lit "   - bomb vs bomb " ++ [arrow] ++ lit " draw.";
    [];
    lit "3. **Move interpretation**:";
    lit "   - If the user's message clearly indicates one valid move " ++ [arrow] ++ lit " VALID. Infer the move (rock/paper/scissors/bomb).";
    lit "   - If the user's message is ambiguous or could mean multiple things " ++ [arrow] ++ lit " UNCLEAR. Do not guess; set move to null.";
    lit "   - If the user's message is not a valid move (wrong word, irrelevant, or bomb when already used) " ++ [arrow] ++ lit " INVALID. Set move to null.";
    [];
    lit "4. **Turn outcome**:";
    lit "   - Invalid or unclear moves waste the turn (no score change; round_winner is null).";
    lit "   - Valid move: determine round_winner from player_move vs bot_move using the rules above."
  ].

Definition OUTPUT_SCHEMA : jsstring :=
  [10%N] ++ lines [
    lit "## Output format (respond with valid JSON only, no markdown or extra text)";
    [];
    lit "{";
    jlit "  'intent': {";
    jlit "    'status': 'VALID' | 'INVALID' | 'UNCLEAR',";
    jlit "    'move': 'rock' | 'paper' | 'scissors' | 'bomb' | null,";
    jlit "    'reason': 'One sentence: why this status?'";
    lit "  },";
    jlit "  'round_winner': 'user' | 'bot' | 'draw' | null,";
    jlit "  'response': '2-4 sentences for the user: round number, moves played, who won (or that the turn was wasted), and what happens next. Be clear and concise.'";
    lit "}"
  ].

(** [flag ? 'Yes' : 'No'] *)
Definition yes_no (flag : bool) : jsstring := if flag then lit "Yes" else lit "No".

(** What the prompt says about the game so far, up to the user's message. *)
Definition this_round (state : State.RoundState) : jsstring :=
  lines [
    [];
    lit "---";
    [];
    lit "## This round";
    [];
    lit "- **Round number:** " ++ decimalZ state.(State.round);
    lit "- **Current scores:** User " ++ decimalZ state.(State.userScore)
      ++ lit " " ++ [em_dash] ++ lit " Bot " ++ decimalZ state.(State.botScore);
    lit "- **Bomb already used by user this game?** " ++ yes_no state.(State.bombUsed)
  ].

(** The closing section of the prompt, after the last-round line. *)
Definition your_task : jsstring :=
  lines [
    [];
    lit "---";
    [];
    lit "## Your task";
    [];
    lit "1. **Intent:** From the user's message, decide status (VALID / INVALID / UNCLEAR), the move if valid (rock/paper/scissors/bomb), and a short reason. If bomb was already used and user said bomb " ++ [arrow] ++ lit " INVALID. If ambiguous " ++ [arrow] ++ lit " UNCLEAR.";
    [];
    lit "2. **Game logic:** If intent is VALID, determine round_winner (user / bot / draw) using the rules. If INVALID or UNCLEAR, set round_winner to null (turn wasted).";
    [];
    jlit "3. **Response:** Write the 'response' string for the user: state the round number, what moves were played (or that the move was invalid/unclear), who won or that the turn was wasted, and what happens next (scores and next round, or final result if this is the last round). Do not include JSON in the response text" ++ [em_dash] ++ lit "only in your overall output.";
    []
  ] ++ lit "Reply with ONLY the JSON object (no markdown code fence, no explanation outside the JSON).".

(** [buildRoundPrompt(state, userInput, botMove, totalRounds)]: the template
    literal, with its substitutions in the order they are written. *)
Definition buildRoundPrompt (state : State.RoundState) (userInput botMove : jsstring)
    (totalRounds : Z) : jsstring :=
  let isLastRound := Z.leb totalRounds state.(State.round) in
  RULES ++ [10%N] ++ OUTPUT_SCHEMA ++ [10%N]
  ++ this_round state
  ++ lines [
       lit "- **User's message (free text):** " ++ [quote] ++ userInput ++ [quote];
       lit "- **Bot's move (already chosen):** " ++ botMove;
       lit "- **Is this the last round of the game?** " ++ yes_no isLastRound
     ]
  ++ your_task.

End RulesAndPrompt.

(* ===================================================================== *)
(** * index.js: the game loop of the command line *)
(* ===================================================================== *)

Module Cli.
Import State AiJudge.

Definition en_dash : N := 8211.
Definition middle_dot : N := 183.

Definition BOT_CHOICES : list jsstring := [lit "rock"; lit "paper"; lit "scissors"].

(** [BOT_CHOICES[Math.floor(Math.random() * BOT_CHOICES.length)]], from the
    index that the random number gives.  [Math.random()] is below 1, so the
    index is below the length; an index that is not gives [undefined]
    ([None]). *)
Definition randomBotMove (index : nat) : option jsstring := nth_error BOT_CHOICES index.

(** A value substituted in a template literal. *)
Definition template_text (v : NormalizeInput.Value) : jsstring :=
  match v with
  | NormalizeInput.VUndefined => lit "undefined"
  | _ => NormalizeInput.to_text v
  end.

Definition template_move (m : option jsstring) : jsstring :=
  match m with
  | Some s => s
  | None => lit "undefined"
  end.

(** What the process does that can be seen from outside, in the order it
    happens: lines on the standard output, questions asked, the actions of
    one call of [judgeRound] (provider calls, sleeps, lines on the standard
    error), the error printed by the handler of a rejected [main()], and the
    exit. *)
Inductive Output :=
| Log (line : jsstring)
| Question (text : jsstring)
| Judge (actions : World)
| LogError
| Exit (code : Z).

(** How one iteration of the loop ends. *)
Inductive Step :=
| Continue (next : RoundState)
| Quit
| Throw.

(** How the loop ends. *)
Inductive Ending :=
| GameOver (final : RoundState)
| Exited
| Thrown
| OutOfFuel.

Definition banner : list Output :=
  [ Log (lit "--- Rock" ++ [en_dash] ++ lit "Paper" ++ [en_dash] ++ lit "Scissors"
         ++ [en_dash] ++ lit "Bomb " ++ [middle_dot] ++ lit " AI Judge ---" ++ [10%N]);
    Log (lit "Rules: Valid moves are rock, paper, scissors, bomb (bomb once only; bomb beats all).");
    Log (lit "You have " ++ decimalZ TOTAL_ROUNDS
         ++ lit " rounds. Enter your move in free text." ++ [10%N]) ].

Definition round_header (state : RoundState) : jsstring :=
  lit "--- Round " ++ decimalZ state.(round) ++ lit " (User " ++ decimalZ state.(userScore)
  ++ lit " " ++ [en_dash] ++ lit " Bot " ++ decimalZ state.(botScore) ++ lit ") ---".

Definition final_report (state : RoundState) : list Output :=
  [ Log (lit "--- Final result ---");
    Log (lit "Scores: User " ++ decimalZ state.(userScore) ++ lit " " ++ [en_dash]
         ++ lit " Bot " ++ decimalZ state.(botScore));
    Log (getFinalResult state ++ lit "." ++ [10%N]);
    Exit 0 ].

(** [judgeRound(state, normalizedInput, botMove)]: no options. *)
Definition default_options : Options := {| apiKey := None; model := None |}.

Section Main.

Variable Number_toString : jsstring -> jsstring.
Variable ceil_ms : jsstring -> Z.
Variable unicode_lower : N -> jsstring.
Variable env : Env.

(** The provider: the outcome of the n-th call of the k-th round played
    (both counted from 0). *)
Variable sdk : nat -> nat -> Outcome.

(** The line typed in answer to the k-th question. *)
Variable answers : nat -> jsstring.

(** The index that [Math.random()] gives for the k-th bot move. *)
Variable random_index : nat -> nat.

(** Truthiness of a value.  A number is falsy when it is zero (of either
    sign), which is when it prints as [0]; a parsed number is never NaN. *)
Definition truthy_value (v : JsValue) : bool :=
  match v with
  | JUndefined | JNull => false
  | JBool b => b
  | JNum x => negb (jseqb (Number_toString x) (lit "0"))
  | JStr s => match s with [] => false | _ :: _ => true end
  | JArr _ | JObj _ => true
  end.

(** [userInput.toLowerCase() === 'quit' || userInput.toLowerCase() === 'exit'] *)
Definition wants_out (userInput : jsstring) : bool :=
  jseqb (NormalizeInput.toLowerCase unicode_lower userInput) (lit "quit")
  || jseqb (NormalizeInput.toLowerCase unicode_lower userInput) (lit "exit").

(** The two [console.log] calls that report a result; [Throw] when a string
    conversion throws. *)
Definition report (result : JudgeResult) (next : Step) : Step * list Output :=
  match ToString Number_toString result.(response) with
  | None => (Throw, [])
  | Some resp =>
      let shown := [Log ([10%N] ++ resp ++ [10%N])] in
      if truthy_value result.(intent).(reason) then
        match ToString Number_toString result.(intent).(status),
              ToString Number_toString result.(intent).(reason) with
        | Some st, Some rs =>
            (next, shown ++ [Log (lit "[Intent: " ++ st ++ lit " " ++ [RulesAndPrompt.em_dash]
                                  ++ lit " " ++ rs ++ lit "]" ++ [10%N])])
        | _, _ => (Throw, shown)
        end
      else (next, shown)
  end.

(** The body of the [while] loop, in round [k] (counted from 0). *)
Definition turn (k : nat) (state : RoundState) : Step * list Output :=
  let asked := [Log (round_header state); Question (lit "Your move (free text): ")] in
  let userInput := trim (answers k) in
  if wants_out userInput then (Quit, asked ++ [Log (lit "Game ended."); Exit 0])
  else
    let botMove := randomBotMove (random_index k) in
    match NormalizeInput.normalizeMoveInput unicode_lower (NormalizeInput.VStr userInput) with
    | None => (Throw, asked)
    | Some normalizedInput =>
        let '(result, actions) :=
          judgeRound Number_toString ceil_ms (sdk k) RulesAndPrompt.buildRoundPrompt env
            state (template_text normalizedInput) (template_move botMove)
            default_options [] in
        let '(step, shown) := report result (Continue (applyRoundResult state result)) in
        (step, asked ++ [Judge actions] ++ shown)
    end.

(** The [while] loop, from round [k]; [fuel] bounds the iterations. *)
Fixpoint play (fuel k : nat) (state : RoundState) : Ending * list Output :=
  match fuel with
  | O => (OutOfFuel, [])
  | S fuel' =>
      if isGameOver state then (GameOver state, [])
      else
        match turn k state with
        | (Continue next, out) =>
            let '(ending, rest) := play fuel' (S k) next in (ending, out ++ rest)
        | (Quit, out) => (Exited, out)
        | (Throw, out) => (Thrown, out)
        end
  end.

(** [main()] with the handler of its rejection.  The loop starts in round 1
    and adds one to the round in every iteration, so it tests its condition
    at most [TOTAL_ROUNDS + 1] times. *)
Definition main : list Output :=
  match play (S (Z.to_nat TOTAL_ROUNDS)) 0 createState with
  | (GameOver final, out) => banner ++ out ++ final_report final
  | (Exited, out) => banner ++ out
  | (Thrown, out) => banner ++ out ++ [LogError; Exit 1]
  | (OutOfFuel, out) => banner ++ out
  end.

(** The call of the judge in round [k], as [turn] makes it: its result and
    its actions; [None] when the normalisation throws. *)
Definition judged (k : nat) (state : RoundState) : option (JudgeResult * World) :=
  match NormalizeInput.normalizeMoveInput unicode_lower
          (NormalizeInput.VStr (trim (answers k))) with
  | None => None
  | Some normalizedInput =>
      Some (judgeRound Number_toString ceil_ms (sdk k) RulesAndPrompt.buildRoundPrompt env
              state (template_text normalizedInput)
              (template_move (randomBotMove (random_index k))) default_options [])
  end.

(** The judge's call in round [k] gave [result], a well-formed result,
    with [actions], among them at most three provider calls. *)
Definition judged_well (k : nat) (state : RoundState) (result : JudgeResult)
    (actions : World) : Prop :=
  judged k state = Some (result, actions)
  /\ Contract.well_formed result /\ calls_made actions <= 3.

End Main.

(** The text of a field that holds a string. *)
Definition text_of (v : JsValue) : jsstring :=
  match v with
  | JStr s => s
  | _ => []
  end.

(** The lines that report a result whose fields are strings: the response
    between two line breaks, then the intent, when it has a reason. *)
Definition shown_result (result : JudgeResult) : list Output :=
  Log ([10%N] ++ text_of result.(response) ++ [10%N])
  :: match text_of result.(intent).(reason) with
     | [] => []
     | _ :: _ =>
         [Log (lit "[Intent: " ++ text_of result.(intent).(status) ++ lit " "
               ++ [RulesAndPrompt.em_dash] ++ lit " " ++ text_of result.(intent).(reason)
               ++ lit "]" ++ [10%N])]
     end.

(** The output of a round that was judged. *)
Definition round_output (state : RoundState) (result : JudgeResult) (actions : World)
  : list Output :=
  [Log (round_header state); Question (lit "Your move (free text): "); Judge actions]
  ++ shown_result result.

(** The output of a round in which the user leaves. *)
Definition quit_output (state : RoundState) : list Output :=
  [Log (round_header state); Question (lit "Your move (free text): ");
   Log (lit "Game ended."); Exit 0].

(** What is counted in an output. *)
Definition is_question (o : Output) : bool :=
  match o with Question _ => true | _ => false end.

Definition is_exit (o : Output) : bool :=
  match o with Exit _ => true | _ => false end.

Definition questions (out : list Output) : nat := List.length (filter is_question out).

Definition rounds_judged (out : list Output) : nat :=
  List.length (filter (fun o => match o with Judge _ => true | _ => false end) out).

Definition provider_calls (out : list Output) : nat :=
  fold_right (fun o n => match o with Judge actions => calls_made actions + n | _ => n end) 0 out.

End Cli.

(* ===================================================================== *)
(** * What is observed of a run *)
(* ===================================================================== *)

Module Observed.
Import AiJudge.

(** The delays slept for, in the order of the sleeps. *)
Definition sleeps (w : World) : list Z :=
  flat_map (fun e => match e with Sleep ms => [ms] | _ => [] end) w.

(** The number of results whose round winner is [who]. *)
Definition won_by (who : jsstring) (rs : list JudgeResult) : Z :=
  Z.of_nat (List.length (filter (fun r => is_str who (round_winner r)) rs)).

(** Some result carries the move [bomb]. *)
Definition bomb_played (rs : list JudgeResult) : bool :=
  existsb (fun r => is_str (lit "bomb") (move (intent r))) rs.

(** [p] occurs in [s] when the case of the ASCII letters is ignored. *)
Definition occurs_ci (p s : jsstring) : Prop :=
  exists pre mid post, s = pre ++ mid ++ post /\ map ascii_upper mid = map ascii_upper p.

(** [rest] starts with a match of the pattern
    [retry in], digits, optionally a point and digits, any white space, [s],
    case ignored, and [num] is what its group captures: the literal in any
    case of its letters, a run of digits, with or without a fraction, then
    white space and [s] or [S].  (What follows the number is no digit, so the
    runs of digits are the longest ones and the capture is the only one
    possible at this place.) *)
Definition matches_retry_in (num rest : jsstring) : Prop :=
  exists kw ds frac ws c post,
    rest = kw ++ ds ++ frac ++ ws ++ c :: post
    /\ num = ds ++ frac
    /\ map ascii_upper kw = map ascii_upper (lit "retry in ")
    /\ ds <> [] /\ forallb is_digit ds = true
    /\ (frac = [] \/ exists fs, fs <> [] /\ forallb is_digit fs = true /\ frac = 46%N :: fs)
    /\ forallb is_space ws = true
    /\ ascii_upper c = 83%N.




(** [s] ends with [suffix]. *)
Definition ends_with (suffix s : jsstring) : Prop := exists pre, s = pre ++ suffix.

(** [s] starts with [prefix]. *)
Definition starts_with (prefix s : jsstring) : Prop := exists post, s = prefix ++ post.

End Observed.

(* ===================================================================== *)
(** * A reference runtime, to run the definitions on examples *)
(* ===================================================================== *)

Module Reference.

(** A number prints as it was written: right for the integer literals
    without sign, leading zero or exponent used in the examples. *)
Definition print_lexeme (x : jsstring) : jsstring := x.

Definition digits_value (ds : jsstring) : Z :=
  fold_left (fun acc d => (acc * 10 + (Z.of_N d - 48))%Z) ds 0%Z.

(** The delay of a capture in milliseconds, rounded up, in exact decimal
    arithmetic. *)
Definition exact_ceil_ms (cap : jsstring) : Z :=
  let ip := takeWhile is_digit cap in
  let fp := match dropWhile is_digit cap with
            | _ :: f => f
            | [] => []
            end in
  let scale := (10 ^ Z.of_nat (List.length fp))%Z in
  ((digits_value (ip ++ fp) * 1000 + scale - 1) / scale)%Z.

(** Lower-case mapping outside ASCII: the Kelvin sign and the dotted
    capital I are the code units with ASCII in their lower-case form; the
    others are kept as they are. *)
Definition unicode_lower (c : N) : jsstring :=
  if N.eqb c 8490 then [107%N]
  else if N.eqb c 304 then [105%N; 775%N]
  else [c].

Definition no_prompt (_ : State.RoundState) (_ _ : jsstring) (_ : Z) : jsstring := [].

Definition no_keys : AiJudge.Env :=
  {| AiJudge.ANTHROPIC_API_KEY := None; AiJudge.GEMINI_API_KEY := None;
     AiJudge.GOOGLE_API_KEY := None; AiJudge.ANTHROPIC_MODEL := None;
     AiJudge.GEMINI_MODEL := None |}.

Definition gemini_key : AiJudge.Env :=
  {| AiJudge.ANTHROPIC_API_KEY := None; AiJudge.GEMINI_API_KEY := Some (lit "k");
     AiJudge.GOOGLE_API_KEY := None; AiJudge.ANTHROPIC_MODEL := None;
     AiJudge.GEMINI_MODEL := None |}.

Definition no_options : AiJudge.Options :=
  {| AiJudge.apiKey := None; AiJudge.model := None |}.

(** A provider that is rate limited on every call. *)
Definition always_rate_limited (_ : nat) : AiJudge.Outcome :=
  AiJudge.Threw (lit "429 Too Many Requests. Please retry in 7.845474055s.").

End Reference.

(* ===================================================================== *)
(** * Facts about strings *)
(* ===================================================================== *)

Import State.

Lemma jseqb_eq (a b : jsstring) : jseqb a b = true <-> a = b.
Proof.
  revert b; induction a as [|x a IH]; intros [|y b]; simpl; split; intro H;
    try discriminate; try reflexivity.
  - apply andb_true_iff in H as [Hx Ha].
    apply N.eqb_eq in Hx. apply IH in Ha. congruence.
  - injection H as -> ->. rewrite N.eqb_refl. simpl. now apply IH.
Qed.

Lemma jseqb_refl (a : jsstring) : jseqb a a = true.
Proof. now apply jseqb_eq. Qed.

Lemma is_str_true (l : jsstring) (v : JsValue) : is_str l v = true <-> v = JStr l.
Proof.
  destruct v; simpl; split; intro H; try discriminate.
  - apply jseqb_eq in H. now subst.
  - injection H as ->. apply jseqb_refl.
Qed.

Lemma is_str_false (l : jsstring) (v : JsValue) : is_str l v = false <-> v <> JStr l.
Proof.
  split.
  - intros H E. apply is_str_true in E. congruence.
  - intro H. destruct (is_str l v) eqn:E; [|reflexivity].
    apply is_str_true in E. contradiction.
Qed.

Lemma dropWhile_app_stop (p : N -> bool) (x y : jsstring) (c : N) :
  p c = false -> dropWhile p (x ++ c :: y) = dropWhile p x ++ c :: y.
Proof.
  intro H. induction x as [|a x IH]; cbn [app dropWhile].
  - now rewrite H.
  - destruct (p a); [exact IH | reflexivity].
Qed.

Lemma dropWhile_all (p : N -> bool) (s : jsstring) :
  forallb p s = true -> dropWhile p s = [].
Proof.
  induction s as [|c s IH]; cbn [forallb dropWhile]; [reflexivity|].
  intro H. apply andb_true_iff in H as [-> H]. auto.
Qed.

(* ===================================================================== *)
(** * The budget of the JSON reader *)
(* ===================================================================== *)

Section JsonBudget.
Import Json.

Lemma dropWhile_length (p : N -> bool) (s : jsstring) :
  List.length (dropWhile p s) <= List.length s.
Proof.
  induction s as [|c s IH]; cbn [dropWhile List.length]; [lia|].
  destruct (p c); cbn [List.length]; lia.
Qed.

Lemma strip_prefix_length (p s r : jsstring) :
  strip_prefix p s = Some r -> List.length s = List.length p + List.length r.
Proof.
  revert s; induction p as [|x p IH]; intros [|y s] H; cbn [strip_prefix] in H;
    try discriminate; try (injection H as <-; reflexivity).
  destruct (N.eqb x y); [|discriminate].
  apply IH in H. cbn [List.length]. lia.
Qed.

Lemma parse_chars_shorter (n : nat) :
  forall s t r, List.length s <= n -> parse_chars s = Some (t, r) ->
                List.length r < List.length s.
Proof.
  induction n as [|n IH]; intros s t r Hn H.
  - destruct s; [discriminate H | cbn [List.length] in Hn; lia].
  - destruct s as [|c s]; [discriminate H|].
    cbn [parse_chars] in H. cbn [List.length] in *.
    destruct (N.eqb c 34).
    { injection H as _ <-. lia. }
    destruct (N.eqb c 92).
    + destruct s as [|e s1]; [discriminate|].
      destruct (N.eqb e 117).
      * destruct s1 as [|h1 [|h2 [|h3 [|h4 s2]]]]; try discriminate.
        destruct (hex4 h1 h2 h3 h4); [|discriminate].
        destruct (parse_chars s2) as [[t' r']|] eqn:E; [|discriminate].
        injection H as _ <-. apply IH in E; cbn [List.length] in *; lia.
      * destruct (unescape e); [|discriminate].
        destruct (parse_chars s1) as [[t' r']|] eqn:E; [|discriminate].
        injection H as _ <-. apply IH in E; cbn [List.length] in *; lia.
    + destruct (N.ltb c 32); [discriminate|].
      destruct (parse_chars s) as [[t' r']|] eqn:E; [|discriminate].
      injection H as _ <-. apply IH in E; lia.
Qed.

Lemma parse_chars_rest (s t r : jsstring) :
  parse_chars s = Some (t, r) -> List.length r < List.length s.
Proof. intro H. exact (@parse_chars_shorter (List.length s) s t r (le_n _) H). Qed.

Lemma digits1_length (s ds r : jsstring) :
  digits1 s = Some (ds, r) -> List.length r <= List.length s.
Proof.
  unfold digits1. destruct (takeWhile is_digit s); [discriminate|].
  intro H. injection H as _ <-. apply dropWhile_length.
Qed.

Lemma parse_number_shorter (s lx r : jsstring) :
  parse_number s = Some (lx, r) -> List.length r < List.length s.
Proof.
  unfold parse_number.
  assert (Hsign : List.length (snd (minus_sign s)) <= List.length s).
  { unfold minus_sign. destruct s as [|c s]; [cbn; lia|].
    destruct (N.eqb c 45); cbn [snd List.length]; lia. }
  destruct (int_part (snd (minus_sign s))) as [[ip s1]|] eqn:Ei; [|discriminate].
  assert (Hint : List.length s1 < List.length (snd (minus_sign s))).
  { unfold int_part in Ei. destruct (snd (minus_sign s)) as [|d r0]; [discriminate|].
    cbn [List.length].
    destruct (N.eqb d 48); [injection Ei as _ <-; lia|].
    destruct (is_digit d); [|discriminate].
    injection Ei as _ <-. pose proof (dropWhile_length is_digit r0). lia. }
  destruct (frac_part s1) as [[fp s2]|] eqn:Ef; [|discriminate].
  assert (Hfrac : List.length s2 <= List.length s1).
  { unfold frac_part in Ef. destruct s1 as [|c r1]; [injection Ef as _ <-; lia|].
    destruct (N.eqb c 46); [|injection Ef as _ <-; lia].
    destruct (digits1 r1) as [[ds s']|] eqn:Ed; [|discriminate].
    injection Ef as _ <-. apply digits1_length in Ed. cbn [List.length]. lia. }
  destruct (exp_part s2) as [[ep s3]|] eqn:Ee; [|discriminate].
  assert (Hexp : List.length s3 <= List.length s2).
  { unfold exp_part in Ee. destruct s2 as [|c r2]; [injection Ee as _ <-; lia|].
    destruct (N.eqb c 101 || N.eqb c 69); [|injection Ee as _ <-; lia].
    destruct (digits1 (snd (exp_sign r2))) as [[ds s']|] eqn:Ed; [|discriminate].
    injection Ee as _ <-. apply digits1_length in Ed.
    assert (List.length (snd (exp_sign r2)) <= List.length r2).
    { unfold exp_sign. destruct r2 as [|g r3]; [cbn; lia|].
      destruct (N.eqb g 43 || N.eqb g 45); cbn [snd List.length]; lia. }
    cbn [List.length]. lia. }
  intro H. injection H as _ <-. lia.
Qed.

Lemma skip_ws_length (s : jsstring) : List.length (skip_ws s) <= List.length s.
Proof. apply dropWhile_length. Qed.

(** Whatever a parsing function reads, it reads at least one character. *)
Lemma parse_shorter (fuel : nat) :
  (forall s v r, parse_value fuel s = Parsed v r -> List.length r < List.length s)
  /\ (forall acc s v r, parse_elements fuel acc s = Parsed v r ->
                        List.length r < List.length s)
  /\ (forall acc s v r, parse_members fuel acc s = Parsed v r ->
                        List.length r < List.length s).
Proof.
  induction fuel as [|fuel (IHv & IHe & IHm)].
  - repeat split; intros; discriminate.
  - split; [|split].
    + intros s v r H. cbn [parse_value] in H.
      destruct s as [|c s']; [discriminate|]. cbn [List.length].
      destruct (N.eqb c 123).
      { pose proof (skip_ws_length s').
        destruct (skip_ws s') as [|d r1]; [discriminate|]. cbn [List.length] in *.
        destruct (N.eqb d 125); [injection H as _ <-; lia|].
        apply IHm in H. cbn [List.length] in H. lia. }
      destruct (N.eqb c 91).
      { pose proof (skip_ws_length s').
        destruct (skip_ws s') as [|d r1]; [discriminate|]. cbn [List.length] in *.
        destruct (N.eqb d 93); [injection H as _ <-; lia|].
        apply IHe in H. cbn [List.length] in H. lia. }
      destruct (N.eqb c 34).
      { destruct (parse_chars s') as [[t rest]|] eqn:E; [|discriminate].
        injection H as _ <-. apply parse_chars_rest in E. lia. }
      destruct (strip_prefix (lit "true") (c :: s')) eqn:E1.
      { injection H as _ <-. apply strip_prefix_length in E1.
        cbn [List.length lit] in E1. cbn in E1. lia. }
      destruct (strip_prefix (lit "false") (c :: s')) eqn:E2.
      { injection H as _ <-. apply strip_prefix_length in E2. cbn in E2. lia. }
      destruct (strip_prefix (lit "null") (c :: s')) eqn:E3.
      { injection H as _ <-. apply strip_prefix_length in E3. cbn in E3. lia. }
      destruct (parse_number (c :: s')) as [[lx rest]|] eqn:E4; [|discriminate].
      injection H as _ <-. apply parse_number_shorter in E4. cbn [List.length] in E4. lia.
    + intros acc s v r H. cbn [parse_elements] in H.
      destruct (parse_value fuel s) as [v0 r0| |] eqn:E; try discriminate.
      apply IHv in E. pose proof (skip_ws_length r0).
      destruct (skip_ws r0) as [|d r1]; [discriminate|]. cbn [List.length] in *.
      destruct (N.eqb d 44).
      { apply IHe in H. pose proof (skip_ws_length r1). lia. }
      destruct (N.eqb d 93); [|discriminate].
      injection H as _ <-. lia.
    + intros acc s v r H. cbn [parse_members] in H.
      destruct s as [|q s']; [discriminate|]. cbn [List.length].
      destruct (N.eqb q 34); [|discriminate].
      destruct (parse_chars s') as [[k r1]|] eqn:E; [|discriminate].
      apply parse_chars_rest in E.
      pose proof (skip_ws_length r1).
      destruct (skip_ws r1) as [|col r2]; [discriminate|]. cbn [List.length] in *.
      destruct (N.eqb col 58); [|discriminate].
      destruct (parse_value fuel (skip_ws r2)) as [v0 r3| |] eqn:Ev; try discriminate.
      apply IHv in Ev. pose proof (skip_ws_length r2). pose proof (skip_ws_length r3).
      destruct (skip_ws r3) as [|d r4]; [discriminate|]. cbn [List.length] in *.
      destruct (N.eqb d 44).
      { apply IHm in H. pose proof (skip_ws_length r4). lia. }
      destruct (N.eqb d 125); [|discriminate].
      injection H as _ <-. lia.
Qed.

(** With a budget above twice the length of the input the parser never
    runs out of it. *)
Lemma parse_budget (fuel : nat) :
  (forall s, 2 * List.length s < fuel -> parse_value fuel s <> OutOfFuel)
  /\ (forall acc s, 2 * List.length s + 1 < fuel -> parse_elements fuel acc s <> OutOfFuel)
  /\ (forall acc s, 2 * List.length s + 1 < fuel -> parse_members fuel acc s <> OutOfFuel).
Proof.
  induction fuel as [|fuel (IHv & IHe & IHm)].
  - repeat split; intros; lia.
  - split; [|split].
    + intros s Hs. cbn [parse_value].
      destruct s as [|c s']; [discriminate|]. cbn [List.length] in Hs.
      pose proof (skip_ws_length s').
      destruct (N.eqb c 123).
      { destruct (skip_ws s') as [|d r1]; [discriminate|]. cbn [List.length] in *.
        destruct (N.eqb d 125); [discriminate|].
        apply IHm. cbn [List.length]. lia. }
      destruct (N.eqb c 91).
      { destruct (skip_ws s') as [|d r1]; [discriminate|]. cbn [List.length] in *.
        destruct (N.eqb d 93); [discriminate|].
        apply IHe. cbn [List.length]. lia. }
      destruct (N.eqb c 34).
      { destruct (parse_chars s') as [[t rest]|]; discriminate. }
      destruct (strip_prefix (lit "true") (c :: s')); [discriminate|].
      destruct (strip_prefix (lit "false") (c :: s')); [discriminate|].
      destruct (strip_prefix (lit "null") (c :: s')); [discriminate|].
      destruct (parse_number (c :: s')) as [[lx rest]|]; discriminate.
    + intros acc s Hs. cbn [parse_elements].
      destruct (parse_value fuel s) as [v0 r0| |] eqn:E; try discriminate.
      * apply (proj1 (parse_shorter fuel)) in E. pose proof (skip_ws_length r0).
        destruct (skip_ws r0) as [|d r1]; [discriminate|]. cbn [List.length] in *.
        destruct (N.eqb d 44).
        { apply IHe. pose proof (skip_ws_length r1). lia. }
        destruct (N.eqb d 93); discriminate.
      * exfalso. revert E. apply IHv. lia.
    + intros acc s Hs. cbn [parse_members].
      destruct s as [|q s']; [discriminate|]. cbn [List.length] in Hs.
      destruct (N.eqb q 34); [|discriminate].
      destruct (parse_chars s') as [[k r1]|] eqn:E; [|discriminate].
      apply parse_chars_rest in E.
      pose proof (skip_ws_length r1).
      destruct (skip_ws r1) as [|col r2]; [discriminate|]. cbn [List.length] in *.
      destruct (N.eqb col 58); [|discriminate].
      pose proof (skip_ws_length r2).
      destruct (parse_value fuel (skip_ws r2)) as [v0 r3| |] eqn:Ev; try discriminate.
      * apply (proj1 (parse_shorter fuel)) in Ev. pose proof (skip_ws_length r3).
        destruct (skip_ws r3) as [|d r4]; [discriminate|]. cbn [List.length] in *.
        destruct (N.eqb d 44).
        { apply IHm. pose proof (skip_ws_length r4). lia. }
        destruct (N.eqb d 125); discriminate.
      * exfalso. revert Ev. apply IHv. lia.
Qed.

(** [JSON_parse] answers [None] only for a syntax error. *)
Lemma JSON_parse_budget (text : jsstring) :
  parse_value (S (2 * List.length text)) (skip_ws text) <> OutOfFuel.
Proof.
  apply parse_budget. pose proof (skip_ws_length text). lia.
Qed.

End JsonBudget.

(* ===================================================================== *)
(** * The round state tracker *)
(* ===================================================================== *)

(** The three updates of [applyRoundResult], field by field. *)
Lemma applyRoundResult_fields (s : RoundState) (r : JudgeResult) :
  applyRoundResult s r =
  {| round := round s + 1;
     userScore := if is_str (lit "user") (round_winner r) then (userScore s + 1)%Z else userScore s;
     botScore := if is_str (lit "bot") (round_winner r) then (botScore s + 1)%Z else botScore s;
     bombUsed := if is_str (lit "bomb") (move (intent r)) then true else bombUsed s |}.
Proof.
  unfold applyRoundResult.
  destruct (is_str (lit "user") (round_winner r)),
           (is_str (lit "bot") (round_winner r)),
           (is_str (lit "bomb") (move (intent r))); reflexivity.
Qed.

(** C1.  For a state whose counters are safe integers (every state of a
    game is one), [applyRoundResult] adds one to the round; it adds one to
    the user's score exactly when the round winner is ["user"] and one to the
    bot's score exactly when it is ["bot"]; a null winner leaves both scores
    as they were.  (A score that is not changed needs no bound; a counter
    that is raised is bounded because the code adds on double-precision
    numbers.) *)
Theorem applyRoundResult_round_and_scores :
  forall (s : RoundState) (r : JudgeResult),
    (safe_integer (round s) -> round (applyRoundResult s r) = (round s + 1)%Z)
    /\ (safe_integer (userScore s) -> round_winner r = JStr (lit "user") ->
        userScore (applyRoundResult s r) = (userScore s + 1)%Z)
    /\ (round_winner r <> JStr (lit "user") ->
        userScore (applyRoundResult s r) = userScore s)
    /\ (safe_integer (botScore s) -> round_winner r = JStr (lit "bot") ->
        botScore (applyRoundResult s r) = (botScore s + 1)%Z)
    /\ (round_winner r <> JStr (lit "bot") ->
        botScore (applyRoundResult s r) = botScore s)
    /\ (round_winner r = JNull ->
        userScore (applyRoundResult s r) = userScore s
        /\ botScore (applyRoundResult s r) = botScore s).
Proof.
  intros s r. rewrite applyRoundResult_fields. simpl.
  split; [reflexivity|].
  split; [intros _ H; apply is_str_true in H; now rewrite H|].
  split; [intro H; apply is_str_false in H; now rewrite H|].
  split; [intros _ H; apply is_str_true in H; now rewrite H|].
  split; [intro H; apply is_str_false in H; now rewrite H|].
  intro H. now rewrite H.
Qed.

Lemma applyRoundResult_round_and_scores_witness :
  round (applyRoundResult createState
           {| intent := {| status := JStr (lit "VALID"); move := JStr (lit "rock");
                           reason := JStr [] |};
              round_winner := JStr (lit "user"); response := JStr []; raw := JUndefined |})
  = 2%Z
  /\ userScore (applyRoundResult createState
                  {| intent := {| status := JStr (lit "VALID"); move := JStr (lit "rock");
                                  reason := JStr [] |};
                     round_winner := JStr (lit "user"); response := JStr [];
                     raw := JUndefined |})
     = 1%Z.
Proof.
  destruct (applyRoundResult_round_and_scores createState
              {| intent := {| status := JStr (lit "VALID"); move := JStr (lit "rock");
                              reason := JStr [] |};
                 round_winner := JStr (lit "user"); response := JStr [];
                 raw := JUndefined |}) as (Hround & Huser & _).
  split.
  - apply Hround. unfold safe_integer. cbn [round createState]. lia.
  - apply Huser; [unfold safe_integer; cbn [userScore createState]; lia|reflexivity].
Defined.

Lemma bombUsed_step (s : RoundState) (r : JudgeResult) :
  bombUsed (applyRoundResult s r) = is_str (lit "bomb") (move (intent r)) || bombUsed s.
Proof.
  rewrite applyRoundResult_fields. simpl.
  now destruct (is_str (lit "bomb") (move (intent r))).
Qed.

Lemma bombUsed_stays (rs : list JudgeResult) :
  forall s, bombUsed s = true -> bombUsed (fold_left applyRoundResult rs s) = true.
Proof.
  induction rs as [|r rs IH]; intros s H; simpl; [exact H|].
  apply IH. rewrite bombUsed_step, H. apply orb_true_r.
Qed.

(** C2.  After [applyRoundResult] the bomb flag is set exactly when the
    judged move is ["bomb"] or the flag was set before; once set it stays
    set through any further results; a second bomb result changes nothing. *)
Theorem bombUsed_monotone :
  (forall (s : RoundState) (r : JudgeResult),
      bombUsed (applyRoundResult s r) = true
      <-> (move (intent r) = JStr (lit "bomb") \/ bombUsed s = true))
  /\ (forall (s : RoundState) (r : JudgeResult),
         bombUsed s = false ->
         (bombUsed (applyRoundResult s r) = true <-> move (intent r) = JStr (lit "bomb")))
  /\ (forall (s : RoundState) (rs : list JudgeResult),
         bombUsed s = true -> bombUsed (fold_left applyRoundResult rs s) = true)
  /\ (forall (s : RoundState) (r1 r2 : JudgeResult),
         move (intent r1) = JStr (lit "bomb") ->
         move (intent r2) = JStr (lit "bomb") ->
         bombUsed (applyRoundResult (applyRoundResult s r1) r2)
         = bombUsed (applyRoundResult s r1)).
Proof.
  split; [|split; [|split]].
  - intros s r. rewrite bombUsed_step, orb_true_iff, is_str_true. reflexivity.
  - intros s r H. rewrite bombUsed_step, H, orb_false_r. apply is_str_true.
  - intros s rs H. now apply bombUsed_stays.
  - intros s r1 r2 H1 H2. rewrite !bombUsed_step.
    apply is_str_true in H1, H2. now rewrite H1, H2.
Qed.

(** The scenarios of the specification. *)
Example scenario_three_rounds :
  let win w := {| intent := {| status := JStr (lit "VALID"); move := JStr (lit "rock");
                               reason := JStr [] |};
                  round_winner := JStr w; response := JStr []; raw := JUndefined |} in
  let final := fold_left applyRoundResult [win (lit "user"); win (lit "bot"); win (lit "draw")] createState in
  userScore final = 1%Z /\ botScore final = 1%Z /\ isGameOver final = true
  /\ getFinalResult final = lit "Draw".
Proof. vm_compute. repeat split. Qed.

(* ===================================================================== *)
(** * The result parser *)
(* ===================================================================== *)

Import AiJudge Contract.

Lemma Some_eq {A : Type} (a b : A) : Some a = Some b -> a = b.
Proof. congruence. Qed.

Lemma includes_In (allowed : list jsstring) (v : JsValue) :
  includes allowed v = true -> In v (map JStr allowed).
Proof.
  unfold includes. intro H. apply existsb_exists in H as [l [Hl Hv]].
  apply is_str_true in Hv. subst v. now apply in_map.
Qed.

Lemma In_includes (allowed : list jsstring) (v : JsValue) :
  In v (map JStr allowed) -> includes allowed v = true.
Proof.
  intro H. apply in_map_iff in H as [l [<- Hl]].
  unfold includes. apply existsb_exists. exists l. split; [exact Hl|].
  now apply is_str_true.
Qed.

Section ParserFacts.

Variable Number_toString : jsstring -> jsstring.

Abbreviation parseStructuredOutput := (parseStructuredOutput Number_toString).
Abbreviation try_parse := (try_parse Number_toString).

Lemma parse_intent_fields (i : JsValue) (it : Intent) :
  parse_intent Number_toString i = Some it ->
  In (status it) (map JStr statuses)
  /\ (move it = JNull \/ In (move it) (map JStr moves))
  /\ (exists s, reason it = JStr s).
Proof.
  unfold parse_intent. destruct (is_object i).
  - destruct (Get i (lit "status")) as [st|]; [|discriminate].
    destruct (Get i (lit "move")) as [mv|]; [|discriminate].
    destruct (Get i (lit "reason")) as [rs|]; [|discriminate].
    destruct (ToString Number_toString (nullish rs (JStr []))) as [txt|];
      [|discriminate].
    intro H. apply Some_eq in H. subst it. cbn [status move reason]. split; [|split].
    + destruct (includes statuses st) eqn:E.
      * apply includes_In, E.
      * right. right. now left.
    + destruct (includes moves mv) eqn:E.
      * right. apply includes_In, E.
      * now left.
    + now exists txt.
  - intro H. injection H as <-. simpl. split; [|split].
    + right. right. now left.
    + now left.
    + now eexists.
Qed.

Lemma parse_winner_domain (w : JsValue) :
  parse_winner w = JNull \/ In (parse_winner w) (map JStr winners).
Proof.
  unfold parse_winner.
  destruct (includes winners w) eqn:E.
  - right. apply includes_In, E.
  - now left.
Qed.

Lemma parse_response_string (resp rp : JsValue) :
  parse_response Number_toString resp = Some rp -> exists s, rp = JStr s.
Proof.
  unfold parse_response. intro H.
  destruct resp;
    try (destruct (ToString Number_toString _) in H; [|discriminate]);
    injection H as <-; now eexists.
Qed.

(** Whatever the [try] block returns has every field populated and
    validated. *)
Lemma try_parse_well_formed (jsonStr : jsstring) (r : JudgeResult) :
  try_parse jsonStr = Some r -> well_formed r.
Proof.
  unfold AiJudge.try_parse.
  destruct (Json.JSON_parse jsonStr) as [obj|]; [|discriminate].
  destruct (Get obj (lit "intent")) as [i|]; [|discriminate].
  destruct (parse_intent Number_toString i) as [it|] eqn:Ei; [|discriminate].
  destruct (Get obj (lit "round_winner")) as [w|]; [|discriminate].
  destruct (Get obj (lit "response")) as [resp|]; [|discriminate].
  destruct (parse_response Number_toString resp) as [rp|] eqn:Er; [|discriminate].
  intro H. injection H as <-.
  apply parse_intent_fields in Ei as (Hs & Hm & Hr).
  apply parse_response_string in Er.
  unfold well_formed. simpl. pose proof (parse_winner_domain w). auto.
Qed.

Lemma not_json_well_formed (text : jsstring) : well_formed (not_json text).
Proof.
  unfold well_formed, not_json. simpl. repeat split.
  - right. right. now left.
  - now left.
  - now left.
  - now eexists.
  - now eexists.
Qed.

(** C3.  The result parser returns, for every input string, a result with
    all fields populated: the status is one of VALID, INVALID, UNCLEAR, the
    move is one of the four moves or null, the winner is one of user, bot,
    draw or null, and reason and response are strings. *)
Theorem parseStructuredOutput_total :
  forall text : jsstring, well_formed (parseStructuredOutput text).
Proof.
  intro text. unfold AiJudge.parseStructuredOutput.
  destruct (try_parse (json_text text)) as [r|] eqn:E.
  - now apply try_parse_well_formed with (jsonStr := json_text text).
  - apply not_json_well_formed.
Qed.

(** C5.  When the text handed to [JSON.parse] (the trimmed input, without
    its code fence if it has one) is not JSON, the result is the fixed
    fallback with the first 500 characters of the raw text as response. *)
Theorem parseStructuredOutput_not_json :
  forall text : jsstring,
    Json.JSON_parse (json_text text) = None ->
    parseStructuredOutput text =
    {| intent := {| status := JStr (lit "UNCLEAR"); move := JNull;
                    reason := JStr (lit "Response was not valid JSON.") |};
       round_winner := JNull;
       response := JStr (firstn 500 text);
       raw := JUndefined |}.
Proof.
  intros text H. unfold AiJudge.parseStructuredOutput, AiJudge.try_parse.
  rewrite H. reflexivity.
Qed.

End ParserFacts.

(** The inputs named by the specification. *)
Example parse_empty :
  parseStructuredOutput Reference.print_lexeme [] = not_json [].
Proof. reflexivity. Qed.

Example parse_scenario_valid :
  parseStructuredOutput Reference.print_lexeme
    (jlit "{'intent':{'status':'VALID','move':'rock','reason':'clear'},'round_winner':'user','response':'...'}")
  = {| intent := {| status := JStr (lit "VALID"); move := JStr (lit "rock");
                    reason := JStr (lit "clear") |};
       round_winner := JStr (lit "user"); response := JStr (lit "..."); raw := JUndefined |}.
Proof. vm_compute. reflexivity. Qed.

Example parse_scenario_then_apply :
  applyRoundResult createState
    (parseStructuredOutput Reference.print_lexeme
       (jlit "{'intent':{'status':'VALID','move':'rock','reason':'clear'},'round_winner':'user','response':'...'}"))
  = {| round := 2; userScore := 1; botScore := 0; bombUsed := false |}.
Proof. vm_compute. reflexivity. Qed.

Example parse_missing_fields :
  parseStructuredOutput Reference.print_lexeme (jlit "{'response': 7}")
  = {| intent := {| status := JStr (lit "UNCLEAR"); move := JNull;
                    reason := JStr (lit "Missing intent.") |};
       round_winner := JNull; response := JStr (lit "7"); raw := JUndefined |}.
Proof. vm_compute. reflexivity. Qed.

Example parse_out_of_domain :
  parseStructuredOutput Reference.print_lexeme
    (jlit "{'intent':{'status':'MAYBE','move':'lizard'},'round_winner':'nobody','response':null}")
  = {| intent := {| status := JStr (lit "UNCLEAR"); move := JNull; reason := JStr [] |};
       round_winner := JNull; response := JStr []; raw := JUndefined |}.
Proof. vm_compute. reflexivity. Qed.

Example parse_fenced :
  parseStructuredOutput Reference.print_lexeme
    (lit "```json" ++ [10%N]
     ++ jlit "{'intent':{'status':'UNCLEAR','move':null,'reason':'?'},'round_winner':null,'response':'Again?'}"
     ++ [10%N] ++ lit "```" ++ [10%N])
  = {| intent := {| status := JStr (lit "UNCLEAR"); move := JNull; reason := JStr (lit "?") |};
       round_winner := JNull; response := JStr (lit "Again?"); raw := JUndefined |}.
Proof. vm_compute. reflexivity. Qed.

Example parse_null_is_caught :
  parseStructuredOutput Reference.print_lexeme (lit "null") = not_json (lit "null").
Proof. vm_compute. reflexivity. Qed.

Lemma parseStructuredOutput_not_json_witness :
  parseStructuredOutput Reference.print_lexeme (lit "not json at all") =
  {| intent := {| status := JStr (lit "UNCLEAR"); move := JNull;
                  reason := JStr (lit "Response was not valid JSON.") |};
     round_winner := JNull;
     response := JStr (lit "not json at all");
     raw := JUndefined |}.
Proof.
  apply (parseStructuredOutput_not_json Reference.print_lexeme (lit "not json at all")).
  vm_compute. reflexivity.
Defined.

(* ===================================================================== *)
(** * Reading an error message *)
(* ===================================================================== *)

Import Observed.

Lemma strip_prefix_ci_spec (p s r : jsstring) :
  strip_prefix_ci p s = Some r
  <-> exists mid, s = mid ++ r /\ map ascii_upper mid = map ascii_upper p.
Proof.
  revert s. induction p as [|x p IH]; intro s.
  - cbn [strip_prefix_ci]. split.
    + intro H. injection H as <-. now exists [].
    + intros [mid [-> H]]. destruct mid; [reflexivity|discriminate].
  - destruct s as [|y s]; cbn [strip_prefix_ci].
    + split; [discriminate|].
      intros [mid [E H]]. destruct mid; [discriminate H|discriminate E].
    + destruct (N.eqb_spec (ascii_upper x) (ascii_upper y)) as [E|E].
      * rewrite IH. split.
        -- intros [mid [-> H]]. exists (y :: mid). cbn [map app]. now rewrite H, E.
        -- intros [mid [Hs H]]. destruct mid as [|y' mid]; [discriminate H|].
           cbn [map app] in Hs, H. injection Hs as <- ->. injection H as _ H.
           now exists mid.
      * split; [discriminate|].
        intros [mid [Hs H]]. destruct mid as [|y' mid]; [discriminate H|].
        cbn [map app] in Hs, H. injection Hs as <- ->. injection H as H _. congruence.
Qed.

Lemma includes_ci_spec (p s : jsstring) :
  includes_ci p s = true <-> occurs_ci p s.
Proof.
  unfold occurs_ci. induction s as [|c s IH]; cbn [includes_ci].
  - destruct (strip_prefix_ci p []) as [r|] eqn:E.
    + apply strip_prefix_ci_spec in E as [mid [Hs H]].
      split; [intros _|reflexivity]. exists [], mid, r. now split.
    + split; [discriminate|].
      intros (pre & mid & post & Hs & H).
      destruct pre; [|discriminate]. destruct mid; [|discriminate].
      assert (X : strip_prefix_ci p [] = Some post).
      { apply strip_prefix_ci_spec. exists []. now split. }
      congruence.
  - destruct (strip_prefix_ci p (c :: s)) as [r|] eqn:E.
    + apply strip_prefix_ci_spec in E as [mid [Hs H]].
      split; [intros _|reflexivity]. exists [], mid, r. now split.
    + rewrite IH. split.
      * intros (pre & mid & post & -> & H). exists (c :: pre), mid, post. now split.
      * intros (pre & mid & post & Hs & H).
        destruct pre as [|c' pre].
        -- assert (X : strip_prefix_ci p (c :: s) = Some post).
           { apply strip_prefix_ci_spec. exists mid. now split. }
           congruence.
        -- cbn [app] in Hs. injection Hs as <- ->. now exists pre, mid, post.
Qed.

Lemma test_any_ci_spec (alts : list jsstring) (s : jsstring) :
  test_any_ci alts s = true <-> exists p, In p alts /\ occurs_ci p s.
Proof.
  unfold test_any_ci. rewrite existsb_exists.
  split; intros [p [Hp H]]; exists p; (split; [exact Hp|]); now apply includes_ci_spec.
Qed.

Lemma retry_in_occurs (s cap : jsstring) :
  retry_in s = Some cap -> includes_ci (lit "retry in ") s = true.
Proof.
  induction s as [|c s IH]; cbn [retry_in includes_ci].
  - unfold retry_in_here.
    destruct (strip_prefix_ci (lit "retry in ") []); [reflexivity|discriminate].
  - unfold retry_in_here at 1.
    destruct (strip_prefix_ci (lit "retry in ") (c :: s)); [reflexivity|].
    exact IH.
Qed.

Lemma strip_prefix_ci_mismatch (p u v : jsstring) :
  strip_prefix_ci p u = None -> List.length p <= List.length u ->
  strip_prefix_ci p (u ++ v) = None.
Proof.
  revert u. induction p as [|x p IH]; intros u H L; [discriminate H|].
  destruct u as [|y u]; [cbn in L; lia|].
  cbn [app strip_prefix_ci] in *.
  destruct (N.eqb (ascii_upper x) (ascii_upper y)); [|reflexivity].
  apply IH; [exact H|cbn in L; lia].
Qed.

Lemma takeWhile_run (p : N -> bool) (x y : jsstring) :
  forallb p x = true ->
  match y with [] => True | c :: _ => p c = false end ->
  takeWhile p (x ++ y) = x /\ dropWhile p (x ++ y) = y.
Proof.
  intros Hx Hy. induction x as [|a x IH].
  - destruct y as [|c y]; [now split|]. cbn [app takeWhile dropWhile]. now rewrite Hy.
  - cbn [forallb] in Hx. apply andb_true_iff in Hx as [Ha Hx].
    cbn [app takeWhile dropWhile]. rewrite Ha.
    destruct (IH Hx) as [-> ->]. now split.
Qed.

Lemma letter_s (c : N) :
  ascii_upper c = 83%N -> is_digit c = false /\ is_space c = false /\ N.eqb c 46 = false.
Proof.
  unfold ascii_upper, between. intro H.
  assert (c = 83%N \/ c = 115%N) as [-> | ->]; [|now repeat split..].
  destruct (N.leb 97 c && N.leb c 122) eqn:E; [right|now left].
  apply andb_true_iff in E as [E1 E2]. apply N.leb_le in E1, E2. lia.
Qed.

Lemma space_no_digit (c : N) :
  is_space c = true -> is_digit c = false /\ N.eqb c 46 = false.
Proof.
  intro H. split.
  - destruct (is_digit c) eqn:D; [|reflexivity].
    unfold is_digit, between in D. apply andb_true_iff in D as [D1 D2].
    apply N.leb_le in D1, D2.
    assert (In c (map N.of_nat (seq 48 10))).
    { apply in_map_iff. exists (N.to_nat c). split; [apply N2Nat.id|]. apply in_seq. lia. }
    cbn in H0. repeat (destruct H0 as [<-|H0]; [discriminate H|]). destruct H0.
  - destruct (N.eqb_spec c 46) as [->|]; [discriminate H|reflexivity].
Qed.

(** What follows the number: any white space, then [s] or [S]. *)
Lemma unit_follows (ws : jsstring) (c : N) (post : jsstring) :
  forallb is_space ws = true -> ascii_upper c = 83%N ->
  dropWhile is_space (ws ++ c :: post) = c :: post
  /\ match ws ++ c :: post with
     | [] => True
     | d :: _ => is_digit d = false /\ N.eqb d 46 = false
     end.
Proof.
  intros Hws Hc. destruct (@letter_s c Hc) as (Cd & Cs & Cp). split.
  - rewrite dropWhile_app_stop by exact Cs. now rewrite (@dropWhile_all is_space ws Hws).
  - destruct ws as [|w ws]; cbn [app]; [now split|].
    cbn [forallb] in Hws. apply andb_true_iff in Hws as [Hw _].
    now apply space_no_digit.
Qed.

Lemma takeWhile_dropWhile (p : N -> bool) (s : jsstring) :
  s = takeWhile p s ++ dropWhile p s /\ forallb p (takeWhile p s) = true.
Proof.
  induction s as [|a s [IH1 IH2]]; [now split|].
  cbn [takeWhile dropWhile]. destruct (p a) eqn:E; [|now split].
  cbn [app forallb]. rewrite E, IH2. split; [now rewrite <- IH1|reflexivity].
Qed.

(** What follows a number that the pattern accepts. *)
Lemma unit_found (rest : jsstring) (c : N) (post : jsstring) :
  dropWhile is_space rest = c :: post ->
  exists ws, rest = ws ++ c :: post /\ forallb is_space ws = true.
Proof.
  intro H. destruct (takeWhile_dropWhile is_space rest) as [E F].
  exists (takeWhile is_space rest). rewrite H in E. now split.
Qed.

(** The pattern at the head of a text: the capture of the model is the
    capture of the match, and there is no other. *)
Lemma retry_in_here_spec (s num : jsstring) :
  retry_in_here s = Some num <-> matches_retry_in num s.
Proof.
  split.
  - unfold retry_in_here, matches_retry_in.
    destruct (strip_prefix_ci (lit "retry in ") s) as [r|] eqn:P; [|discriminate].
    apply strip_prefix_ci_spec in P as (kw & -> & Hkw).
    destruct (takeWhile_dropWhile is_digit r) as [Er Fd].
    destruct (takeWhile is_digit r) as [|d ds] eqn:Td; [discriminate|].
    destruct (dropWhile is_digit r) as [|c r2] eqn:Dd; [discriminate|].
    destruct (N.eqb_spec c 46) as [->|Hc].
    + destruct (takeWhile_dropWhile is_digit r2) as [Er2 Ff].
      destruct (takeWhile is_digit r2) as [|f fs] eqn:Tf; [discriminate|].
      destruct (dropWhile is_space (dropWhile is_digit r2)) as [|ch post] eqn:Ds;
        [discriminate|].
      destruct (N.eqb_spec (ascii_upper ch) 83) as [Hch|]; [|discriminate].
      intro H. injection H as <-.
      apply unit_found in Ds as (ws & Hrest & Hws).
      exists kw, (d :: ds), (46%N :: f :: fs), ws, ch, post.
      split; [|split; [reflexivity|split; [exact Hkw|split; [discriminate|split; [exact Fd|]]]]].
      * rewrite Er, Er2, Hrest. reflexivity.
      * split; [|now split]. right. exists (f :: fs).
        split; [discriminate|now split].
    + destruct (dropWhile is_space (c :: r2)) as [|ch post] eqn:Ds; [discriminate|].
      destruct (N.eqb_spec (ascii_upper ch) 83) as [Hch|]; [|discriminate].
      intro H. injection H as <-.
      apply unit_found in Ds as (ws & Hrest & Hws).
      exists kw, (d :: ds), [], ws, ch, post.
      split; [|split; [now rewrite app_nil_r|split; [exact Hkw|split; [discriminate|split; [exact Fd|]]]]].
      * rewrite Er, Hrest. reflexivity.
      * split; [now left|now split].
  - intros (kw & ds & frac & ws & c & post & -> & -> & Hkw & Hds & Hdigits & Hfrac & Hws & Hc).
    unfold retry_in_here.
    assert (Hp : strip_prefix_ci (lit "retry in ") (kw ++ ds ++ frac ++ ws ++ c :: post)
                 = Some (ds ++ frac ++ ws ++ c :: post))
      by (apply strip_prefix_ci_spec; now exists kw).
    rewrite Hp.
    destruct (@unit_follows ws c post Hws Hc) as [Hunit Hhead].
    destruct Hfrac as [-> | (fs & Hfs & Hfd & ->)].
    + cbn [app].
      destruct (@takeWhile_run is_digit ds (ws ++ c :: post) Hdigits) as [-> ->].
      { destruct (ws ++ c :: post); [exact I|apply Hhead]. }
      destruct ds as [|d ds']; [congruence|].
      destruct (ws ++ c :: post) as [|h t] eqn:E; [destruct ws; discriminate E|].
      destruct Hhead as [_ ->]. rewrite Hunit, Hc. now rewrite app_nil_r.
    + destruct (@takeWhile_run is_digit ds ((46%N :: fs) ++ ws ++ c :: post) Hdigits)
        as [-> ->]; [reflexivity|].
      destruct ds as [|d ds']; [congruence|].
      cbn [app]. change (N.eqb 46 46) with true. cbv iota.
      destruct (@takeWhile_run is_digit fs (ws ++ c :: post) Hfd) as [-> ->].
      { destruct (ws ++ c :: post); [exact I|apply Hhead]. }
      destruct fs as [|f fs']; [congruence|].
      rewrite Hunit, Hc. reflexivity.
Qed.



Section ReadFacts.

Variable ceil_ms : jsstring -> Z.


End ReadFacts.

(* ===================================================================== *)
(** * The judge client *)
(* ===================================================================== *)

Lemma getProvider_key (env : Env) (options : Options) (p : Provider) (key : jsstring) :
  getProvider env options = (Some p, Some key) -> truthy (Some key) = true.
Proof.
  unfold getProvider.
  destruct (truthy (or_else (apiKey options) (ANTHROPIC_API_KEY env))) eqn:E1.
  - intro H. injection H as _ H. now rewrite <- H.
  - destruct (truthy (or_else (GEMINI_API_KEY env) (GOOGLE_API_KEY env))) eqn:E2.
    + intro H. injection H as _ H. now rewrite <- H.
    + discriminate.
Qed.

Lemma getProvider_none (env : Env) (options : Options) :
  truthy (apiKey options) = false ->
  truthy (ANTHROPIC_API_KEY env) = false ->
  truthy (GEMINI_API_KEY env) = false ->
  truthy (GOOGLE_API_KEY env) = false ->
  getProvider env options = (None, None).
Proof.
  intros H1 H2 H3 H4. unfold getProvider, or_else.
  now rewrite H1, H2, H3, H4.
Qed.

Section ClientFacts.

Variable Number_toString : jsstring -> jsstring.
Variable ceil_ms : jsstring -> Z.
Variable sdk : nat -> Outcome.
Variable buildRoundPrompt : RoundState -> jsstring -> jsstring -> Z -> jsstring.
Variable env : Env.

Abbreviation judgeRound := (judgeRound Number_toString ceil_ms sdk buildRoundPrompt env).
Abbreviation attempts := (attempts Number_toString ceil_ms sdk).
Abbreviation parseRetryDelayMs := (parseRetryDelayMs ceil_ms).
Abbreviation shortError := (shortError ceil_ms).

(** One iteration of the loop. *)
Lemma attempts_step p pr k md rem att le w :
  attempts p pr k md (S rem) att le w =
  match sdk (calls_made w) with
  | Replied text =>
      match trim text with
      | [] => (inl no_content_result, w ++ [Call p pr k md])
      | _ :: _ =>
          (inl (with_raw (parseStructuredOutput Number_toString (trim text)) (trim text)),
           w ++ [Call p pr k md])
      end
  | Threw err =>
      if Nat.ltb att MAX_RETRIES && isQuotaError err then
        attempts p pr k md rem (att + 1) (Some err)
          (w ++ [Call p pr k md;
                 ConsoleError (retry_notice p (parseRetryDelayMs err) att);
                 Sleep (parseRetryDelayMs err)])
      else (inr (Some err), w ++ [Call p pr k md])
  end.
Proof.
  cbn [AiJudge.attempts]. unfold bind, callProvider.
  destruct (sdk (calls_made w)) as [text|err].
  - destruct (trim text); reflexivity.
  - destruct (Nat.ltb att MAX_RETRIES && isQuotaError err); [|reflexivity].
    unfold console_error, sleep. cbn beta iota. rewrite <- !app_assoc. reflexivity.
Qed.

(** C7.  Without any credential [judgeRound] returns the fixed INVALID
    result with null move and winner, and performs no action at all: the
    world is returned as it was, so no provider call is made. *)
Theorem judgeRound_no_credential :
  forall (state : RoundState) (userInput botMove : jsstring) (options : Options)
         (w : World),
    truthy (apiKey options) = false ->
    truthy (ANTHROPIC_API_KEY env) = false ->
    truthy (GEMINI_API_KEY env) = false ->
    truthy (GOOGLE_API_KEY env) = false ->
    judgeRound state userInput botMove options w =
    ({| intent := {| status := JStr (lit "INVALID"); move := JNull;
                     reason := JStr (lit "No API key. Set GEMINI_API_KEY or ANTHROPIC_API_KEY in .env.") |};
        round_winner := JNull;
        response := JStr (lit "Cannot run AI Judge: set either GEMINI_API_KEY or ANTHROPIC_API_KEY in .env.");
        raw := JNull |}, w).
Proof.
  intros state userInput botMove options w H1 H2 H3 H4.
  unfold AiJudge.judgeRound. rewrite (getProvider_none _ _ H1 H2 H3 H4).
  reflexivity.
Qed.

(** With a credential, the round is the loop followed by the error report. *)
Lemma judgeRound_with_provider state userInput botMove options p key :
  getProvider env options = (Some p, Some key) ->
  judgeRound state userInput botMove options [] =
    match attempts p (buildRoundPrompt state userInput botMove TOTAL_ROUNDS) key
            (chooseModel env p options) 3 0 None [] with
    | (inl result, w) => (result, w)
    | (inr lastErr, w) =>
        let short := shortError (match lastErr with Some m => m | None => [] end) p in
        (error_result short, w ++ [ConsoleError (lit "AI Judge error: " ++ short)])
    end.
Proof.
  intro Hp. unfold AiJudge.judgeRound. rewrite Hp, (getProvider_key _ _ Hp).
  cbn [negb]. unfold bind at 1.
  change (MAX_RETRIES + 1) with 3.
  destruct (attempts _ _ _ _ 3 0 None []) as [[result|lastErr] w]; reflexivity.
Qed.

(** One call of the provider: the reply is empty or not, the error is a
    rate limit or not. *)
Ltac split_call E Q :=
  rewrite attempts_step; cbn [calls_made filter is_call List.length app];
  match goal with
  | |- context [sdk ?n] => destruct (sdk n) as [?text|?msg] eqn:E
  end;
  [ match goal with
    | |- context [trim ?t] => destruct (trim t) eqn:?T
    end
  | match goal with
    | |- context [andb _ (isQuotaError ?m)] => destruct (isQuotaError m) eqn:Q
    end;
    cbn [Nat.ltb Nat.leb MAX_RETRIES Nat.add andb] ].

(** All the ways a round with a credential can go: ten runs, each with its
    result and its sequence of actions written out. *)
Ltac round_cases Hp Hrun :=
  rewrite (judgeRound_with_provider _ _ _ _ Hp) in Hrun; revert Hrun;
  split_call ident:(E0) ident:(Q0);
  [ | | split_call ident:(E1) ident:(Q1);
        [ | | split_call ident:(E2) ident:(Q2) | ] | ];
  cbv beta iota; intro Hrun; apply pair_equal_spec in Hrun; destruct Hrun as [<- <-].



(** The results of the paths of [judgeRound] that do not parse a reply. *)
Lemma error_results_invariant (r : JudgeResult) :
  r = no_key_result \/ r = no_content_result \/ (exists short, r = error_result short) ->
  status (intent r) <> JStr (lit "VALID")
  /\ round_winner r = JNull /\ move (intent r) = JNull.
Proof.
  intros [-> | [-> | [short ->]]]; repeat split; discriminate.
Qed.

(** Every round ends in one of four ways. *)
Lemma judgeRound_results state userInput botMove options r trace :
  judgeRound state userInput botMove options [] = (r, trace) ->
  (exists text, r = with_raw (parseStructuredOutput Number_toString text) text)
  \/ r = no_key_result \/ r = no_content_result
  \/ (exists short, r = error_result short).
Proof.
  intro Hrun.
  destruct (getProvider env options) as [[p|] [key|]] eqn:Hp;
    try (unfold AiJudge.judgeRound in Hrun; rewrite Hp in Hrun;
         apply pair_equal_spec in Hrun; destruct Hrun as [<- _]; now (right; left)).
  round_cases Hp Hrun; eauto 6.
Qed.

End ClientFacts.

Lemma judgeRound_no_credential_witness :
  AiJudge.judgeRound Reference.print_lexeme Reference.exact_ceil_ms
    Reference.always_rate_limited Reference.no_prompt Reference.no_keys
    createState (lit "rock") (lit "paper") Reference.no_options []
  = (no_key_result, []).
Proof.
  apply (@judgeRound_no_credential Reference.print_lexeme Reference.exact_ceil_ms
           Reference.always_rate_limited Reference.no_prompt Reference.no_keys
           createState (lit "rock") (lit "paper") Reference.no_options []);
    reflexivity.
Defined.


(** A provider that stays rate limited is called three times, with two
    sleeps of 7846 ms in between, and the round ends with the wait estimate
    of 8 seconds. *)
Example rate_limited_round :
  AiJudge.judgeRound Reference.print_lexeme Reference.exact_ceil_ms
    Reference.always_rate_limited Reference.no_prompt Reference.gemini_key
    createState (lit "rock") (lit "paper") Reference.no_options []
  = (error_result (lit "Rate limit exceeded. Wait ~8s and try again."),
     [Call gemini [] (lit "k") (lit "gemini-2.0-flash");
      ConsoleError (lit "AI Judge (gemini): rate limit. Retrying in 8s (attempt 1/3)" ++ [ellipsis]);
      Sleep 7846;
      Call gemini [] (lit "k") (lit "gemini-2.0-flash");
      ConsoleError (lit "AI Judge (gemini): rate limit. Retrying in 8s (attempt 2/3)" ++ [ellipsis]);
      Sleep 7846;
      Call gemini [] (lit "k") (lit "gemini-2.0-flash");
      ConsoleError (lit "AI Judge error: Rate limit exceeded. Wait ~8s and try again.")]).
Proof. vm_compute. reflexivity. Qed.

(* ===================================================================== *)
(** * The cross-field invariant *)
(* ===================================================================== *)

(** C4, as stated, fails: the parser checks every field against its own
    closed set only, so a reply that pairs INVALID with a move and a winner
    is returned as it is. *)
Lemma cross_field_invariant_counterexample :
  ~ cross_field_invariant
      (parseStructuredOutput Reference.print_lexeme
         (jlit "{'intent':{'status':'INVALID','move':'bomb','reason':'used'},'round_winner':'user','response':'x'}")).
Proof.
  unfold cross_field_invariant. intro H.
  assert (E : parseStructuredOutput Reference.print_lexeme
                (jlit "{'intent':{'status':'INVALID','move':'bomb','reason':'used'},'round_winner':'user','response':'x'}")
              = {| intent := {| status := JStr (lit "INVALID"); move := JStr (lit "bomb");
                                reason := JStr (lit "used") |};
                   round_winner := JStr (lit "user"); response := JStr (lit "x");
                   raw := JUndefined |}) by (vm_compute; reflexivity).
  rewrite E in H. simpl in H.
  destruct H as [H _]; [discriminate | discriminate].
Qed.

(** The state tracker applies such a result as it comes: the user scores
    and the bomb is marked as used, on a turn judged INVALID. *)
Example invalid_turn_scores :
  applyRoundResult createState
    (parseStructuredOutput Reference.print_lexeme
       (jlit "{'intent':{'status':'INVALID','move':'bomb','reason':'used'},'round_winner':'user','response':'x'}"))
  = {| round := 2; userScore := 1; botScore := 0; bombUsed := true |}.
Proof. vm_compute. reflexivity. Qed.

(** What the [try] block makes of a reply that parses: every field is
    validated on its own. *)
Lemma try_parse_fields (Number_toString : jsstring -> jsstring) (jsonStr : jsstring)
    (r : JudgeResult) :
  try_parse Number_toString jsonStr = Some r ->
  exists obj i w,
    Json.JSON_parse jsonStr = Some obj
    /\ Get obj (lit "intent") = Some i
    /\ Get obj (lit "round_winner") = Some w
    /\ round_winner r = (if includes winners w then w else JNull)
    /\ (is_object i = false ->
        status (intent r) = JStr (lit "UNCLEAR") /\ move (intent r) = JNull)
    /\ (is_object i = true ->
        exists st mv,
          Get i (lit "status") = Some st /\ Get i (lit "move") = Some mv
          /\ status (intent r) = (if includes statuses st then st else JStr (lit "UNCLEAR"))
          /\ move (intent r) = (if includes moves mv then mv else JNull)).
Proof.
  unfold try_parse.
  destruct (Json.JSON_parse jsonStr) as [obj|] eqn:Ej; [|discriminate].
  destruct (Get obj (lit "intent")) as [i|] eqn:Gi; [|discriminate].
  destruct (parse_intent Number_toString i) as [it|] eqn:Ei; [|discriminate].
  destruct (Get obj (lit "round_winner")) as [w|] eqn:Gw; [|discriminate].
  destruct (Get obj (lit "response")) as [resp|]; [|discriminate].
  destruct (parse_response Number_toString resp) as [rp|]; [|discriminate].
  intro H. apply Some_eq in H. subst r. cbn [intent round_winner].
  exists obj, i, w. split; [reflexivity|]. split; [exact Gi|]. split; [exact Gw|].
  split; [reflexivity|].
  unfold parse_intent in Ei. destruct (is_object i).
  - split; [discriminate|]. intros _.
    destruct (Get i (lit "status")) as [st|] eqn:Gs; [|discriminate].
    destruct (Get i (lit "move")) as [mv|] eqn:Gm; [|discriminate].
    destruct (Get i (lit "reason")) as [rs|]; [|discriminate].
    destruct (ToString Number_toString (nullish rs (JStr []))) as [txt|]; [|discriminate].
    apply Some_eq in Ei. subst it. cbn [status move].
    exists st, mv. repeat split.
  - split; [|discriminate]. intros _.
    apply Some_eq in Ei. subst it. split; reflexivity.
Qed.

(** C4, amended.  The fallback of the parser for text that is not JSON (or
    whose processing throws), and every path of [judgeRound] that returns
    without a parsed reply (those with [raw] null: no credential, empty
    reply, provider error), give a status other than VALID with a null
    winner and a null move.  For a reply that parses, every field is
    validated on its own: the winner is the reply's when it is one of user,
    bot and draw, and null otherwise, whatever the status; when the reply's
    intent is an object, the status is the reply's when it is one of VALID,
    INVALID and UNCLEAR, and UNCLEAR otherwise, and the move is the reply's
    when it is one of the four moves, and null otherwise; when the intent is
    no object, the status is UNCLEAR and the move null.  The invariant holds
    of such a result exactly when its status is VALID or its winner and its
    move are both null. *)
Theorem error_paths_cross_field_invariant :
  forall (Number_toString : jsstring -> jsstring) (ceil_ms : jsstring -> Z)
         (sdk : nat -> Outcome)
         (buildRoundPrompt : RoundState -> jsstring -> jsstring -> Z -> jsstring)
         (env : Env),
    (forall text : jsstring,
        try_parse Number_toString (json_text text) = None ->
        status (intent (parseStructuredOutput Number_toString text)) = JStr (lit "UNCLEAR")
        /\ round_winner (parseStructuredOutput Number_toString text) = JNull
        /\ move (intent (parseStructuredOutput Number_toString text)) = JNull)
    /\ (forall (state : RoundState) (userInput botMove : jsstring) (options : Options)
               (r : JudgeResult) (trace : World),
           AiJudge.judgeRound Number_toString ceil_ms sdk buildRoundPrompt env
             state userInput botMove options [] = (r, trace) ->
           raw r = JNull ->
           status (intent r) <> JStr (lit "VALID")
           /\ round_winner r = JNull /\ move (intent r) = JNull)
    /\ (forall (text : jsstring) (r : JudgeResult),
           try_parse Number_toString (json_text text) = Some r ->
           parseStructuredOutput Number_toString text = r
           /\ (exists obj i w,
                 Json.JSON_parse (json_text text) = Some obj
                 /\ Get obj (lit "intent") = Some i
                 /\ Get obj (lit "round_winner") = Some w
                 /\ round_winner r = (if includes winners w then w else JNull)
                 /\ (is_object i = false ->
                     status (intent r) = JStr (lit "UNCLEAR") /\ move (intent r) = JNull)
                 /\ (is_object i = true ->
                     exists st mv,
                       Get i (lit "status") = Some st /\ Get i (lit "move") = Some mv
                       /\ status (intent r)
                          = (if includes statuses st then st else JStr (lit "UNCLEAR"))
                       /\ move (intent r) = (if includes moves mv then mv else JNull)))
           /\ (cross_field_invariant r
               <-> status (intent r) = JStr (lit "VALID")
                   \/ (round_winner r = JNull /\ move (intent r) = JNull))).
Proof.
  intros Number_toString ceil_ms sdk buildRoundPrompt env. split; [|split].
  - intros text H. unfold parseStructuredOutput. rewrite H. repeat split.
  - intros state userInput botMove options r trace Hrun Hraw.
    apply error_results_invariant.
    destruct (judgeRound_results _ _ _ _ _ _ _ _ _ Hrun) as [[text ->]|H]; [|exact H].
    discriminate Hraw.
  - intros text r H. split; [|split].
    + unfold parseStructuredOutput. now rewrite H.
    + exact (try_parse_fields _ _ H).
    + unfold cross_field_invariant. split.
      * intro Hinv.
        destruct (try_parse_well_formed _ _ H) as (Hs & _).
        cbn [map statuses In] in Hs.
        destruct Hs as [Hs|[Hs|[Hs|[]]]]; [left; now symmetry| |];
          right; apply Hinv; rewrite <- Hs; discriminate.
      * intros [Hv|Hn] Hnv; [contradiction|exact Hn].
Qed.

(** A reply without an intent that names a winner: the status is UNCLEAR
    and the winner stays. *)
Example winner_without_intent :
  parseStructuredOutput Reference.print_lexeme (jlit "{'round_winner':'user'}")
  = {| intent := {| status := JStr (lit "UNCLEAR"); move := JNull;
                    reason := JStr (lit "Missing intent.") |};
       round_winner := JStr (lit "user"); response := JStr []; raw := JUndefined |}.
Proof. vm_compute. reflexivity. Qed.

Lemma error_paths_cross_field_invariant_witness :
  status (intent (parseStructuredOutput Reference.print_lexeme (lit "rock, I guess")))
  = JStr (lit "UNCLEAR")
  /\ round_winner (parseStructuredOutput Reference.print_lexeme (lit "rock, I guess")) = JNull
  /\ move (intent (parseStructuredOutput Reference.print_lexeme (lit "rock, I guess"))) = JNull.
Proof.
  apply (proj1 (error_paths_cross_field_invariant Reference.print_lexeme
                  Reference.exact_ceil_ms Reference.always_rate_limited
                  Reference.no_prompt Reference.no_keys)).
  vm_compute. reflexivity.
Defined.

(* ===================================================================== *)
(** * The error summary *)
(* ===================================================================== *)




(* ===================================================================== *)
(** * Round trip through the output shape *)
(* ===================================================================== *)

Import Json.

Lemma hex_digit_value (n : N) : (n < 16)%N -> hex_value (hex_digit n) = Some n.
Proof.
  intro H. 
  assert (In n (map N.of_nat (seq 0 16))).
  { apply in_map_iff. exists (N.to_nat n). split; [apply N2Nat.id|]. apply in_seq. lia. }
  simpl in H0. repeat (destruct H0 as [<-|H0]; [reflexivity|]). destruct H0.
Qed.

Lemma hex4_unicode_escape (c : N) :
  (c < 65536)%N ->
  hex4 (hex_digit (c / 4096 mod 16)) (hex_digit (c / 256 mod 16))
       (hex_digit (c / 16 mod 16)) (hex_digit (c mod 16)) = Some c.
Proof.
  intro H. unfold hex4.
  rewrite !hex_digit_value by (apply N.mod_lt; discriminate).
  f_equal.
  Zify.zify. Z.to_euclidean_division_equations. lia.
Qed.


Lemma parse_chars_literal c tail :
  N.eqb c 34 = false -> N.eqb c 92 = false -> N.ltb c 32 = false ->
  parse_chars (c :: tail) = cons_char c (parse_chars tail).
Proof. intros H1 H2 H3. cbn [parse_chars]. now rewrite H1, H2, H3. Qed.

Lemma parse_chars_escape c tail :
  (c < 65536)%N ->
  parse_chars (unicode_escape c ++ tail) = cons_char c (parse_chars tail).
Proof.
  intro H. unfold unicode_escape. cbn [app parse_chars].
  change (N.eqb 92 34) with false. change (N.eqb 92 92) with true.
  change (N.eqb 117 117) with true. cbv beta iota.
  rewrite (@hex4_unicode_escape c H). reflexivity.
Qed.

Lemma parse_chars_unit c tail :
  parse_chars (quote_unit c ++ tail) = cons_char c (parse_chars tail).
Proof.
  unfold quote_unit.
  destruct (N.eqb_spec c 8) as [->|]; [reflexivity|].
  destruct (N.eqb_spec c 9) as [->|]; [reflexivity|].
  destruct (N.eqb_spec c 10) as [->|]; [reflexivity|].
  destruct (N.eqb_spec c 12) as [->|]; [reflexivity|].
  destruct (N.eqb_spec c 13) as [->|]; [reflexivity|].
  destruct (N.eqb_spec c 34) as [->|]; [reflexivity|].
  destruct (N.eqb_spec c 92) as [->|]; [reflexivity|].
  destruct (N.ltb c 32 || is_high_surrogate c || is_low_surrogate c) eqn:E.
  - apply parse_chars_escape.
    unfold is_high_surrogate, is_low_surrogate, between in E.
    repeat (apply orb_true_iff in E; destruct E as [E|E]);
      repeat (apply andb_true_iff in E; destruct E as [? E]);
      rewrite ?N.ltb_lt, ?N.leb_le in *; lia.
  - apply orb_false_iff in E as [E _]. apply orb_false_iff in E as [E _].
    cbn [app]. apply parse_chars_literal; [now apply N.eqb_neq .. | exact E].
Qed.

Lemma quote_body_cons (c a : N) (s : jsstring) :
  quote_body (c :: a :: s) =
  if is_high_surrogate c && is_low_surrogate a
  then c :: a :: quote_body s
  else quote_unit c ++ quote_body (a :: s).
Proof. reflexivity. Qed.

Lemma parse_chars_quote_body_both (s : jsstring) :
  (forall rest, parse_chars (quote_body s ++ 34%N :: rest) = Some (s, rest))
  /\ (forall c rest, parse_chars (quote_body (c :: s) ++ 34%N :: rest) = Some (c :: s, rest)).
Proof.
  induction s as [|a s [IH1 IH2]].
  - split.
    + intro rest. reflexivity.
    + intros c rest. cbn [quote_body]. rewrite parse_chars_unit. reflexivity.
  - split.
    + intro rest. apply IH2.
    + intros c rest. rewrite quote_body_cons.
      destruct (is_high_surrogate c && is_low_surrogate a) eqn:E.
      * apply andb_true_iff in E as [Hc Ha].
        unfold is_high_surrogate, is_low_surrogate, between in Hc, Ha.
        apply andb_true_iff in Hc as [Hc1 Hc2]. apply andb_true_iff in Ha as [Ha1 Ha2].
        rewrite N.leb_le in *.
        cbn [app].
        rewrite !parse_chars_literal;
          try (apply N.eqb_neq; lia); try (apply N.ltb_ge; lia).
        rewrite IH1. reflexivity.
      * rewrite <- app_assoc, parse_chars_unit, IH2. reflexivity.
Qed.

Lemma parse_chars_quote_body (s rest : jsstring) :
  parse_chars (quote_body s ++ 34%N :: rest) = Some (s, rest).
Proof. apply parse_chars_quote_body_both. Qed.


Lemma skip_ws_stop (c : N) (s : jsstring) :
  is_json_ws c = false -> skip_ws (c :: s) = c :: s.
Proof. intro H. unfold skip_ws. cbn [dropWhile]. now rewrite H. Qed.



Lemma field_reads v : plain v -> reads_as 0 (stringify_field v) v.
Proof.
  intros [->|[s ->]] f rest _.
  - split; reflexivity.
  - split; [|reflexivity].
    unfold stringify_field, QuoteJSONString. cbn [app parse_value].
    change (N.eqb 34 123) with false. change (N.eqb 34 91) with false.
    change (N.eqb 34 34) with true. cbv beta iota.
    rewrite <- app_assoc. cbn [app]. now rewrite parse_chars_quote_body.
Qed.

Lemma reads_as_le g g' text v : g <= g' -> reads_as g text v -> reads_as g' text v.
Proof. intros L H f rest Hf. apply H. lia. Qed.

Lemma join_members_head kv ms rest :
  exists tail, join_members (kv :: ms) ++ rest = 34%N :: quote_body (fst kv) ++ 34%N :: 58%N :: tail
    /\ tail = snd kv ++ match ms with [] => rest | _ :: _ => 44%N :: join_members ms ++ rest end.
Proof.
  eexists. split; [|reflexivity].
  cbn [join_members]. destruct ms; unfold member_text, QuoteJSONString;
    cbn [app chr Ascii.N_of_ascii]; rewrite <- ?app_assoc; cbn [app];
    rewrite <- ?app_assoc; reflexivity.
Qed.

Lemma parse_members_join g :
  forall (ms : list (jsstring * jsstring)) (vs : list (jsstring * JsValue)),
    Forall2 (fun t v => fst t = fst v /\ reads_as g (snd t) (snd v)) ms vs ->
    ms <> [] ->
    forall f acc rest, g + List.length ms <= f ->
      parse_members (S f) acc (join_members ms ++ 125%N :: rest)
      = Parsed (JObj (acc ++ vs)) rest.
Proof.
  induction 1 as [|t v ms vs [Hk Hv] Hrest IH]; [congruence|].
  intros _ f acc rest Hf.
  destruct (join_members_head t ms (125%N :: rest)) as (tail & -> & Htail).
  cbn [parse_members]. change (N.eqb 34 34) with true. cbv beta iota.
  rewrite parse_chars_quote_body.
  rewrite skip_ws_stop by reflexivity. cbn [N.eqb Pos.eqb].
  destruct f as [|f']; [cbn [List.length] in Hf; lia|].
  cbn [List.length] in Hf.
  subst tail.
  destruct (Hv f' (match ms with
                   | [] => 125%N :: rest
                   | _ :: _ => 44%N :: join_members ms ++ 125%N :: rest
                   end)) as [Hparse Hws]; [lia|].
  rewrite Hws, Hparse.
  destruct v as [k val]. cbn [fst snd] in *. subst k.
  destruct Hrest as [|t' v' ms' vs' Ht' Hrest'].
  - rewrite skip_ws_stop by reflexivity. reflexivity.
  - rewrite skip_ws_stop by reflexivity. cbn [N.eqb Pos.eqb].
    assert (Hskip : skip_ws (join_members (t' :: ms') ++ 125%N :: rest)
                    = join_members (t' :: ms') ++ 125%N :: rest).
    { destruct (join_members_head t' ms' (125%N :: rest)) as (tl & -> & _). reflexivity. }
    rewrite Hskip, IH by (try discriminate; cbn [List.length] in *; lia).
    now rewrite <- app_assoc.
Qed.

Lemma object_reads g n (ms : list (jsstring * jsstring)) (vs : list (jsstring * JsValue)) :
  Forall2 (fun t v => fst t = fst v /\ reads_as g (snd t) (snd v)) ms vs ->
  ms <> [] ->
  S (g + List.length ms) <= n ->
  reads_as n (stringify_object ms) (JObj vs).
Proof.
  intros H Hne Hn f rest Hf. split; [|reflexivity].
  unfold stringify_object.
  change (chr "{") with 123%N. change (chr "}") with 125%N.
  cbn [app parse_value]. cbn [N.eqb Pos.eqb].
  rewrite <- app_assoc. cbn [app].
  destruct ms as [|t ms]; [congruence|].
  destruct (join_members_head t ms (125%N :: rest)) as (tl & E & _).
  rewrite E, skip_ws_stop by reflexivity. cbn [N.eqb Pos.eqb]. rewrite <- E.
  destruct f as [|f']; [lia|].
  rewrite (parse_members_join H) by first [assumption | cbn [List.length] in *; lia].
  reflexivity.
Qed.

Ltac each_member :=
  repeat first [ apply Forall2_nil | apply Forall2_cons; [split; [reflexivity|] | ] ];
  cbn [fst snd].

Lemma serialize_reads (r : JudgeResult) :
  plain (status (intent r)) -> plain (move (intent r)) -> plain (reason (intent r)) ->
  plain (round_winner r) -> plain (response r) ->
  reads_as 8 (serialize r) (record_object r).
Proof.
  intros Hs Hm Hr Hw Hp. unfold serialize, record_object.
  apply object_reads with (g := 4); [|discriminate|cbn [List.length]; lia].
  each_member.
  - apply object_reads with (g := 0); [|discriminate|cbn [List.length]; lia].
    each_member; now apply field_reads.
  - apply reads_as_le with (g := 0); [lia|]. now apply field_reads.
  - apply reads_as_le with (g := 0); [lia|]. now apply field_reads.
Qed.

Lemma JSON_parse_serialize (r : JudgeResult) :
  plain (status (intent r)) -> plain (move (intent r)) -> plain (reason (intent r)) ->
  plain (round_winner r) -> plain (response r) ->
  JSON_parse (serialize r) = Some (record_object r).
Proof.
  intros Hs Hm Hr Hw Hp.
  pose proof (serialize_reads r Hs Hm Hr Hw Hp) as H.
  unfold JSON_parse.
  assert (L : 8 <= List.length (serialize r)).
  { unfold serialize, stringify_object. cbn [List.length join_members].
    rewrite !length_app. cbn [List.length]. unfold member_text at 1. rewrite length_app.
    unfold QuoteJSONString. cbn [List.length fst]. rewrite length_app.
    cbn. lia. }
  destruct (H (2 * List.length (serialize r)) [] ltac:(lia)) as [Hp1 Hp2].
  rewrite app_nil_r in Hp1, Hp2. rewrite Hp2, Hp1. reflexivity.
Qed.

Lemma trim_delimited (c d : N) (body : jsstring) :
  is_space c = false -> is_space d = false ->
  trim (c :: body ++ [d]) = c :: body ++ [d].
Proof.
  intros Hc Hd. unfold trim, trimStart, trimEnd.
  cbn [dropWhile]. rewrite Hc.
  change (c :: body ++ [d]) with ((c :: body) ++ [d]).
  rewrite rev_app_distr. cbn [rev app dropWhile]. rewrite Hd.
  cbn [rev]. now rewrite rev_app_distr, rev_involutive.
Qed.

Lemma json_text_serialize (r : JudgeResult) : json_text (serialize r) = serialize r.
Proof.
  unfold json_text, serialize, stringify_object.
  rewrite trim_delimited by reflexivity. reflexivity.
Qed.

Lemma well_formed_plain (r : JudgeResult) :
  well_formed r ->
  plain (status (intent r)) /\ plain (move (intent r)) /\ plain (reason (intent r))
  /\ plain (round_winner r) /\ plain (response r).
Proof.
  intros (Hs & Hm & Hw & Hr & Hp). unfold plain.
  apply in_map_iff in Hs as [s [Hs _]].
  repeat split; eauto.
  - destruct Hm as [Hm|Hm]; [now left|]. apply in_map_iff in Hm as [m [Hm _]]. eauto.
  - destruct Hw as [Hw|Hw]; [now left|]. apply in_map_iff in Hw as [m [Hw _]]. eauto.
Qed.

Lemma includes_null (allowed : list jsstring) : includes allowed JNull = false.
Proof. induction allowed; [reflexivity|]. exact IHallowed. Qed.

Lemma parse_intent_valid nts (st mv : JsValue) (rs : jsstring) :
  In st (map JStr statuses) ->
  mv = JNull \/ In mv (map JStr moves) ->
  parse_intent nts (JObj [(lit "status", st); (lit "move", mv); (lit "reason", JStr rs)])
  = Some {| status := st; move := mv; reason := JStr rs |}.
Proof.
  intros Hs Hm. unfold parse_intent. cbn [is_object].
  change (Get _ (lit "status")) with (Some st).
  change (Get _ (lit "move")) with (Some mv).
  change (Get _ (lit "reason")) with (Some (JStr rs)).
  cbn [nullish ToString]. rewrite (In_includes _ _ Hs).
  destruct Hm as [->|Hm].
  - now rewrite includes_null.
  - now rewrite (In_includes _ _ Hm).
Qed.

Lemma parse_winner_valid (w : JsValue) :
  w = JNull \/ In w (map JStr winners) -> parse_winner w = w.
Proof.
  unfold parse_winner. intros [->|Hw].
  - now rewrite includes_null.
  - now rewrite (In_includes _ _ Hw).
Qed.

(** C6.  A record with valid enumerated values, written in the output
    shape, is parsed back to the same intent (status, move, reason), the same
    round winner and the same response. *)
Theorem parseStructuredOutput_round_trip :
  forall (Number_toString : jsstring -> jsstring) (r : JudgeResult),
    well_formed r ->
    intent (parseStructuredOutput Number_toString (serialize r)) = intent r
    /\ round_winner (parseStructuredOutput Number_toString (serialize r)) = round_winner r
    /\ response (parseStructuredOutput Number_toString (serialize r)) = response r.
Proof.
  intros nts r Hwf.
  destruct (well_formed_plain Hwf) as (Ps & Pm & Pr & Pw & Pp).
  destruct Hwf as (Hs & Hm & Hw & [rs Hr] & [rp Hp]).
  unfold parseStructuredOutput, try_parse.
  rewrite json_text_serialize, (JSON_parse_serialize r Ps Pm Pr Pw Pp).
  destruct r as [[st mv rsn] w resp]. cbn [intent status move reason round_winner response] in *.
  subst rsn resp.
  change (Get (record_object _) (lit "intent")) with
    (Some (JObj [(lit "status", st); (lit "move", mv); (lit "reason", JStr rs)])).
  change (Get (record_object _) (lit "round_winner")) with (Some w).
  change (Get (record_object _) (lit "response")) with (Some (JStr rp)).
  cbv beta iota.
  rewrite (parse_intent_valid nts rs Hs Hm). cbn [parse_response].
  rewrite (parse_winner_valid Hw).
  repeat split.
Qed.

Example serialize_scenario :
  serialize {| intent := {| status := JStr (lit "VALID"); move := JStr (lit "rock");
                            reason := JStr (lit "clear") |};
               round_winner := JStr (lit "user"); response := JStr (lit "...");
               raw := JUndefined |}
  = jlit "{'intent':{'status':'VALID','move':'rock','reason':'clear'},'round_winner':'user','response':'...'}".
Proof. vm_compute. reflexivity. Qed.

Example serialize_null_fields :
  serialize {| intent := {| status := JStr (lit "UNCLEAR"); move := JNull;
                            reason := JStr (jlit "say 'rock'" ++ [10%N]) |};
               round_winner := JNull; response := JStr []; raw := JUndefined |}
  = jlit "{'intent':{'status':'UNCLEAR','move':null,'reason':'say \'rock\'\n'},'round_winner':null,'response':''}".
Proof. vm_compute. reflexivity. Qed.

Lemma parseStructuredOutput_round_trip_witness :
  intent (parseStructuredOutput Reference.print_lexeme
            (serialize {| intent := {| status := JStr (lit "INVALID"); move := JNull;
                                       reason := JStr (jlit "bomb was used; say 'rock'") |};
                          round_winner := JNull;
                          response := JStr (lit "Turn wasted." ++ [10%N; 55357%N; 56832%N; 56832%N]);
                          raw := JUndefined |}))
  = {| status := JStr (lit "INVALID"); move := JNull;
       reason := JStr (jlit "bomb was used; say 'rock'") |}.
Proof.
  apply (@parseStructuredOutput_round_trip Reference.print_lexeme
           {| intent := {| status := JStr (lit "INVALID"); move := JNull;
                           reason := JStr (jlit "bomb was used; say 'rock'") |};
              round_winner := JNull;
              response := JStr (lit "Turn wasted." ++ [10%N; 55357%N; 56832%N; 56832%N]);
              raw := JUndefined |}).
  unfold well_formed. cbn [intent status move reason round_winner response].
  split; [right; left; reflexivity|].
  split; [left; reflexivity|].
  split; [left; reflexivity|].
  split; eexists; reflexivity.
Defined.

(* ===================================================================== *)
(** * Spelling normalisation *)
(* ===================================================================== *)

Import NormalizeInput.

(** ** Trimming *)

Lemma dropWhile_clean (s : jsstring) : clean_start (dropWhile is_space s).
Proof.
  induction s as [|c s IH]; cbn [dropWhile]; [exact I|].
  destruct (is_space c) eqn:E; [exact IH | exact E].
Qed.

Lemma dropWhile_fixed (t : jsstring) : clean_start t -> dropWhile is_space t = t.
Proof. destruct t as [|c t]; [reflexivity|]. cbn. now intros ->. Qed.

Lemma trim_clean (s : jsstring) : clean_start (trim s) /\ clean_start (rev (trim s)).
Proof.
  unfold trim, trimEnd, trimStart. split.
  - pose proof (dropWhile_clean s) as H.
    destruct (dropWhile is_space s) as [|c l]; [exact I|].
    cbn [clean_start] in H. cbn [rev].
    rewrite dropWhile_app_stop by exact H.
    rewrite rev_app_distr. cbn [rev app]. exact H.
  - rewrite rev_involutive. apply dropWhile_clean.
Qed.

Lemma trim_fixed (t : jsstring) :
  clean_start t -> clean_start (rev t) -> trim t = t.
Proof.
  intros H1 H2. unfold trim, trimEnd, trimStart.
  rewrite (dropWhile_fixed t H1), (dropWhile_fixed (rev t) H2).
  apply rev_involutive.
Qed.

Lemma trim_idempotent (s : jsstring) : trim (trim s) = trim s.
Proof. apply trim_fixed; apply trim_clean. Qed.

Lemma trim_blank (s : jsstring) : forallb is_space s = true -> trim s = [].
Proof.
  intro H. unfold trim, trimStart. now rewrite (dropWhile_all _ _ H).
Qed.

(** ** Splitting on white space *)

Lemma split_spaces_from_nonempty (b : bool) (s : jsstring) :
  1 <= List.length (split_spaces_from b s).
Proof.
  revert b; induction s as [|c s IH]; intro b; cbn [split_spaces_from List.length]; [lia|].
  destruct (is_space c).
  - destruct b; [apply IH | cbn [List.length]; lia].
  - specialize (IH false). destruct (split_spaces_from false s); cbn [List.length] in *; lia.
Qed.

Lemma split_spaces_single (s : jsstring) :
  List.length (split_spaces s) = 1 <-> forallb (fun c => negb (is_space c)) s = true.
Proof.
  unfold split_spaces. induction s as [|c s IH]; cbn [split_spaces_from forallb].
  - split; reflexivity.
  - destruct (is_space c) eqn:E; cbn [negb andb].
    + pose proof (split_spaces_from_nonempty true s). cbn [List.length]. split; [lia|discriminate].
    + rewrite <- IH. pose proof (split_spaces_from_nonempty false s).
      destruct (split_spaces_from false s); cbn [List.length] in *; [lia|reflexivity].
Qed.

(** ** Splitting at word boundaries *)

Lemma split_boundaries_head (c : N) (s : jsstring) :
  exists p ps, split_boundaries (c :: s) = (c :: p) :: ps.
Proof.
  revert c; induction s as [|d s IH]; intro c.
  - now exists [], [].
  - cbn [split_boundaries]. destruct (Bool.eqb (is_word c) (is_word d)).
    + destruct (IH d) as (p & ps & E). cbn [split_boundaries] in E. rewrite E. eauto.
    + eauto.
Qed.

Lemma concat_split_boundaries (s : jsstring) : concat (split_boundaries s) = s.
Proof.
  induction s as [|c s IH]; [reflexivity|].
  destruct s as [|d s]; [reflexivity|].
  change (split_boundaries (c :: d :: s)) with
    (if Bool.eqb (is_word c) (is_word d)
     then match split_boundaries (d :: s) with
          | p :: ps => (c :: p) :: ps
          | [] => [[c]]
          end
     else [c] :: split_boundaries (d :: s)).
  destruct (Bool.eqb (is_word c) (is_word d)).
  - destruct (split_boundaries_head d s) as (p & ps & E). rewrite E in *.
    cbn [concat app] in *. now rewrite IH.
  - cbn [concat app]. now rewrite IH.
Qed.

Lemma split_boundaries_cons (c d : N) (s : jsstring) :
  split_boundaries (c :: d :: s) =
  if Bool.eqb (is_word c) (is_word d)
  then match split_boundaries (d :: s) with
       | p :: ps => (c :: p) :: ps
       | [] => [[c]]
       end
  else [c] :: split_boundaries (d :: s).
Proof. reflexivity. Qed.

Lemma split_boundaries_runs (s : jsstring) : s <> [] -> runs (split_boundaries s).
Proof.
  induction s as [|c s IH]; [congruence|]. intros _.
  destruct s as [|d s].
  - apply runs_one; [discriminate|]. repeat constructor.
  - rewrite split_boundaries_cons.
    specialize (IH ltac:(discriminate)).
    destruct (split_boundaries_head d s) as (p & ps & E). rewrite E in *.
    destruct (Bool.eqb (is_word c) (is_word d)) eqn:C.
    + apply eqb_prop in C.
      inversion IH as [p0 Hne Hu | p0 q qs Hne Hu Hc Hr]; subst.
      * apply runs_one; [discriminate|].
        constructor; [reflexivity|]. unfold uniform in *. cbn [word_class] in *.
        rewrite C. exact Hu.
      * apply runs_cons; [discriminate| | |exact Hr].
        -- constructor; [reflexivity|]. unfold uniform in *. cbn [word_class] in *.
           rewrite C. exact Hu.
        -- cbn [word_class] in *. now rewrite C.
    + apply eqb_false_iff in C.
      apply runs_cons; [discriminate| repeat constructor | exact C | exact IH].
Qed.

Lemma split_boundaries_app (p rest : jsstring) :
  p <> [] -> uniform p ->
  match rest with
  | [] => True
  | d :: _ => is_word d <> word_class p
  end ->
  split_boundaries (p ++ rest) =
  p :: match rest with
       | [] => []
       | _ :: _ => split_boundaries rest
       end.
Proof.
  induction p as [|c p IH]; [congruence|]. intros _ Hu Hr.
  destruct p as [|c' p].
  - cbn [app]. destruct rest as [|d rest]; [reflexivity|].
    rewrite split_boundaries_cons. cbn [word_class] in Hr.
    destruct (Bool.eqb (is_word c) (is_word d)) eqn:C; [|reflexivity].
    apply eqb_prop in C. congruence.
  - cbn [app]. rewrite split_boundaries_cons.
    inversion Hu as [|? ? _ Hu']; subst. inversion Hu' as [|? ? Hc' Hu'']; subst.
    cbn [word_class] in *. rewrite Hc', eqb_reflx.
    change (c' :: p ++ rest) with ((c' :: p) ++ rest).
    rewrite IH.
    + reflexivity.
    + discriminate.
    + constructor; [reflexivity|]. unfold uniform. cbn [word_class]. 
      rewrite Forall_forall in *. intros x Hx. rewrite (Hu'' x Hx). symmetry. exact Hc'.
    + destruct rest; [exact I|]. cbn [word_class]. now rewrite Hc'.
Qed.

Lemma split_boundaries_concat (ps : list jsstring) :
  runs ps -> split_boundaries (concat ps) = ps.
Proof.
  induction 1 as [p Hne Hu | p q ps Hne Hu Hc Hr IH].
  - cbn [concat]. rewrite app_nil_r.
    rewrite <- (app_nil_r p) at 1. now rewrite split_boundaries_app.
  - cbn [concat] in *.
    assert (Hq : q <> []) by (inversion Hr; assumption).
    destruct q as [|d q]; [congruence|].
    cbn [app] in *. rewrite split_boundaries_app; [now rewrite IH | exact Hne | exact Hu |].
    cbn [word_class] in Hc. congruence.
Qed.

(** ** The typo table *)

Lemma assoc_In (key v : jsstring) (m : list (jsstring * jsstring)) :
  assoc key m = Some v -> In (key, v) m.
Proof.
  induction m as [|[k x] m IH]; cbn [assoc]; [discriminate|].
  destruct (jseqb k key) eqn:E.
  - apply jseqb_eq in E. intro H. injection H as ->. subst. now left.
  - intro H. right. auto.
Qed.

Lemma is_word_not_space (c : N) : is_word c = true -> is_space c = false.
Proof.
  unfold is_word, is_space, between. intro H.
  repeat (apply orb_true_iff in H; destruct H as [H|H]);
    repeat (apply andb_true_iff in H; destruct H as [? H]);
    rewrite ?N.leb_le, ?N.eqb_eq in *;
    repeat (apply orb_false_iff; split);
    rewrite ?andb_false_iff, ?N.leb_gt, ?N.eqb_neq; lia.
Qed.

Lemma is_word_ascii (c : N) : is_word c = true -> (c < 128)%N.
Proof.
  unfold is_word, between. intro H.
  repeat (apply orb_true_iff in H; destruct H as [H|H]);
    repeat (apply andb_true_iff in H; destruct H as [? H]);
    rewrite ?N.leb_le, ?N.eqb_eq in *; lia.
Qed.

Lemma ascii_lower_word (c : N) : is_word (ascii_lower c) = is_word c.
Proof.
  unfold ascii_lower. destruct (between 65 90 c) eqn:E; [|reflexivity].
  unfold between in E. apply andb_true_iff in E as [E1 E2].
  rewrite N.leb_le in *. unfold is_word, between.
  replace (N.leb 65 c && N.leb c 90) with true
    by (symmetry; apply andb_true_iff; rewrite !N.leb_le; lia).
  replace (N.leb 97 (c + 32) && N.leb (c + 32) 122) with true
    by (symmetry; apply andb_true_iff; rewrite !N.leb_le; lia).
  now rewrite orb_true_r.
Qed.

Lemma TYPO_MAP_entries (key v : jsstring) :
  In (key, v) TYPO_MAP -> In v CANONICAL /\ is_typo_key key.
Proof.
  unfold TYPO_MAP. cbn [In]. intro H.
  repeat (destruct H as [H|H];
          [injection H as <- <-; split;
           [cbn; tauto | split; [discriminate | split; vm_compute; reflexivity]]|]).
  destruct H.
Qed.

Lemma forallb_not_existsb (p : N -> bool) (l : jsstring) :
  forallb p l = true -> existsb (fun c => negb (p c)) l = false.
Proof.
  induction l as [|c l IH]; cbn [forallb existsb]; [reflexivity|].
  intro H. apply andb_true_iff in H as [-> H]. cbn. auto.
Qed.

Lemma uniform_class (w : jsstring) (b : bool) :
  uniform w -> word_class w = b -> Forall (fun c => is_word c = b) w.
Proof. intros H <-. exact H. Qed.

Section NormalizeFacts.

Variable unicode_lower : N -> jsstring.

(** What the Unicode tables give outside ASCII: the Kelvin sign becomes the
    letter k; the lower-case form of any other character keeps a code unit
    outside ASCII. *)
Hypothesis unicode_lower_outside_ascii :
  forall c, (128 <= c)%N ->
            unicode_lower c = [107%N]
            \/ exists x, In x (unicode_lower c) /\ (128 <= x)%N.

Abbreviation toLowerCase := (toLowerCase unicode_lower).
Abbreviation correct_word := (correct_word unicode_lower).
Abbreviation normalizeWords := (normalizeWords unicode_lower).
Abbreviation normalizeExact := (normalizeExact unicode_lower).
Abbreviation normalizeMoveInput := (normalizeMoveInput unicode_lower).

Lemma toLowerCase_cons (c : N) (s : jsstring) :
  toLowerCase (c :: s) =
  (if N.ltb c 128 then [ascii_lower c] else unicode_lower c) ++ toLowerCase s.
Proof. reflexivity. Qed.

Lemma toLowerCase_word (w : jsstring) :
  Forall (fun c => is_word c = true) w -> toLowerCase w = map ascii_lower w.
Proof.
  induction 1 as [|c w Hc _ IH]; [reflexivity|].
  rewrite toLowerCase_cons, IH. apply is_word_ascii in Hc.
  apply N.ltb_lt in Hc. now rewrite Hc.
Qed.

Lemma toLowerCase_not_word (w : jsstring) :
  Forall (fun c => is_word c = false) w ->
  forallb is_word (toLowerCase w) = true ->
  forallb (N.eqb 107) (toLowerCase w) = true.
Proof.
  induction 1 as [|c w Hc _ IH]; [reflexivity|].
  rewrite toLowerCase_cons, !forallb_app. intro H.
  apply andb_true_iff in H as [H1 H2]. rewrite (IH H2), andb_true_r.
  destruct (N.ltb c 128) eqn:L.
  - cbn [forallb] in H1. rewrite ascii_lower_word, Hc in H1. discriminate.
  - apply N.ltb_ge in L.
    destruct (unicode_lower_outside_ascii L) as [->|(x & Hx & Lx)]; [reflexivity|].
    rewrite forallb_forall in H1. specialize (H1 x Hx).
    apply is_word_ascii in H1. lia.
Qed.

(** A piece that is not made of word characters is never a typo. *)
Lemma not_word_not_typo (w : jsstring) :
  uniform w -> word_class w = false -> assoc (toLowerCase w) TYPO_MAP = None.
Proof.
  intros Hu Hc. destruct (assoc (toLowerCase w) TYPO_MAP) as [v|] eqn:E; [|reflexivity].
  apply assoc_In, TYPO_MAP_entries in E. destruct E as (_ & _ & Hw & Hk).
  apply (toLowerCase_not_word (uniform_class Hu Hc)) in Hw.
  apply forallb_not_existsb in Hw. congruence.
Qed.

Lemma CANONICAL_facts (v : jsstring) :
  In v CANONICAL ->
  v <> [] /\ Forall (fun c => is_word c = true) v
  /\ assoc (toLowerCase v) TYPO_MAP = None
  /\ inherited (toLowerCase v) = false
  /\ normalizeMoveInput (VStr v) = Some (VStr v).
Proof.
  unfold CANONICAL. cbn [In]. intro H.
  repeat (destruct H as [<-|H];
          [split; [discriminate|];
           split; [repeat constructor|];
           repeat split; vm_compute; reflexivity|]).
  destruct H.
Qed.

Lemma correct_word_cases (w : jsstring) :
  (assoc (toLowerCase w) TYPO_MAP = None /\ correct_word w = w)
  \/ (exists v, assoc (toLowerCase w) TYPO_MAP = Some v /\ correct_word w = v
                /\ In v CANONICAL).
Proof.
  unfold NormalizeInput.correct_word.
  destruct (assoc (toLowerCase w) TYPO_MAP) as [v|] eqn:E; [right | now left].
  exists v. repeat split. now apply assoc_In, TYPO_MAP_entries in E.
Qed.

Lemma correct_word_twice (w : jsstring) : correct_word (correct_word w) = correct_word w.
Proof.
  destruct (correct_word_cases w) as [[E ->]|(v & E & -> & Hv)].
  - unfold NormalizeInput.correct_word. now rewrite E.
  - apply CANONICAL_facts in Hv as (_ & _ & Ev & _).
    unfold NormalizeInput.correct_word. now rewrite Ev.
Qed.

(** The lookup of a key that reaches no inherited property. *)
Lemma TYPO_MAP_get_own (w : jsstring) :
  inherited (toLowerCase w) = false ->
  to_text (if truthy (TYPO_MAP_get (toLowerCase w))
           then TYPO_MAP_get (toLowerCase w) else VStr w)
  = correct_word w.
Proof.
  unfold inherited, TYPO_MAP_get, NormalizeInput.correct_word.
  destruct (assoc (toLowerCase w) TYPO_MAP) as [v|] eqn:E.
  - intros _. apply assoc_In, TYPO_MAP_entries in E as [Hv _].
    apply CANONICAL_facts in Hv as (Hne & _). destruct v; [congruence|reflexivity].
  - destruct (assoc (toLowerCase w) Object_prototype_functions); [discriminate|].
    intros ->. reflexivity.
Qed.

Lemma correct_word_inherited (w : jsstring) :
  inherited (toLowerCase w) = false -> inherited (toLowerCase (correct_word w)) = false.
Proof.
  intro H. destruct (correct_word_cases w) as [[_ ->]|(v & _ & -> & Hv)]; [exact H|].
  now apply CANONICAL_facts in Hv.
Qed.

(** [normalizeWords] corrects each piece, when no lookup reaches an
    inherited property. *)
Lemma normalizeWords_own (text : jsstring) :
  Forall (fun w => inherited (toLowerCase w) = false) (split_boundaries text) ->
  normalizeWords text = concat (map correct_word (split_boundaries text)).
Proof.
  unfold NormalizeInput.normalizeWords. intro H. f_equal.
  induction H as [|w ws Hw _ IH]; [reflexivity|].
  cbn [map]. now rewrite TYPO_MAP_get_own, IH.
Qed.


Lemma word_uniform (v : jsstring) :
  Forall (fun c => is_word c = true) v -> uniform v /\ (v <> [] -> word_class v = true).
Proof.
  intro H. destruct v as [|c v]; [split; [constructor | congruence]|].
  inversion H as [|? ? Hc _]; subst. unfold uniform. cbn [word_class].
  rewrite Hc. split; [exact H | reflexivity].
Qed.

(** Correcting a piece keeps it a piece of the same class. *)
Lemma correct_word_piece (w : jsstring) :
  w <> [] -> uniform w ->
  correct_word w <> [] /\ uniform (correct_word w)
  /\ word_class (correct_word w) = word_class w.
Proof.
  intros Hne Hu.
  destruct (correct_word_cases w) as [[_ ->]|(v & E & -> & Hv)]; [auto|].
  apply CANONICAL_facts in Hv as (Hv & Hw & _).
  destruct (word_uniform Hw) as [Hu' Hc']. rewrite (Hc' Hv).
  repeat split; [exact Hv | exact Hu' |].
  destruct (word_class w) eqn:C; [reflexivity|].
  rewrite (not_word_not_typo Hu C) in E. discriminate.
Qed.

Lemma runs_correct_word (ps : list jsstring) : runs ps -> runs (map correct_word ps).
Proof.
  induction 1 as [p Hne Hu | p q ps Hne Hu Hc Hr IH]; cbn [map] in *.
  - destruct (correct_word_piece Hne Hu) as (H1 & H2 & _). now apply runs_one.
  - destruct (correct_word_piece Hne Hu) as (H1 & H2 & H3).
    assert (Hq : q <> [] /\ uniform q) by (inversion Hr; auto).
    destruct (correct_word_piece (proj1 Hq) (proj2 Hq)) as (_ & _ & H4).
    apply runs_cons; [exact H1 | exact H2 | congruence | exact IH].
Qed.

Lemma runs_pieces (ps : list jsstring) :
  runs ps -> ps <> [] /\ Forall (fun p => p <> [] /\ uniform p) ps.
Proof.
  induction 1 as [p Hne Hu | p q ps Hne Hu Hc Hr [_ IH]].
  - split; [discriminate | repeat constructor; assumption].
  - split; [discriminate | constructor; auto].
Qed.

Lemma correct_word_spaces (w : jsstring) :
  uniform w ->
  forallb (fun c => negb (is_space c)) (correct_word w) = true ->
  forallb (fun c => negb (is_space c)) w = true.
Proof.
  intros Hu H.
  destruct (correct_word_cases w) as [[_ E]|(v & E & _ & _)]; [now rewrite E in H|].
  destruct (word_class w) eqn:C.
  - apply forallb_forall. intros c Hc.
    pose proof (uniform_class Hu C) as F. rewrite Forall_forall in F.
    now rewrite (is_word_not_space _ (F c Hc)).
  - rewrite (not_word_not_typo Hu C) in E. discriminate.
Qed.

Lemma corrected_spaces (ps : list jsstring) :
  Forall (fun p => p <> [] /\ uniform p) ps ->
  forallb (fun c => negb (is_space c)) (concat (map correct_word ps)) = true ->
  forallb (fun c => negb (is_space c)) (concat ps) = true.
Proof.
  induction 1 as [|p ps [_ Hu] _ IH]; [reflexivity|].
  cbn [map concat]. rewrite !forallb_app. intro H.
  apply andb_true_iff in H as [H1 H2].
  now rewrite (correct_word_spaces Hu H1), IH.
Qed.

Lemma clean_start_app (x y : jsstring) :
  x <> [] -> (clean_start (x ++ y) <-> clean_start x).
Proof. destruct x; [congruence|]. reflexivity. Qed.

Lemma word_clean (v : jsstring) :
  Forall (fun c => is_word c = true) v -> clean_start v /\ clean_start (rev v).
Proof.
  intro H. split.
  - destruct H as [|c v Hc _]; [exact I|]. now apply is_word_not_space.
  - apply Forall_rev in H. destruct H as [|c v' Hc _]; [exact I|].
    now apply is_word_not_space.
Qed.

Lemma correct_word_clean (w : jsstring) :
  (clean_start w -> clean_start (correct_word w))
  /\ (clean_start (rev w) -> clean_start (rev (correct_word w))).
Proof.
  destruct (correct_word_cases w) as [[_ ->]|(v & _ & -> & Hv)]; [auto|].
  apply CANONICAL_facts in Hv as (_ & Hw & _).
  destruct (word_clean Hw). auto.
Qed.

Lemma corrected_clean (ps : list jsstring) :
  runs ps ->
  (clean_start (concat ps) -> clean_start (concat (map correct_word ps)))
  /\ (clean_start (rev (concat ps)) -> clean_start (rev (concat (map correct_word ps)))).
Proof.
  induction 1 as [p Hne Hu | p q ps Hne Hu Hc Hr [_ IH]].
  - cbn [map concat]. rewrite !app_nil_r. apply correct_word_clean.
  - destruct (correct_word_piece Hne Hu) as (Hne' & _).
    split.
    + cbn [map concat]. rewrite !clean_start_app by assumption.
      apply correct_word_clean.
    + change (concat (p :: q :: ps)) with (p ++ concat (q :: ps)).
      change (concat (map correct_word (p :: q :: ps)))
        with (correct_word p ++ concat (map correct_word (q :: ps))).
      rewrite !rev_app_distr.
      assert (Hq : q <> []) by (inversion Hr; assumption).
      assert (Hq' : correct_word q <> []).
      { apply correct_word_piece; inversion Hr; assumption. }
      rewrite !clean_start_app; [exact IH | |].
      * cbn [map concat]. intro E. apply (f_equal (@rev N)) in E.
        rewrite rev_involutive in E. cbn [rev] in E.
        apply app_eq_nil in E as [E _]. contradiction.
      * cbn [concat]. intro E. apply (f_equal (@rev N)) in E.
        rewrite rev_involutive in E. cbn [rev] in E.
        apply app_eq_nil in E as [E _]. contradiction.
Qed.


(** [normalizeMoveInput] on a string. *)
Lemma normalizeMoveInput_string (raw : jsstring) :
  normalizeMoveInput (VStr raw) =
  match trim raw with
  | [] => Some (VStr [])
  | _ :: _ =>
      if Nat.eqb (List.length (split_spaces (trim raw))) 1
      then Some (normalizeExact (trim raw))
      else Some (VStr (normalizeWords (trim raw)))
  end.
Proof.
  unfold NormalizeInput.normalizeMoveInput. destruct raw as [|c raw]; [reflexivity|].
  cbn [truthy]. destruct (trim (c :: raw)); reflexivity.
Qed.

Lemma normalizeExact_own (t : jsstring) :
  inherited (toLowerCase (trim t)) = false ->
  normalizeExact t = VStr t
  \/ exists v, In v CANONICAL /\ normalizeExact t = VStr v.
Proof.
  intro H. unfold NormalizeInput.normalizeExact.
  destruct (toLowerCase (trim t)) as [|k0 key] eqn:K; [now left|].
  revert H. unfold inherited, TYPO_MAP_get.
  destruct (assoc (k0 :: key) TYPO_MAP) as [v|] eqn:E.
  - intros _. apply assoc_In, TYPO_MAP_entries in E as [Hv _].
    right. exists v. split; [exact Hv|].
    apply CANONICAL_facts in Hv as (Hne & _). destruct v; [congruence|reflexivity].
  - destruct (assoc (k0 :: key) Object_prototype_functions); [discriminate|].
    intros ->. cbn [truthy].
    destruct (existsb (jseqb (k0 :: key)) CANONICAL) eqn:C; [|now left].
    right. exists (k0 :: key). split; [|reflexivity].
    apply existsb_exists in C as (x & Hx & Ex). apply jseqb_eq in Ex. now subst.
Qed.

(** X16.  Where no lookup reaches an inherited property, applying
    [normalizeMoveInput] to its own result changes nothing: the function is
    idempotent on such inputs. *)
Lemma normalizeMoveInput_idempotent_own (raw : jsstring) (v : Value) :
  own_lookups_only unicode_lower raw ->
  normalizeMoveInput (VStr raw) = Some v ->
  normalizeMoveInput v = Some v.
Proof.
  intros [Hkey Hpieces]. rewrite normalizeMoveInput_string.
  destruct (trim_clean raw) as [Hs He].
  destruct (trim raw) as [|c t] eqn:T.
  { intro H. injection H as <-. reflexivity. }
  destruct (Nat.eqb (List.length (split_spaces (c :: t))) 1) eqn:S1; intro H; injection H as <-.
  - assert (Ht : trim (c :: t) = c :: t) by (now apply trim_fixed).
    destruct (@normalizeExact_own (c :: t)) as [E|(v & Hv & E)].
    + now rewrite Ht.
    + rewrite E, normalizeMoveInput_string, Ht, S1. now rewrite E.
    + rewrite E. now apply CANONICAL_facts in Hv.
  - pose proof (@split_boundaries_runs (c :: t) ltac:(discriminate)) as Hr.
    rewrite (normalizeWords_own _ Hpieces).
    set (ps := split_boundaries (c :: t)) in *.
    remember (concat (map correct_word ps)) as u eqn:Eu.
    assert (Hps : concat ps = c :: t) by apply concat_split_boundaries.
    assert (Hr' : runs (map correct_word ps)) by now apply runs_correct_word.
    assert (Hu : trim u = u).
    { destruct (corrected_clean Hr) as [C1 C2]. rewrite Hps, <- Eu in C1, C2.
      apply trim_fixed; [now apply C1 | now apply C2]. }
    assert (Hsplit : split_boundaries u = map correct_word ps)
      by (rewrite Eu; now apply split_boundaries_concat).
    assert (Hne : u <> []).
    { destruct (runs_pieces Hr') as [Hn F]. rewrite Eu.
      destruct (map correct_word ps) as [|p qs]; [congruence|].
      inversion F as [|? ? [Hp _] _]; subst. cbn [concat].
      destruct p; [congruence|discriminate]. }
    assert (Hmulti : Nat.eqb (List.length (split_spaces u)) 1 = false).
    { apply Nat.eqb_neq. intro E. apply split_spaces_single in E.
      rewrite Eu in E. apply corrected_spaces in E; [|now apply runs_pieces].
      rewrite Hps in E. apply split_spaces_single in E.
      apply Nat.eqb_neq in S1. contradiction. }
    rewrite normalizeMoveInput_string, Hu, Hmulti.
    assert (Hnw : normalizeWords u = u).
    { rewrite normalizeWords_own.
      - rewrite Hsplit, map_map, Eu. f_equal.
        apply map_ext. intro w. apply correct_word_twice.
      - rewrite Hsplit. apply Forall_map.
        revert Hpieces. apply Forall_impl. intro w. apply correct_word_inherited. }
    rewrite Hnw. destruct u; [congruence|reflexivity].
Qed.


(** X17.  A single word that is, ignoring ASCII case and the white space
    around it, a canonical move or a known typo gives the canonical move in
    lower case. *)
Lemma normalizeMoveInput_single_word (raw k : jsstring) :
  map ascii_lower (trim raw) = k ->
  (In k CANONICAL -> normalizeMoveInput (VStr raw) = Some (VStr k))
  /\ (forall v, assoc k TYPO_MAP = Some v -> normalizeMoveInput (VStr raw) = Some (VStr v)).
Proof.
  intro Hk.
  assert (Hcommon : k <> [] -> forallb is_word k = true ->
                    trim raw <> [] /\ toLowerCase (trim raw) = k
                    /\ Nat.eqb (List.length (split_spaces (trim raw))) 1 = true).
  { intros Hne Hw.
    assert (F : Forall (fun c => is_word c = true) (trim raw)).
    { rewrite forallb_forall in Hw. apply Forall_forall. intros c Hc.
      rewrite <- ascii_lower_word. apply Hw. rewrite <- Hk. now apply in_map. }
    split; [intro E; rewrite E in Hk; cbn in Hk; congruence|].
    split; [now rewrite toLowerCase_word|].
    apply Nat.eqb_eq, split_spaces_single, forallb_forall. intros c Hc.
    rewrite Forall_forall in F. now rewrite (is_word_not_space _ (F c Hc)). }
  assert (Hrun : k <> [] -> forallb is_word k = true ->
                 normalizeMoveInput (VStr raw) =
                 Some (if truthy (TYPO_MAP_get k) then TYPO_MAP_get k
                       else if existsb (jseqb k) CANONICAL then VStr k
                       else VStr (trim raw))).
  { intros Hne Hw. destruct (Hcommon Hne Hw) as (Ht & Hl & Hs).
    rewrite normalizeMoveInput_string, Hs.
    destruct (trim raw) as [|c t] eqn:T; [congruence|]. rewrite <- T in *.
    unfold NormalizeInput.normalizeExact. rewrite trim_idempotent, Hl.
    destruct k; [congruence|reflexivity]. }
  split.
  - intro Hc. pose proof (CANONICAL_facts Hc) as (Hne & Hw & Ha & Hi & Hf).
    assert (Hw' : forallb is_word k = true).
    { apply forallb_forall. now apply Forall_forall. }
    rewrite (Hrun Hne Hw').
    assert (El : toLowerCase k = k).
    { rewrite (toLowerCase_word Hw). revert Hc. unfold CANONICAL. cbn [In].
      intros [<-|[<-|[<-|[<-|[]]]]]; reflexivity. }
    rewrite El in Ha, Hi. unfold inherited in Hi. unfold TYPO_MAP_get. rewrite Ha in *.
    destruct (assoc k Object_prototype_functions); [discriminate|]. rewrite Hi.
    cbn [truthy].
    assert (Ex : existsb (jseqb k) CANONICAL = true).
    { apply existsb_exists. exists k. split; [exact Hc | apply jseqb_refl]. }
    now rewrite Ex.
  - intros v Hv. pose proof (assoc_In _ _ Hv) as Hin.
    apply TYPO_MAP_entries in Hin as (Hcan & Hne & Hw & _).
    rewrite (Hrun Hne Hw). unfold TYPO_MAP_get. rewrite Hv.
    apply CANONICAL_facts in Hcan as (Hvne & _). destruct v; [congruence|reflexivity].
Qed.

(** White space only: the result is the trimmed input, the empty string. *)
Lemma normalizeMoveInput_blank (raw : jsstring) :
  forallb is_space raw = true ->
  normalizeMoveInput (VStr raw) = Some (VStr (trim raw)) /\ trim raw = [].
Proof.
  intro H. rewrite normalizeMoveInput_string, (trim_blank _ H). now split.
Qed.

(** X18.  Several words: the trimmed input is cut at the word boundaries
    and each piece is corrected on its own; a piece that is not a word is
    kept, and so is every word that is not a known typo (where no lookup
    reaches an inherited property). *)
Lemma normalizeMoveInput_phrase (raw : jsstring) :
  own_lookups_only unicode_lower raw ->
  List.length (split_spaces (trim raw)) <> 1 ->
  normalizeMoveInput (VStr raw)
  = Some (VStr (concat (map correct_word (split_boundaries (trim raw)))))
  /\ concat (split_boundaries (trim raw)) = trim raw
  /\ Forall (fun w => assoc (toLowerCase w) TYPO_MAP = None -> correct_word w = w)
       (split_boundaries (trim raw))
  /\ Forall (fun w => word_class w = false -> correct_word w = w)
       (split_boundaries (trim raw)).
Proof.
  intros [_ Hpieces] Hmulti.
  split; [|split; [apply concat_split_boundaries|split]].
  - rewrite normalizeMoveInput_string.
    destruct (trim raw) as [|c t] eqn:T; [cbn in Hmulti; congruence|].
    apply Nat.eqb_neq in Hmulti. rewrite Hmulti.
    now rewrite (normalizeWords_own _ Hpieces).
  - apply Forall_forall. intros w _ E. unfold NormalizeInput.correct_word. now rewrite E.
  - destruct (trim raw) as [|c t] eqn:T; [cbn in Hmulti; congruence|].
    pose proof (@split_boundaries_runs (c :: t) ltac:(discriminate)) as Hr.
    apply runs_pieces in Hr as [_ F]. revert F. apply Forall_impl.
    intros w [_ Hu] Hc. unfold NormalizeInput.correct_word.
    now rewrite (not_word_not_typo Hu Hc).
Qed.

End NormalizeFacts.

Lemma reference_unicode_lower (c : N) :
  (128 <= c)%N ->
  Reference.unicode_lower c = [107%N]
  \/ exists x, In x (Reference.unicode_lower c) /\ (128 <= x)%N.
Proof.
  intro H. unfold Reference.unicode_lower.
  destruct (N.eqb c 8490); [now left|]. right.
  destruct (N.eqb c 304).
  - exists 775%N. split; [right; now left | lia].
  - exists c. split; [now left | exact H].
Qed.

Lemma idempotent_phrase :
  normalizeMoveInput Reference.unicode_lower
    (VStr (lit "I choose scissors, or rock!"))
  = Some (VStr (lit "I choose scissors, or rock!")).
Proof.
  apply (@normalizeMoveInput_idempotent_own Reference.unicode_lower
           reference_unicode_lower (lit " I choose scissor, or ROK! ")).
  - split; [reflexivity|]. vm_compute. repeat constructor.
  - vm_compute. reflexivity.
Defined.

Lemma normalizeMoveInput_single_word_witness :
  normalizeMoveInput Reference.unicode_lower (VStr (lit "  Scissor "))
  = Some (VStr (lit "scissors")).
Proof.
  exact (proj2 (@normalizeMoveInput_single_word Reference.unicode_lower
                  (lit "  Scissor ") (lit "scissor") eq_refl)
           (lit "scissors") eq_refl).
Defined.

Lemma normalizeMoveInput_phrase_witness :
  normalizeMoveInput Reference.unicode_lower (VStr (lit "I choose scissor, or ROK!"))
  = Some (VStr (lit "I choose scissors, or rock!")).
Proof.
  refine (proj1 (@normalizeMoveInput_phrase Reference.unicode_lower
                   reference_unicode_lower (lit "I choose scissor, or ROK!") _ _)).
  - split; [reflexivity|]. vm_compute. repeat constructor.
  - vm_compute. lia.
Defined.

(** C10.  The claim (idempotent, only known typos change) describes what
    the file documents, but the lookup [TYPO_MAP[key]] also finds what the
    object literal inherits from [Object.prototype].  On the input
    ["constructor"] the function returns the built-in [Object] instead of a
    string, and applying it once more throws; in a phrase, the words
    [constructor] and [__proto__] are replaced although they are no typos. *)
Theorem normalizeMoveInput_inherited_keys :
  forall unicode_lower : N -> jsstring,
    normalizeMoveInput unicode_lower (VStr (lit "constructor"))
    = Some (VFunction (lit "Object"))
    /\ normalizeMoveInput unicode_lower (VFunction (lit "Object")) = None
    /\ normalizeMoveInput unicode_lower (VStr (lit "my constructor"))
       = Some (VStr (lit "my function Object() { [native code] }"))
    /\ normalizeMoveInput unicode_lower (VStr (lit "pick __proto__"))
       = Some (VStr (lit "pick [object Object]")).
Proof.
  intro unicode_lower. repeat split; vm_compute; reflexivity.
Qed.

Example normalize_single_typo :
  normalizeMoveInput Reference.unicode_lower (VStr (lit "  Scissor ")) = Some (VStr (lit "scissors")).
Proof. vm_compute. reflexivity. Qed.

Example normalize_single_canonical :
  normalizeMoveInput Reference.unicode_lower (VStr (lit "ROCK")) = Some (VStr (lit "rock")).
Proof. vm_compute. reflexivity. Qed.

Example normalize_phrase :
  normalizeMoveInput Reference.unicode_lower (VStr (lit "I choose scissor, or ROK!"))
  = Some (VStr (lit "I choose scissors, or rock!")).
Proof. vm_compute. reflexivity. Qed.

Example normalize_blank :
  normalizeMoveInput Reference.unicode_lower (VStr (lit "   ")) = Some (VStr []).
Proof. vm_compute. reflexivity. Qed.

(* ===================================================================== *)
(** * Further properties of the sources *)
(* ===================================================================== *)

Import Observed.

(* ===================================================================== *)
(** * A game as a sequence of results *)
(* ===================================================================== *)

Lemma won_by_cons (who : jsstring) (r : JudgeResult) (rs : list JudgeResult) :
  won_by who (r :: rs)
  = ((if is_str who (round_winner r) then 1 else 0) + won_by who rs)%Z.
Proof.
  unfold won_by. cbn [filter].
  destruct (is_str who (round_winner r)); cbn [List.length]; lia.
Qed.

Lemma fold_applyRoundResult (rs : list JudgeResult) :
  forall s : RoundState,
    fold_left applyRoundResult rs s =
    {| round := round s + Z.of_nat (List.length rs);
       userScore := userScore s + won_by (lit "user") rs;
       botScore := botScore s + won_by (lit "bot") rs;
       bombUsed := bomb_played rs || bombUsed s |}.
Proof.
  induction rs as [|r rs IH]; intro s.
  - cbn [fold_left List.length bomb_played existsb orb]. unfold won_by. cbn.
    destruct s; cbn. f_equal; lia.
  - cbn [fold_left]. rewrite IH, applyRoundResult_fields. cbn [round userScore botScore bombUsed].
    rewrite !won_by_cons. cbn [List.length bomb_played existsb].
    f_equal; try lia.
    + destruct (is_str (lit "user") (round_winner r)); lia.
    + destruct (is_str (lit "bot") (round_winner r)); lia.
    + fold (bomb_played rs).
      destruct (is_str (lit "bomb") (move (intent r))), (bomb_played rs), (bombUsed s); reflexivity.
Qed.

Lemma won_by_bounds (rs : list JudgeResult) :
  (0 <= won_by (lit "user") rs)%Z /\ (0 <= won_by (lit "bot") rs)%Z
  /\ (won_by (lit "user") rs + won_by (lit "bot") rs <= Z.of_nat (List.length rs))%Z.
Proof.
  induction rs as [|r rs IH].
  - unfold won_by. cbn. lia.
  - rewrite !won_by_cons. cbn [List.length].
    destruct (is_str (lit "user") (round_winner r)) eqn:U,
             (is_str (lit "bot") (round_winner r)) eqn:B; try lia.
    apply is_str_true in U. apply is_str_true in B. rewrite U in B. discriminate.
Qed.

(** X1.  The round counter counts the results applied: after [n] results
    the round is [n] more than before, whatever the results are, as long as
    the counter stays within the safe integers (it starts at [- 2^53] or
    above and ends at [2^53] or below).  A game that starts from
    [createState] is over exactly when three results or more have been
    applied. *)
Theorem game_over_after_three_results :
  (forall (rs : list JudgeResult) (s : RoundState),
      (- 2 ^ 53 <= round s)%Z ->
      (round s + Z.of_nat (List.length rs) <= 2 ^ 53)%Z ->
      round (fold_left applyRoundResult rs s) = (round s + Z.of_nat (List.length rs))%Z)
  /\ (forall rs : list JudgeResult,
         isGameOver (fold_left applyRoundResult rs createState) = true
         <-> 3 <= List.length rs).
Proof.
  split.
  - intros rs s _ _. now rewrite fold_applyRoundResult.
  - intro rs. rewrite fold_applyRoundResult. unfold isGameOver, TOTAL_ROUNDS.
    cbn [round createState]. rewrite Z.ltb_lt. lia.
Qed.

(** X2.  The scores count the rounds won: after a sequence of results the
    user's score has grown by the number of results won by the user and the
    bot's score by the number won by the bot, as long as both scores stay
    within the safe integers (each starts at [- 2^53] or above and ends at
    [2^53] or below).  So no score decreases, and the two scores together
    grow by at most one per round. *)
Theorem scores_count_rounds_won :
  forall (rs : list JudgeResult) (s : RoundState),
    (- 2 ^ 53 <= userScore s)%Z ->
    (userScore s + won_by (lit "user") rs <= 2 ^ 53)%Z ->
    (- 2 ^ 53 <= botScore s)%Z ->
    (botScore s + won_by (lit "bot") rs <= 2 ^ 53)%Z ->
    userScore (fold_left applyRoundResult rs s) = (userScore s + won_by (lit "user") rs)%Z
    /\ botScore (fold_left applyRoundResult rs s) = (botScore s + won_by (lit "bot") rs)%Z
    /\ (userScore s <= userScore (fold_left applyRoundResult rs s))%Z
    /\ (botScore s <= botScore (fold_left applyRoundResult rs s))%Z
    /\ (userScore (fold_left applyRoundResult rs s) + botScore (fold_left applyRoundResult rs s)
        <= userScore s + botScore s + Z.of_nat (List.length rs))%Z.
Proof.
  intros rs s _ _ _ _. rewrite fold_applyRoundResult. cbn [userScore botScore].
  pose proof (won_by_bounds rs). repeat split; lia.
Qed.

Lemma scores_count_rounds_won_witness :
  userScore
    (fold_left applyRoundResult
       [ {| intent := {| status := JStr (lit "VALID"); move := JStr (lit "rock");
                         reason := JStr [] |};
            round_winner := JStr (lit "user"); response := JStr []; raw := JUndefined |};
         {| intent := {| status := JStr (lit "INVALID"); move := JNull; reason := JStr [] |};
            round_winner := JNull; response := JStr []; raw := JUndefined |} ]
       createState)
  = 1%Z.
Proof.
  refine (proj1 (@scores_count_rounds_won
                   [ {| intent := {| status := JStr (lit "VALID"); move := JStr (lit "rock");
                                     reason := JStr [] |};
                        round_winner := JStr (lit "user"); response := JStr [];
                        raw := JUndefined |};
                     {| intent := {| status := JStr (lit "INVALID"); move := JNull;
                                     reason := JStr [] |};
                        round_winner := JNull; response := JStr []; raw := JUndefined |} ]
                   createState _ _ _ _)); vm_compute; discriminate.
Defined.

Lemma getFinalResult_cases (s : RoundState) :
  (getFinalResult s = lit "User wins" <-> (botScore s < userScore s)%Z)
  /\ (getFinalResult s = lit "Bot wins" <-> (userScore s < botScore s)%Z)
  /\ (getFinalResult s = lit "Draw" <-> userScore s = botScore s).
Proof.
  unfold getFinalResult.
  destruct (Z.ltb_spec (botScore s) (userScore s));
    [|destruct (Z.ltb_spec (userScore s) (botScore s))];
    repeat split; intro; try reflexivity; try lia; discriminate.
Qed.

(** X3.  The final result of a game played from [createState]: the user
    wins exactly when more results were won by the user than by the bot, the
    bot wins in the opposite case, and the game is a draw exactly when both
    won the same number of rounds (wasted turns and drawn rounds count for
    neither). *)
Theorem getFinalResult_of_game :
  forall rs : list JudgeResult,
    (getFinalResult (fold_left applyRoundResult rs createState) = lit "User wins"
     <-> (won_by (lit "bot") rs < won_by (lit "user") rs)%Z)
    /\ (getFinalResult (fold_left applyRoundResult rs createState) = lit "Bot wins"
        <-> (won_by (lit "user") rs < won_by (lit "bot") rs)%Z)
    /\ (getFinalResult (fold_left applyRoundResult rs createState) = lit "Draw"
        <-> won_by (lit "user") rs = won_by (lit "bot") rs).
Proof.
  intro rs.
  destruct (getFinalResult_cases (fold_left applyRoundResult rs createState)) as (U & B & D).
  rewrite U, B, D, fold_applyRoundResult. cbn [userScore botScore createState].
  repeat split; lia.
Qed.

(* ===================================================================== *)
(** * Credentials and models *)
(* ===================================================================== *)

(** X4.  The choice of the provider.  A key given in the options, then
    ANTHROPIC_API_KEY, selects Claude, also when a Gemini key is set; without
    them GEMINI_API_KEY, then GOOGLE_API_KEY, selects Gemini.  An empty
    string counts as no key.  No provider is returned exactly when all four
    are unset or empty, and a provider never comes with an empty key. *)
Theorem getProvider_priority :
  forall (env : Env) (options : Options),
    (AiJudge.truthy (apiKey options) = true ->
     getProvider env options = (Some claude, apiKey options))
    /\ (AiJudge.truthy (apiKey options) = false -> AiJudge.truthy (ANTHROPIC_API_KEY env) = true ->
        getProvider env options = (Some claude, ANTHROPIC_API_KEY env))
    /\ (AiJudge.truthy (apiKey options) = false -> AiJudge.truthy (ANTHROPIC_API_KEY env) = false ->
        AiJudge.truthy (GEMINI_API_KEY env) = true ->
        getProvider env options = (Some gemini, GEMINI_API_KEY env))
    /\ (AiJudge.truthy (apiKey options) = false -> AiJudge.truthy (ANTHROPIC_API_KEY env) = false ->
        AiJudge.truthy (GEMINI_API_KEY env) = false -> AiJudge.truthy (GOOGLE_API_KEY env) = true ->
        getProvider env options = (Some gemini, GOOGLE_API_KEY env))
    /\ (getProvider env options = (None, None)
        <-> AiJudge.truthy (apiKey options) = false /\ AiJudge.truthy (ANTHROPIC_API_KEY env) = false
            /\ AiJudge.truthy (GEMINI_API_KEY env) = false /\ AiJudge.truthy (GOOGLE_API_KEY env) = false)
    /\ (forall p, fst (getProvider env options) = Some p ->
          exists c key, snd (getProvider env options) = Some (c :: key)).
Proof.
  intros env options. unfold getProvider, or_else.
  destruct (AiJudge.truthy (apiKey options)) eqn:K.
  - rewrite K. repeat split; try discriminate.
    + now intros [? _].
    + intros p _. cbn [snd]. destruct (apiKey options) as [[|c key]|]; try discriminate. eauto.
  - destruct (AiJudge.truthy (ANTHROPIC_API_KEY env)) eqn:A.
    + repeat split; try discriminate.
      * now intros (_ & ? & _).
      * intros p _. cbn [snd].
        destruct (ANTHROPIC_API_KEY env) as [[|c key]|]; try discriminate. eauto.
    + destruct (AiJudge.truthy (GEMINI_API_KEY env)) eqn:G.
      * rewrite G. repeat split; try discriminate.
        -- now intros (_ & _ & ? & _).
        -- intros p _. cbn [snd].
           destruct (GEMINI_API_KEY env) as [[|c key]|]; try discriminate. eauto.
      * destruct (AiJudge.truthy (GOOGLE_API_KEY env)) eqn:O.
        -- repeat split; try discriminate.
           ++ now intros (_ & _ & _ & ?).
           ++ intros p _. cbn [snd].
              destruct (GOOGLE_API_KEY env) as [[|c key]|]; try discriminate. eauto.
        -- repeat split; discriminate.
Qed.

(** X5.  The model asked for.  A model given in the options is used as it
    is; otherwise the provider's environment variable (GEMINI_MODEL or
    ANTHROPIC_MODEL) when it is set and not empty; otherwise the provider's
    default.  The model identifier sent is never the empty string. *)
Theorem chooseModel_priority :
  forall (env : Env) (p : Provider) (options : Options),
    (forall c m, model options = Some (c :: m) -> chooseModel env p options = c :: m)
    /\ (AiJudge.truthy (model options) = false ->
        forall c m,
          match p with gemini => GEMINI_MODEL env | claude => ANTHROPIC_MODEL env end
          = Some (c :: m) ->
          chooseModel env p options = c :: m)
    /\ (AiJudge.truthy (model options) = false ->
        AiJudge.truthy match p with gemini => GEMINI_MODEL env | claude => ANTHROPIC_MODEL env end
        = false ->
        chooseModel env p options
        = match p with
          | gemini => lit "gemini-2.0-flash"
          | claude => lit "claude-3-5-haiku-latest"
          end)
    /\ chooseModel env p options <> [].
Proof.
  intros env p options. unfold chooseModel, or_else.
  split; [|split; [|split]].
  - intros c m E. now rewrite E.
  - intros Hm c m E. rewrite Hm. destruct p; now rewrite E.
  - intros Hm He. rewrite Hm. destruct p; now rewrite He.
  - destruct (model options) as [[|c m]|];
      (destruct p; [destruct (ANTHROPIC_MODEL env) as [[|c' m']|]
                   |destruct (GEMINI_MODEL env) as [[|c' m']|]]);
      cbv; intro H; discriminate H.
Qed.

(* ===================================================================== *)
(** * Recognising a rate limit *)
(* ===================================================================== *)

(** X6.  An error message is taken for a rate limit exactly when one of
    [429], [quota], [Too Many Requests], [rate limit] occurs in it, the case
    of the ASCII letters ignored.  So the answer depends on the message only
    up to the case of its letters, and text added around a recognised
    message leaves it recognised. *)
Theorem isQuotaError_occurrence :
  (forall msg : ErrorMessage,
      isQuotaError msg = true
      <-> occurs_ci (lit "429") msg \/ occurs_ci (lit "quota") msg
          \/ occurs_ci (lit "Too Many Requests") msg \/ occurs_ci (lit "rate limit") msg)
  /\ (forall msg msg' : ErrorMessage,
         map ascii_upper msg = map ascii_upper msg' -> isQuotaError msg = isQuotaError msg')
  /\ (forall pre msg post : jsstring,
         isQuotaError msg = true -> isQuotaError (pre ++ msg ++ post) = true).
Proof.
  assert (Hspec : forall msg, isQuotaError msg = true
                              <-> exists p, In p quota_patterns /\ occurs_ci p msg)
    by (intro msg; apply test_any_ci_spec).
  split; [|split].
  - intro msg. rewrite Hspec. unfold quota_patterns. split.
    + intros [p [Hp H]]. cbn [In] in Hp.
      destruct Hp as [<-|[<-|[<-|[<-|[]]]]]; auto.
    + intros [H|[H|[H|H]]]; eexists; (split; [|exact H]); cbn [In]; auto.
  - assert (Hle : forall a b, map ascii_upper a = map ascii_upper b ->
                              isQuotaError a = true -> isQuotaError b = true).
    { intros a b E. rewrite !Hspec. intros (p & Hp & pre & mid & post & -> & Hm).
      exists p. split; [exact Hp|].
      rewrite !map_app in E.
      exists (firstn (List.length pre) b),
             (firstn (List.length mid) (skipn (List.length pre) b)),
             (skipn (List.length mid) (skipn (List.length pre) b)).
      split; [now rewrite !firstn_skipn|].
      rewrite <- Hm.
      rewrite <- !firstn_map, <- !skipn_map, <- E.
      rewrite <- (length_map ascii_upper pre), skipn_app, Nat.sub_diag, skipn_all.
      cbn [app skipn].
      rewrite <- (length_map ascii_upper mid), firstn_app, Nat.sub_diag, firstn_all.
      cbn [firstn]. now rewrite app_nil_r. }
    intros msg msg' E.
    destruct (isQuotaError msg) eqn:A.
    + symmetry. now apply (Hle msg msg').
    + destruct (isQuotaError msg') eqn:B; [|reflexivity].
      rewrite (Hle msg' msg) in A; [discriminate|now symmetry|exact B].
  - intros pre msg post. rewrite !Hspec.
    intros (p & Hp & a & mid & b & -> & Hm).
    exists p. split; [exact Hp|]. exists (pre ++ a), mid, (b ++ post).
    split; [now rewrite <- !app_assoc|exact Hm].
Qed.

Section DelayFacts.

Variable ceil_ms : jsstring -> Z.

(** X7.  A rate-limit error that nowhere says [retry in] (in any case of
    the letters) is waited for the default of 10000 ms, and its summary
    tells the user to wait about 10 seconds. *)
Theorem rate_limit_default_delay :
  forall (msg : ErrorMessage) (p : Provider),
    isQuotaError msg = true ->
    includes_ci (lit "retry in ") msg = false ->
    parseRetryDelayMs ceil_ms msg = 10000%Z
    /\ shortError ceil_ms msg p = lit "Rate limit exceeded. Wait ~10s and try again.".
Proof.
  intros msg p Hq Hno.
  assert (E : parseRetryDelayMs ceil_ms msg = 10000%Z).
  { unfold parseRetryDelayMs. destruct (retry_in msg) as [cap|] eqn:R; [|reflexivity].
    apply retry_in_occurs in R. congruence. }
  split; [exact E|].
  unfold shortError. change (test_any_ci quota_patterns msg) with (isQuotaError msg).
  rewrite Hq. cbv zeta. rewrite E. reflexivity.
Qed.

End DelayFacts.

Lemma rate_limit_default_delay_witness :
  parseRetryDelayMs Reference.exact_ceil_ms (lit "HTTP 429: Too Many Requests") = 10000%Z
  /\ shortError Reference.exact_ceil_ms (lit "HTTP 429: Too Many Requests") gemini
     = lit "Rate limit exceeded. Wait ~10s and try again.".
Proof.
  apply (@rate_limit_default_delay Reference.exact_ceil_ms
           (lit "HTTP 429: Too Many Requests") gemini); vm_compute; reflexivity.
Defined.

(* ===================================================================== *)
(** * Reading the delay of a rate limit *)
(* ===================================================================== *)

Section ReadDelay.

Variable ceil_ms : jsstring -> Z.

(** X8.  Reading the delay.  When the first place where the message says
    [retry in ] (in any case of the letters) is followed by a number, with or
    without a fraction, then any white space and the letter [s] or [S], the
    delay is what the runtime computes from that number, whatever comes
    before and after. *)
Theorem parseRetryDelayMs_reads_number :
  forall (pre kw ds frac ws : jsstring) (c : N) (post : jsstring),
    map ascii_upper kw = map ascii_upper (lit "retry in ") ->
    includes_ci (lit "retry in ") (pre ++ removelast kw) = false ->
    ds <> [] -> forallb is_digit ds = true ->
    frac = [] \/ (exists fs, fs <> [] /\ forallb is_digit fs = true /\ frac = 46%N :: fs) ->
    forallb is_space ws = true ->
    ascii_upper c = 83%N ->
    retry_in (pre ++ kw ++ ds ++ frac ++ ws ++ c :: post) = Some (ds ++ frac)
    /\ parseRetryDelayMs ceil_ms (pre ++ kw ++ ds ++ frac ++ ws ++ c :: post)
       = ceil_ms (ds ++ frac).
Proof.
  intros pre kw ds frac ws c post Hkw Hfirst Hds Hdigits Hfrac Hws Hc.
  assert (R : retry_in (pre ++ kw ++ ds ++ frac ++ ws ++ c :: post) = Some (ds ++ frac));
    [|split; [exact R|unfold parseRetryDelayMs; now rewrite R]].
  set (rest := ds ++ frac ++ ws ++ c :: post).
  assert (Hlen : List.length kw = 9).
  { apply (f_equal (@List.length N)) in Hkw. rewrite !length_map in Hkw. exact Hkw. }
  assert (Hhere : retry_in_here (kw ++ rest) = Some (ds ++ frac)).
  { apply retry_in_here_spec. exists kw, ds, frac, ws, c, post.
    split; [reflexivity|split; [reflexivity|]]. auto 10. }
  clearbody rest.
  assert (Hkw' : kw = removelast kw ++ [last kw 0%N]).
  { apply app_removelast_last. intro E. rewrite E in Hlen. discriminate Hlen. }
  assert (Hlen' : List.length (removelast kw) = 8).
  { apply (f_equal (@List.length N)) in Hkw'. rewrite length_app in Hkw'.
    cbn [List.length] in Hkw'. lia. }
  induction pre as [|a pre IH].
  - cbn [app]. destruct kw as [|k0 kw']; [discriminate Hlen|].
    cbn [app retry_in]. cbn [app] in Hhere. now rewrite Hhere.
  - cbn [app includes_ci] in Hfirst.
    destruct (strip_prefix_ci (lit "retry in ") (a :: pre ++ removelast kw)) eqn:E;
      [discriminate Hfirst|].
    cbn [app retry_in]. unfold retry_in_here at 1.
    assert (Hno : strip_prefix_ci (lit "retry in ") (a :: pre ++ kw ++ rest) = None).
    { rewrite Hkw', <- !app_assoc.
      change (a :: pre ++ removelast kw ++ [last kw 0%N] ++ rest)
        with ((a :: pre) ++ removelast kw ++ [last kw 0%N] ++ rest).
      rewrite app_assoc. apply strip_prefix_ci_mismatch; [exact E|].
      cbn [app List.length]. rewrite length_app, Hlen'. cbn. lia. }
    rewrite Hno. now apply IH.
Qed.

End ReadDelay.

Lemma parseRetryDelayMs_reads_number_witness :
  parseRetryDelayMs Reference.exact_ceil_ms
    (lit "429 Too Many Requests. Please " ++ lit "Retry in " ++ lit "7" ++ lit ".845474055"
     ++ [] ++ 115%N :: lit ".")
  = 7846%Z.
Proof.
  refine (proj2 (@parseRetryDelayMs_reads_number Reference.exact_ceil_ms
                   (lit "429 Too Many Requests. Please ") (lit "Retry in ")
                   (lit "7") (lit ".845474055") [] 115%N (lit ".")
                   eq_refl eq_refl _ eq_refl _ eq_refl eq_refl)).
  - discriminate.
  - right. exists (lit "845474055"). split; [discriminate|split; reflexivity].
Defined.

(* ===================================================================== *)
(** * The runs of a round *)
(* ===================================================================== *)

Lemma parsed_well_formed (Number_toString : jsstring -> jsstring) (text : jsstring) :
  well_formed (parseStructuredOutput Number_toString text).
Proof.
  unfold parseStructuredOutput.
  destruct (try_parse Number_toString (json_text text)) as [r|] eqn:E.
  - exact (try_parse_well_formed _ _ E).
  - apply not_json_well_formed.
Qed.

Section RoundRuns.

Variable Number_toString : jsstring -> jsstring.
Variable ceil_ms : jsstring -> Z.
Variable sdk : nat -> Outcome.
Variable buildRoundPrompt : RoundState -> jsstring -> jsstring -> Z -> jsstring.
Variable env : Env.

Abbreviation judgeRound := (judgeRound Number_toString ceil_ms sdk buildRoundPrompt env).
Abbreviation parseRetryDelayMs := (parseRetryDelayMs ceil_ms).

(** The next call of the provider, by its outcome. *)
Ltac next_call E Q :=
  rewrite attempts_step; cbn [calls_made filter is_call List.length app];
  match goal with
  | |- context [sdk ?n] => destruct (sdk n) as [?text|?msg] eqn:E
  end;
  [ match goal with
    | |- context [trim ?t] => destruct (trim t) eqn:?T
    end
  | match goal with
    | |- context [andb _ (isQuotaError ?m)] => destruct (isQuotaError m) eqn:Q
    end;
    cbn [Nat.ltb Nat.leb MAX_RETRIES Nat.add andb] ].

(** The ten runs of a round with a credential. *)
Ltac all_runs Hp Hrun :=
  rewrite (judgeRound_with_provider _ _ _ _ _ _ _ _ _ Hp) in Hrun; revert Hrun;
  next_call ident:(E0) ident:(Q0);
  [ | | next_call ident:(E1) ident:(Q1);
        [ | | next_call ident:(E2) ident:(Q2) | ] | ];
  cbv beta iota; intro Hrun; apply pair_equal_spec in Hrun; destruct Hrun as [<- <-].

(** Every round ends with a well-formed result, after at most three calls. *)
Lemma judgeRound_outcomes state userInput botMove options r trace :
  judgeRound state userInput botMove options [] = (r, trace) ->
  well_formed r /\ calls_made trace <= 3.
Proof.
  intro Hrun.
  assert (Hfixed : forall short,
             well_formed no_key_result /\ well_formed no_content_result
             /\ well_formed (error_result short)).
  { intro short. unfold well_formed. cbn. repeat split; eauto 6. }
  destruct (getProvider env options) as [[p|] [key|]] eqn:Hp;
    try (unfold AiJudge.judgeRound in Hrun; rewrite Hp in Hrun;
         apply pair_equal_spec in Hrun; destruct Hrun as [<- <-];
         split; [apply (Hfixed [])|cbn; lia]).
  all_runs Hp Hrun;
    (split; [first [apply (parsed_well_formed Number_toString) | apply (Hfixed [])
                   | match goal with |- well_formed (error_result ?s) => apply (Hfixed s) end]
            |cbn [calls_made filter is_call List.length app]; lia]).
Qed.

(** X9.  The first reply ends the round.  When the provider answers its
    call number [n] (0, 1 or 2) and every call before it failed on a rate
    limit, the round makes exactly [n + 1] calls, sleeps before each call
    after the first for the delay read from the error before it, and returns
    the parsed reply with the trimmed reply text as [raw]; a reply that is
    empty after trimming gives the fixed UNCLEAR result and is not retried.
    Nothing is written after the last call. *)
Theorem judgeRound_first_reply :
  forall (state : RoundState) (userInput botMove : jsstring) (options : Options)
         (p : Provider) (key : jsstring) (n : nat) (text : jsstring)
         (r : JudgeResult) (trace : World),
    getProvider env options = (Some p, Some key) ->
    n <= 2 ->
    (forall k, k < n -> exists msg, sdk k = Threw msg /\ isQuotaError msg = true) ->
    sdk n = Replied text ->
    judgeRound state userInput botMove options [] = (r, trace) ->
    calls_made trace = S n
    /\ r = match trim text with
           | [] => no_content_result
           | _ :: _ => with_raw (parseStructuredOutput Number_toString (trim text)) (trim text)
           end
    /\ sleeps trace
       = map (fun k => match sdk k with
                       | Threw msg => parseRetryDelayMs msg
                       | Replied _ => 0%Z
                       end) (seq 0 n)
    /\ last trace (Sleep 0)
       = Call p (buildRoundPrompt state userInput botMove TOTAL_ROUNDS) key
           (chooseModel env p options).
Proof.
  intros state userInput botMove options p key n text r trace Hp Hn Hbefore Hreply Hrun.
  destruct n as [|[|[|n]]]; [| | |lia].
  - all_runs Hp Hrun; try congruence;
      assert (text0 = text) as -> by congruence; rewrite T; repeat split.
  - destruct (Hbefore 0) as (m0 & H0 & G0); [lia|].
    all_runs Hp Hrun; try congruence;
      assert (msg = m0) as -> by congruence;
      assert (text0 = text) as -> by congruence; rewrite T;
      cbn [seq map]; rewrite E0; repeat split.
  - destruct (Hbefore 0) as (m0 & H0 & G0); [lia|].
    destruct (Hbefore 1) as (m1 & H1 & G1); [lia|].
    all_runs Hp Hrun; try congruence;
      assert (msg = m0) as -> by congruence;
      assert (msg0 = m1) as -> by congruence;
      assert (text0 = text) as -> by congruence; rewrite T;
      cbn [seq map]; rewrite E0, E1; repeat split.
Qed.

(** X10.  The error that ends the round.  When call number [n] (0, 1 or
    2) throws, every call before it failed on a rate limit, and the error is
    no rate limit or the call was the third, the round makes exactly [n + 1]
    calls and does not sleep after the last one.  It returns the INVALID
    result whose reason is the summary of that error and whose response is
    the summary after [Judge error: ], and the last thing it does is to write
    the summary to the standard error. *)
Theorem judgeRound_provider_error :
  forall (state : RoundState) (userInput botMove : jsstring) (options : Options)
         (p : Provider) (key : jsstring) (n : nat) (msg : ErrorMessage)
         (r : JudgeResult) (trace : World),
    getProvider env options = (Some p, Some key) ->
    n <= 2 ->
    (forall k, k < n -> exists m, sdk k = Threw m /\ isQuotaError m = true) ->
    sdk n = Threw msg ->
    isQuotaError msg = false \/ n = 2 ->
    judgeRound state userInput botMove options [] = (r, trace) ->
    calls_made trace = S n
    /\ List.length (sleeps trace) = n
    /\ r = {| intent := {| status := JStr (lit "INVALID"); move := JNull;
                           reason := JStr (shortError ceil_ms msg p) |};
              round_winner := JNull;
              response := JStr (lit "Judge error: " ++ shortError ceil_ms msg p);
              raw := JNull |}
    /\ last trace (Sleep 0)
       = ConsoleError (lit "AI Judge error: " ++ shortError ceil_ms msg p).
Proof.
  intros state userInput botMove options p key n msg r trace Hp Hn Hbefore Hthrow Hlast Hrun.
  destruct n as [|[|[|n]]]; [| | |lia].
  - destruct Hlast as [Hlast|Hlast]; [|lia].
    all_runs Hp Hrun; try congruence;
      assert (msg0 = msg) as -> by congruence; try congruence; repeat split.
  - destruct (Hbefore 0) as (m0 & H0 & G0); [lia|].
    destruct Hlast as [Hlast|Hlast]; [|lia].
    all_runs Hp Hrun; try congruence;
      assert (msg0 = m0) as -> by congruence;
      assert (msg1 = msg) as -> by congruence; try congruence; repeat split.
  - destruct (Hbefore 0) as (m0 & H0 & G0); [lia|].
    destruct (Hbefore 1) as (m1 & H1 & G1); [lia|].
    all_runs Hp Hrun; try congruence;
      assert (msg0 = m0) as -> by congruence;
      assert (msg1 = m1) as -> by congruence;
      assert (msg2 = msg) as -> by congruence; repeat split.
Qed.

(** X11.  Whatever the provider does, [judgeRound] returns a result with
    every field populated and within its closed set.  Its [raw] is null on
    the paths without a parsed reply; otherwise the result is the parse of
    an actual reply of the provider, not empty after trimming, and [raw] is
    that trimmed reply. *)
Theorem judgeRound_well_formed :
  forall (state : RoundState) (userInput botMove : jsstring) (options : Options)
         (r : JudgeResult) (trace : World),
    judgeRound state userInput botMove options [] = (r, trace) ->
    well_formed r
    /\ (raw r = JNull
        \/ exists n text,
             n < calls_made trace /\ sdk n = Replied text /\ trim text <> []
             /\ raw r = JStr (trim text)
             /\ r = with_raw (parseStructuredOutput Number_toString (trim text)) (trim text)).
Proof.
  intros state userInput botMove options r trace Hrun.
  split; [exact (proj1 (judgeRound_outcomes _ _ _ _ Hrun))|].
  destruct (getProvider env options) as [[p|] [key|]] eqn:Hp;
    try (unfold AiJudge.judgeRound in Hrun; rewrite Hp in Hrun;
         apply pair_equal_spec in Hrun; destruct Hrun as [<- <-]; now left).
  all_runs Hp Hrun; try (now left).
  - right. exists 0, text. rewrite T. repeat split; [cbn; lia|exact E0|discriminate].
  - right. exists 1, text. rewrite T. repeat split; [cbn; lia|exact E1|discriminate].
  - right. exists 2, text. rewrite T. repeat split; [cbn; lia|exact E2|discriminate].
Qed.

(** X12.  All the calls of a round go to the provider chosen by
    [getProvider], with its key, the model chosen for it, and the prompt
    built from the state, the user's input and the bot's move for three
    rounds.  At least one call is made, and there is exactly one sleep
    between two calls: the sleeps are one fewer than the calls. *)
Theorem judgeRound_calls_uniform :
  forall (state : RoundState) (userInput botMove : jsstring) (options : Options)
         (p : Provider) (key : jsstring) (r : JudgeResult) (trace : World),
    getProvider env options = (Some p, Some key) ->
    judgeRound state userInput botMove options [] = (r, trace) ->
    Forall (fun e => is_call e = true ->
                     e = Call p (buildRoundPrompt state userInput botMove 3) key
                           (chooseModel env p options)) trace
    /\ 1 <= calls_made trace
    /\ S (List.length (sleeps trace)) = calls_made trace
    /\ hd_error trace
       = Some (Call p (buildRoundPrompt state userInput botMove 3) key
                 (chooseModel env p options)).
Proof.
  intros state userInput botMove options p key r trace Hp Hrun.
  all_runs Hp Hrun;
    (split; [repeat constructor; discriminate|]);
    cbn [calls_made filter is_call List.length app sleeps flat_map hd_error];
    repeat split; lia.
Qed.

End RoundRuns.

Lemma judgeRound_first_reply_witness :
  calls_made
    (snd (AiJudge.judgeRound Reference.print_lexeme Reference.exact_ceil_ms
            (fun n => match n with
                      | 0 => Threw (lit "quota exceeded, retry in 2s")
                      | _ => Replied (lit "  not sure  ")
                      end)
            Reference.no_prompt Reference.gemini_key
            createState (lit "rock") (lit "paper") Reference.no_options [])) = 2.
Proof.
  refine (proj1 (@judgeRound_first_reply Reference.print_lexeme Reference.exact_ceil_ms
                   (fun n => match n with
                             | 0 => Threw (lit "quota exceeded, retry in 2s")
                             | _ => Replied (lit "  not sure  ")
                             end)
                   Reference.no_prompt Reference.gemini_key
                   createState (lit "rock") (lit "paper") Reference.no_options
                   gemini (lit "k") 1 (lit "  not sure  ") _ _
                   eq_refl _ _ eq_refl (surjective_pairing _))).
  - lia.
  - intros k Hk. assert (k = 0) as -> by lia.
    exists (lit "quota exceeded, retry in 2s"). split; reflexivity.
Defined.

Lemma judgeRound_provider_error_witness :
  fst (AiJudge.judgeRound Reference.print_lexeme Reference.exact_ceil_ms
         (fun _ => Threw (lit "401 Unauthorized"))
         Reference.no_prompt Reference.gemini_key
         createState (lit "rock") (lit "paper") Reference.no_options [])
  = error_result (lit "Invalid or missing API key. Set GEMINI_API_KEY or ANTHROPIC_API_KEY.").
Proof.
  refine (proj1 (proj2 (proj2 (@judgeRound_provider_error Reference.print_lexeme
                   Reference.exact_ceil_ms (fun _ => Threw (lit "401 Unauthorized"))
                   Reference.no_prompt Reference.gemini_key
                   createState (lit "rock") (lit "paper") Reference.no_options
                   gemini (lit "k") 0 (lit "401 Unauthorized") _ _
                   eq_refl _ _ eq_refl _ (surjective_pairing _))))).
  - lia.
  - intros k Hk. lia.
  - left. reflexivity.
Defined.

Lemma judgeRound_well_formed_witness :
  well_formed
    (fst (AiJudge.judgeRound Reference.print_lexeme Reference.exact_ceil_ms
            Reference.always_rate_limited Reference.no_prompt Reference.gemini_key
            createState (lit "rock") (lit "paper") Reference.no_options [])).
Proof.
  exact (proj1 (@judgeRound_well_formed Reference.print_lexeme Reference.exact_ceil_ms
                  Reference.always_rate_limited Reference.no_prompt Reference.gemini_key
                  createState (lit "rock") (lit "paper") Reference.no_options
                  _ _ (surjective_pairing _))).
Defined.

Lemma judgeRound_calls_uniform_witness :
  1 <= calls_made
         (snd (AiJudge.judgeRound Reference.print_lexeme Reference.exact_ceil_ms
                 Reference.always_rate_limited Reference.no_prompt Reference.gemini_key
                 createState (lit "rock") (lit "paper") Reference.no_options [])).
Proof.
  exact (proj1 (proj2 (@judgeRound_calls_uniform Reference.print_lexeme Reference.exact_ceil_ms
                  Reference.always_rate_limited Reference.no_prompt Reference.gemini_key
                  createState (lit "rock") (lit "paper") Reference.no_options
                  gemini (lit "k") _ _ eq_refl (surjective_pairing _)))).
Defined.

(* ===================================================================== *)
(** * Replies in a code fence, replies that are no object *)
(* ===================================================================== *)

Lemma dropWhile_blank_app (pad s : jsstring) :
  forallb is_space pad = true -> dropWhile is_space (pad ++ s) = dropWhile is_space s.
Proof.
  induction pad as [|c pad IH]; [reflexivity|].
  cbn [forallb app dropWhile]. intro H. apply andb_true_iff in H as [Hc Hp].
  rewrite Hc. now apply IH.
Qed.

Lemma forallb_rev (p : N -> bool) (s : jsstring) : forallb p (rev s) = forallb p s.
Proof.
  induction s as [|c s IH]; [reflexivity|].
  cbn [rev forallb]. rewrite forallb_app, IH. cbn [forallb].
  rewrite andb_true_r. apply andb_comm.
Qed.

Lemma dropWhile_app_blank (s pad : jsstring) :
  forallb is_space pad = true ->
  dropWhile is_space (s ++ pad)
  = match dropWhile is_space s with
    | [] => []
    | c :: t => (c :: t) ++ pad
    end.
Proof.
  intro H. induction s as [|a s IH].
  - cbn [app dropWhile]. now apply dropWhile_all.
  - cbn [app dropWhile]. destruct (is_space a); [exact IH|reflexivity].
Qed.

(** White space around a text does not change what [trim] gives. *)
Lemma trim_padded (pad1 pad2 s : jsstring) :
  forallb is_space pad1 = true -> forallb is_space pad2 = true ->
  trim (pad1 ++ s ++ pad2) = trim s.
Proof.
  intros H1 H2. unfold trim, trimStart, trimEnd.
  rewrite (@dropWhile_blank_app pad1 _ H1), (@dropWhile_app_blank s pad2 H2).
  destruct (dropWhile is_space s) as [|c t]; [reflexivity|].
  rewrite rev_app_distr. f_equal.
  apply dropWhile_blank_app. now rewrite forallb_rev.
Qed.

Lemma strip_prefix_app (p s : jsstring) : strip_prefix p (p ++ s) = Some s.
Proof.
  induction p as [|c p IH]; [reflexivity|].
  cbn [app strip_prefix]. now rewrite N.eqb_refl.
Qed.

Lemma strip_suffix_app (p s : jsstring) : strip_suffix p (s ++ p) = Some s.
Proof.
  unfold strip_suffix. now rewrite rev_app_distr, strip_prefix_app, rev_involutive.
Qed.

Lemma trim_dropWhile (s : jsstring) : trim (dropWhile is_space s) = trim s.
Proof.
  unfold trim, trimStart. now rewrite (@dropWhile_fixed _ (dropWhile_clean s)).
Qed.

(** The capture of a fenced text, from what follows the opening fence (and
    its tag). *)
Lemma codeBlock_body (tag body : jsstring) :
  match strip_prefix (lit "json") (tag ++ body ++ lit "```") with
  | Some r' => r'
  | None => tag ++ body ++ lit "```"
  end = body ++ lit "```" ->
  codeBlock (lit "```" ++ tag ++ body ++ lit "```") = Some (dropWhile is_space body).
Proof.
  intro H. unfold codeBlock. rewrite strip_prefix_app, H.
  change (body ++ lit "```") with (body ++ 96%N :: lit "``").
  rewrite dropWhile_app_stop by reflexivity.
  change (96%N :: lit "``") with (lit "```").
  apply strip_suffix_app.
Qed.

Section FenceFacts.

Variable Number_toString : jsstring -> jsstring.

(** X13.  A code fence around the reply is transparent.  For a reply
    between [```json] and [```], with any white space around the fence and
    inside it, the text handed to [JSON.parse] is the trimmed body; the same
    holds for a fence without the tag when the fenced text does not itself
    start with [json].  So when the trimmed body is a reply that the parser
    accepts, the fenced reply gives the same result. *)
Theorem fenced_reply :
  forall (pad1 pad2 body : jsstring),
    forallb is_space pad1 = true -> forallb is_space pad2 = true ->
    json_text (pad1 ++ (lit "```json" ++ body ++ lit "```") ++ pad2) = trim body
    /\ (strip_prefix (lit "json") (body ++ lit "```") = None ->
        json_text (pad1 ++ (lit "```" ++ body ++ lit "```") ++ pad2) = trim body)
    /\ (forall r, try_parse Number_toString (trim body) = Some r ->
          parseStructuredOutput Number_toString
            (pad1 ++ (lit "```json" ++ body ++ lit "```") ++ pad2) = r).
Proof.
  intros pad1 pad2 body H1 H2.
  assert (Hfenced : forall open, trim (pad1 ++ (lit "```" ++ open ++ lit "```") ++ pad2)
                                 = lit "```" ++ open ++ lit "```").
  { intro open. rewrite (@trim_padded pad1 pad2 _ H1 H2).
    apply trim_fixed; [reflexivity|].
    rewrite !rev_app_distr. reflexivity. }
  assert (Hjson : json_text (pad1 ++ (lit "```json" ++ body ++ lit "```") ++ pad2) = trim body).
  { unfold json_text.
    change (lit "```json" ++ body ++ lit "```")
      with (lit "```" ++ (lit "json" ++ body) ++ lit "```").
    rewrite Hfenced.
    change (lit "```" ++ (lit "json" ++ body) ++ lit "```")
      with (lit "```" ++ lit "json" ++ body ++ lit "```").
    rewrite codeBlock_body by now rewrite strip_prefix_app.
    apply trim_dropWhile. }
  split; [exact Hjson|split].
  - intro Hno. unfold json_text. rewrite Hfenced.
    change (lit "```" ++ body ++ lit "```") with (lit "```" ++ [] ++ body ++ lit "```").
    rewrite codeBlock_body by (cbn [app]; now rewrite Hno).
    apply trim_dropWhile.
  - intros r Hr. unfold parseStructuredOutput. now rewrite Hjson, Hr.
Qed.

(** X14.  A reply that is valid JSON but no object.  For a number, a
    string, a boolean or an array the result is the fixed UNCLEAR intent
    [Missing intent.] with a null winner and an empty response; for [null]
    the property access throws and the result is the fallback for text that
    is not JSON. *)
Theorem reply_not_an_object :
  forall (text : jsstring) (v : JsValue),
    JSON_parse (json_text text) = Some v ->
    match v with
    | JBool _ | JNum _ | JStr _ | JArr _ =>
        parseStructuredOutput Number_toString text
        = {| intent := {| status := JStr (lit "UNCLEAR"); move := JNull;
                          reason := JStr (lit "Missing intent.") |};
             round_winner := JNull;
             response := JStr [];
             raw := JUndefined |}
    | JNull | JUndefined => parseStructuredOutput Number_toString text = not_json text
    | JObj _ => True
    end.
Proof.
  intros text v H. unfold parseStructuredOutput, try_parse. rewrite H.
  destruct v; first [reflexivity | exact I].
Qed.

End FenceFacts.

Lemma fenced_reply_witness :
  json_text ([10%N] ++ (lit "```json" ++ ([10%N] ++ jlit "{'response':'hi'}" ++ [10%N]) ++ lit "```")
             ++ lit "  ")
  = jlit "{'response':'hi'}".
Proof.
  exact (proj1 (@fenced_reply Reference.print_lexeme [10%N] (lit "  ")
                  ([10%N] ++ jlit "{'response':'hi'}" ++ [10%N]) eq_refl eq_refl)).
Defined.

Lemma reply_not_an_object_witness :
  parseStructuredOutput Reference.print_lexeme (lit "42")
  = {| intent := {| status := JStr (lit "UNCLEAR"); move := JNull;
                    reason := JStr (lit "Missing intent.") |};
       round_winner := JNull;
       response := JStr [];
       raw := JUndefined |}.
Proof.
  exact (@reply_not_an_object Reference.print_lexeme (lit "42") (JNum (lit "42")) eq_refl).
Defined.

(* ===================================================================== *)
(** * Validation is idempotent *)
(* ===================================================================== *)

(** A well-formed record written in the output shape is read back whole. *)
Lemma serialize_read_back (nts : jsstring -> jsstring) (r : JudgeResult) :
  well_formed r ->
  parseStructuredOutput nts (serialize r)
  = {| intent := intent r; round_winner := round_winner r; response := response r;
       raw := JUndefined |}.
Proof.
  intro Hwf.
  destruct (well_formed_plain Hwf) as (Ps & Pm & Pr & Pw & Pp).
  destruct Hwf as (Hs & Hm & Hw & [rs Hr] & [rp Hp]).
  unfold parseStructuredOutput, try_parse.
  rewrite json_text_serialize, (JSON_parse_serialize r Ps Pm Pr Pw Pp).
  destruct r as [[st mv rsn] w resp rw].
  cbn [intent status move reason round_winner response] in *.
  subst rsn resp.
  change (Get (record_object _) (lit "intent")) with
    (Some (JObj [(lit "status", st); (lit "move", mv); (lit "reason", JStr rs)])).
  change (Get (record_object _) (lit "round_winner")) with (Some w).
  change (Get (record_object _) (lit "response")) with (Some (JStr rp)).
  cbv beta iota.
  rewrite (parse_intent_valid nts rs Hs Hm). cbn [parse_response].
  now rewrite (parse_winner_valid Hw).
Qed.

Lemma parsed_raw (nts : jsstring -> jsstring) (text : jsstring) :
  raw (parseStructuredOutput nts text) = JUndefined.
Proof.
  unfold parseStructuredOutput, try_parse.
  destruct (JSON_parse (json_text text)) as [obj|]; [|reflexivity].
  destruct (Get obj (lit "intent")) as [i|]; [|reflexivity].
  destruct (parse_intent nts i) as [it|]; [|reflexivity].
  destruct (Get obj (lit "round_winner")) as [w|]; [|reflexivity].
  destruct (Get obj (lit "response")) as [resp|]; [|reflexivity].
  destruct (parse_response nts resp) as [rp|]; reflexivity.
Qed.

(** X15.  Validation is idempotent: whatever the parser returns for a text,
    written back in the output shape and parsed again, is returned
    unchanged.  In particular the fallback results are themselves valid
    replies. *)
Theorem parseStructuredOutput_fixed_point :
  forall (nts : jsstring -> jsstring) (text : jsstring),
    parseStructuredOutput nts (serialize (parseStructuredOutput nts text))
    = parseStructuredOutput nts text.
Proof.
  intros nts text.
  assert (Hwf : well_formed (parseStructuredOutput nts text)).
  { unfold parseStructuredOutput.
    destruct (try_parse nts (json_text text)) as [r|] eqn:E.
    - exact (@try_parse_well_formed _ _ _ E).
    - apply not_json_well_formed. }
  rewrite (@serialize_read_back nts _ Hwf).
  pose proof (parsed_raw nts text) as Hraw.
  destruct (parseStructuredOutput nts text) as [it w resp rw].
  cbn [raw intent round_winner response] in *. now subst rw.
Qed.

(* ===================================================================== *)
(** * Spelling normalisation: missing input, text without typos *)
(* ===================================================================== *)

(** X19.  Missing and blank input.  An input that is undefined, or a
    string of white space only, gives the empty string.  On a string the
    function never throws, and what it returns is never undefined (and is
    truthy unless the input is blank). *)
Theorem normalizeMoveInput_missing_or_blank :
  forall unicode_lower : N -> jsstring,
    normalizeMoveInput unicode_lower VUndefined = Some (VStr [])
    /\ (forall raw, forallb is_space raw = true ->
          normalizeMoveInput unicode_lower (VStr raw) = Some (VStr []))
    /\ (forall raw, exists v,
          normalizeMoveInput unicode_lower (VStr raw) = Some v
          /\ v <> VUndefined
          /\ (trim raw <> [] -> NormalizeInput.truthy v = true)).
Proof.
  intro unicode_lower. split; [reflexivity|split].
  - intros raw H. now rewrite normalizeMoveInput_string, (trim_blank _ H).
  - intro raw. rewrite normalizeMoveInput_string.
    destruct (trim_clean raw) as [Hs _].
    destruct (trim raw) as [|c t] eqn:T.
    { eexists. split; [reflexivity|]. split; [discriminate|congruence]. }
    destruct (Nat.eqb (List.length (split_spaces (c :: t))) 1).
    + eexists. split; [reflexivity|].
      unfold normalizeExact.
      destruct (toLowerCase unicode_lower (trim (c :: t))) as [|k key].
      { split; [discriminate|reflexivity]. }
      destruct (NormalizeInput.truthy (TYPO_MAP_get (k :: key))) eqn:Tr.
      * split; [|intros _; exact Tr].
        intro E. rewrite E in Tr. discriminate.
      * destruct (existsb (jseqb (k :: key)) CANONICAL);
          (split; [discriminate|reflexivity]).
    + eexists. split; [reflexivity|]. split; [discriminate|].
      intros _. unfold normalizeWords.
      destruct (split_boundaries_head c t) as (p & ps & ->).
      cbn [map concat].
      destruct (NormalizeInput.truthy (TYPO_MAP_get (toLowerCase unicode_lower (c :: p)))) eqn:Tr.
      * destruct (TYPO_MAP_get (toLowerCase unicode_lower (c :: p))) as [|s|f|];
          try discriminate.
        -- cbn [to_text]. destruct s; [discriminate|reflexivity].
        -- reflexivity.
        -- reflexivity.
      * reflexivity.
Qed.

Section KeepsText.

Variable unicode_lower : N -> jsstring.

(** X20.  Text without typos comes back as it is, trimmed.  Where no
    lookup reaches an inherited property: an input of several words none of
    whose pieces is a key of the typo table is returned trimmed and otherwise
    unchanged, and so is a single word that is neither such a key nor,
    in lower case, a canonical move. *)
Theorem normalizeMoveInput_keeps_other_text :
  forall raw : jsstring,
    own_lookups_only unicode_lower raw ->
    (List.length (split_spaces (trim raw)) <> 1 ->
     Forall (fun w => assoc (toLowerCase unicode_lower w) TYPO_MAP = None)
       (split_boundaries (trim raw)) ->
     normalizeMoveInput unicode_lower (VStr raw) = Some (VStr (trim raw)))
    /\ (List.length (split_spaces (trim raw)) = 1 ->
        assoc (toLowerCase unicode_lower (trim raw)) TYPO_MAP = None ->
        existsb (jseqb (toLowerCase unicode_lower (trim raw))) CANONICAL = false ->
        normalizeMoveInput unicode_lower (VStr raw) = Some (VStr (trim raw))).
Proof.
  intros raw [Hkey Hpieces]. rewrite normalizeMoveInput_string. split.
  - intros Hmulti Hnone.
    destruct (trim raw) as [|c t] eqn:T; [cbn in Hmulti; congruence|].
    apply Nat.eqb_neq in Hmulti. rewrite Hmulti.
    rewrite (@normalizeWords_own unicode_lower _ Hpieces).
    do 2 f_equal.
    rewrite <- (concat_split_boundaries (c :: t)) at 2. f_equal.
    rewrite <- (map_id (split_boundaries (c :: t))) at 2.
    apply map_ext_in. intros w Hw. rewrite Forall_forall in Hnone.
    unfold correct_word. now rewrite (Hnone w Hw).
  - intros Hone Hnone Hcanon.
    destruct (trim raw) as [|c t] eqn:T; [reflexivity|].
    apply Nat.eqb_eq in Hone. rewrite Hone. rewrite <- T in *.
    unfold normalizeExact. rewrite trim_idempotent.
    destruct (toLowerCase unicode_lower (trim raw)) as [|k key] eqn:K; [reflexivity|].
    unfold inherited in Hkey. unfold TYPO_MAP_get. rewrite Hnone in *.
    destruct (assoc (k :: key) Object_prototype_functions); [discriminate Hkey|].
    rewrite Hkey. cbn [NormalizeInput.truthy]. now rewrite Hcanon.
Qed.

End KeepsText.

Lemma normalizeMoveInput_keeps_other_text_witness :
  normalizeMoveInput Reference.unicode_lower (VStr (lit "  paper beats Rock, right? "))
  = Some (VStr (lit "paper beats Rock, right?")).
Proof.
  refine (proj1 (@normalizeMoveInput_keeps_other_text Reference.unicode_lower
                   (lit "  paper beats Rock, right? ") _) _ _).
  - split; [reflexivity|]. vm_compute. repeat constructor.
  - vm_compute. lia.
  - vm_compute. repeat constructor.
Defined.

(* ===================================================================== *)
(** * The prompt of a round *)
(* ===================================================================== *)

Import RulesAndPrompt.

Lemma lines_app (a b : list jsstring) : lines (a ++ b) = lines a ++ lines b.
Proof. unfold lines. now rewrite map_app, concat_app. Qed.

(** The prompt, cut before the answer to the last-round question. *)
Lemma buildRoundPrompt_cut (state : RoundState) (userInput botMove : jsstring) (total : Z) :
  buildRoundPrompt state userInput botMove total
  = (RULES ++ [10%N] ++ OUTPUT_SCHEMA ++ [10%N] ++ this_round state
     ++ lit "- **User's message (free text):** " ++ [quote] ++ userInput ++ [quote; 10%N])
    ++ (lit "- **Bot's move (already chosen):** " ++ botMove ++ [10%N]
        ++ lit "- **Is this the last round of the game?** ")
    ++ yes_no (Z.leb total (round state)) ++ [10%N] ++ your_task.
Proof.
  unfold buildRoundPrompt. cbv zeta.
  change (lines [?a; ?b; ?c]) with ((a ++ [10%N]) ++ (b ++ [10%N]) ++ (c ++ [10%N]) ++ []).
  rewrite app_nil_r, <- !app_assoc. reflexivity.
Qed.

(** X21.  What the prompt tells the judge about the game.  After the rules
    and the output format it opens with the round number, the scores and the
    bomb flag of the state and the user's message between double quotes,
    character for character.  For a game played from [createState] these are
    one more than the number of results so far, the numbers of rounds won by
    each side, and whether some result carried the move bomb.  Whatever the
    user's message and the bot's move contain, the prompt ends with the
    answer [Yes] to the last-round question and the task section exactly
    when the round has reached the total: in a game of three rounds, when
    two results or more have been applied. *)
Theorem buildRoundPrompt_tells_the_game :
  (forall (state : RoundState) (userInput botMove : jsstring) (total : Z),
      starts_with
        (RULES ++ [10%N] ++ OUTPUT_SCHEMA ++ [10%N] ++ this_round state
         ++ lit "- **User's message (free text):** " ++ [quote] ++ userInput ++ [quote; 10%N])
        (buildRoundPrompt state userInput botMove total)
      /\ (ends_with (lit "Yes" ++ [10%N] ++ your_task)
            (buildRoundPrompt state userInput botMove total)
          <-> (total <= round state)%Z)
      /\ (ends_with (lit "No" ++ [10%N] ++ your_task)
            (buildRoundPrompt state userInput botMove total)
          <-> (round state < total)%Z))
  /\ (forall (rs : list JudgeResult) (userInput botMove : jsstring),
         this_round (fold_left applyRoundResult rs createState)
         = lines [ [];
                   lit "---";
                   [];
                   lit "## This round";
                   [];
                   lit "- **Round number:** " ++ decimal (N.of_nat (S (List.length rs)));
                   lit "- **Current scores:** User " ++ decimalZ (won_by (lit "user") rs)
                     ++ lit " " ++ [em_dash] ++ lit " Bot " ++ decimalZ (won_by (lit "bot") rs);
                   lit "- **Bomb already used by user this game?** "
                     ++ (if bomb_played rs then lit "Yes" else lit "No") ]
         /\ (ends_with (lit "Yes" ++ [10%N] ++ your_task)
               (buildRoundPrompt (fold_left applyRoundResult rs createState)
                  userInput botMove TOTAL_ROUNDS)
             <-> 2 <= List.length rs)).
Proof.
  assert (Hend : forall state userInput botMove total,
             (ends_with (lit "Yes" ++ [10%N] ++ your_task)
                (buildRoundPrompt state userInput botMove total)
              <-> (total <= round state)%Z)
             /\ (ends_with (lit "No" ++ [10%N] ++ your_task)
                   (buildRoundPrompt state userInput botMove total)
                 <-> (round state < total)%Z)).
  { intros state userInput botMove total. rewrite buildRoundPrompt_cut.
    set (head := RULES ++ _). set (mid := lit "- **Bot's move (already chosen):** " ++ _).
    unfold ends_with.
    assert (Hclash : forall pre a b, rev a <> [] -> rev b <> [] ->
                                    hd 0%N (rev a) <> hd 0%N (rev b) ->
                                    (head ++ mid ++ b ++ [10%N] ++ your_task
                                     = pre ++ a ++ [10%N] ++ your_task) -> False).
    { intros pre a b Ha Hb Hab E. rewrite !app_assoc in E.
      apply app_inv_tail in E. apply app_inv_tail in E.
      apply (f_equal (@rev N)) in E. rewrite !rev_app_distr in E.
      destruct (rev a), (rev b); try congruence. cbn [app hd] in *. congruence. }
    destruct (Z.leb_spec total (round state)) as [L|L]; cbn [yes_no].
    - split; split.
      + intros _; lia.
      + intros _. exists (head ++ mid). now rewrite <- ?app_assoc.
      + intros [pre E]. exfalso.
        apply (Hclash pre (lit "No") (lit "Yes")) in E;
          [exact E|discriminate|discriminate|discriminate].
      + intro; exfalso; lia.
    - split; split.
      + intros [pre E]. exfalso.
        apply (Hclash pre (lit "Yes") (lit "No")) in E;
          [exact E|discriminate|discriminate|discriminate].
      + intro; exfalso; lia.
      + intros _; lia.
      + intros _. exists (head ++ mid). now rewrite <- ?app_assoc. }
  split.
  - intros state userInput botMove total. split; [|apply Hend].
    rewrite buildRoundPrompt_cut. eexists. rewrite <- !app_assoc. reflexivity.
  - intros rs userInput botMove. split.
    + rewrite fold_applyRoundResult. unfold this_round.
      cbn [round userScore botScore bombUsed createState].
      rewrite orb_false_r, !Z.add_0_l.
      replace (decimalZ (1 + Z.of_nat (List.length rs)))
        with (decimal (N.of_nat (S (List.length rs)))); [reflexivity|].
      unfold decimalZ.
      destruct (1 + Z.of_nat (List.length rs))%Z as [|q|q] eqn:E; try lia.
      f_equal. lia.
    + rewrite (proj1 (Hend _ _ _ _)), fold_applyRoundResult.
      cbn [round createState]. unfold TOTAL_ROUNDS. lia.
Qed.

(* ===================================================================== *)
(** * The game loop *)
(* ===================================================================== *)

Import Cli.

Lemma questions_app (a b : list Output) : questions (a ++ b) = questions a + questions b.
Proof. unfold questions. now rewrite filter_app, length_app. Qed.

Lemma rounds_judged_app (a b : list Output) :
  rounds_judged (a ++ b) = rounds_judged a + rounds_judged b.
Proof. unfold rounds_judged. now rewrite filter_app, length_app. Qed.

Lemma provider_calls_app (a b : list Output) :
  provider_calls (a ++ b) = provider_calls a + provider_calls b.
Proof.
  unfold provider_calls. induction a as [|o a IH]; [reflexivity|].
  cbn [app fold_right]. rewrite IH. destruct o; lia.
Qed.

(** The lines that report a result are lines of the standard output. *)
Lemma shown_result_logs (result : JudgeResult) :
  Forall (fun o => exists line, o = Log line) (shown_result result).
Proof.
  unfold shown_result. destruct (text_of (reason (intent result))); repeat constructor; eauto.
Qed.

Lemma logs_count (out : list Output) :
  Forall (fun o => exists line, o = Log line) out ->
  questions out = 0 /\ rounds_judged out = 0 /\ provider_calls out = 0
  /\ Forall (fun o => is_exit o = false /\ o <> LogError) out.
Proof.
  induction 1 as [|o out [line ->] _ (Q & J & C & E)].
  - repeat split. constructor.
  - repeat split; [exact Q|exact J|exact C|].
    constructor; [split; [reflexivity|discriminate]|exact E].
Qed.

(** What a judged round adds to the counts. *)
Lemma round_output_count (state : RoundState) (result : JudgeResult) (actions : World) :
  questions (round_output state result actions) = 1
  /\ rounds_judged (round_output state result actions) = 1
  /\ provider_calls (round_output state result actions) = calls_made actions
  /\ Forall (fun o => is_exit o = false /\ o <> LogError) (round_output state result actions).
Proof.
  unfold round_output.
  destruct (logs_count (shown_result_logs result)) as (Q & J & C & E).
  rewrite questions_app, rounds_judged_app, provider_calls_app, Q, J, C.
  repeat split; [cbn; lia|].
  apply Forall_app. split; [|exact E].
  repeat constructor; discriminate.
Qed.

Lemma banner_count :
  questions banner = 0 /\ rounds_judged banner = 0 /\ provider_calls banner = 0
  /\ Forall (fun o => is_exit o = false /\ o <> LogError) banner.
Proof. apply logs_count. unfold banner. repeat constructor; eauto. Qed.

Lemma quit_output_count (state : RoundState) :
  questions (quit_output state) = 1 /\ rounds_judged (quit_output state) = 0
  /\ provider_calls (quit_output state) = 0
  /\ quit_output state
     = [Log (round_header state); Question (lit "Your move (free text): ")]
       ++ [Log (lit "Game ended."); Exit 0].
Proof. repeat split. Qed.

Lemma final_report_count (state : RoundState) :
  questions (final_report state) = 0 /\ rounds_judged (final_report state) = 0
  /\ provider_calls (final_report state) = 0.
Proof. repeat split. Qed.

(** The counts of every round, of every exit and of the report in the
    goal. *)
Ltac tally :=
  repeat match goal with
         | |- context [round_output ?s ?r ?a] =>
             lazymatch goal with
             | _ : questions (round_output s r a) = 1 |- _ => fail
             | _ => destruct (round_output_count s r a) as (? & ? & ? & ?)
             end
         | |- context [quit_output ?s] =>
             lazymatch goal with
             | _ : questions (quit_output s) = 1 |- _ => fail
             | _ => destruct (quit_output_count s) as (? & ? & ? & _)
             end
         | |- context [final_report ?s] =>
             lazymatch goal with
             | _ : questions (final_report s) = 0 |- _ => fail
             | _ => destruct (final_report_count s) as (? & ? & ?)
             end
         end;
  destruct banner_count as (? & ? & ? & ?);
  rewrite ?questions_app, ?rounds_judged_app, ?provider_calls_app.

(** A property of all outputs, piece by piece. *)
Ltac pieces tac :=
  lazymatch goal with
  | |- Forall _ (_ ++ _) => apply Forall_app; split; [tac | pieces tac]
  | |- _ => tac
  end.

(** Any case of the letters of [quit] and [exit] is understood. *)
Lemma wants_out_word (unicode_lower : N -> jsstring) (s : jsstring) :
  map ascii_lower s = lit "quit" \/ map ascii_lower s = lit "exit" ->
  wants_out unicode_lower s = true.
Proof.
  intro H.
  assert (F : Forall (fun c => is_word c = true) s).
  { apply Forall_forall. intros c Hc. rewrite <- ascii_lower_word.
    apply (in_map ascii_lower) in Hc.
    destruct H as [H|H]; rewrite H in Hc; cbn in Hc;
      repeat (destruct Hc as [<-|Hc]; [reflexivity|]); destruct Hc. }
  unfold wants_out. rewrite (toLowerCase_word unicode_lower F).
  destruct H as [-> | ->]; reflexivity.
Qed.

Section LoopFacts.

Variable Number_toString : jsstring -> jsstring.
Variable ceil_ms : jsstring -> Z.
Variable unicode_lower : N -> jsstring.
Variable env : Env.
Variable sdk : nat -> nat -> Outcome.
Variable answers : nat -> jsstring.
Variable random_index : nat -> nat.

Abbreviation turn := (turn Number_toString ceil_ms unicode_lower env sdk answers random_index).
Abbreviation play := (play Number_toString ceil_ms unicode_lower env sdk answers random_index).
Abbreviation main := (main Number_toString ceil_ms unicode_lower env sdk answers random_index).
Abbreviation judged :=
  (judged Number_toString ceil_ms unicode_lower env sdk answers random_index).
Abbreviation report := (report Number_toString).

(** The user's answer to the question of round [k] asks to leave. *)
Abbreviation leaves k := (wants_out unicode_lower (trim (answers k))).

Lemma report_well_formed (result : JudgeResult) (next : Step) :
  well_formed result -> report result next = (next, shown_result result).
Proof.
  intros (Hs & _ & _ & [rs Hr] & [rp Hp]).
  apply in_map_iff in Hs as [st [Hs _]].
  unfold Cli.report, shown_result. rewrite <- Hs, Hr, Hp.
  cbn [ToString text_of truthy_value]. destruct rs; reflexivity.
Qed.

Abbreviation judged_well :=
  (judged_well Number_toString ceil_ms unicode_lower env sdk answers random_index).

Lemma turn_cases (k : nat) (state : RoundState) :
  (leaves k = true /\ turn k state = (Quit, quit_output state))
  \/ (leaves k = false
      /\ exists result actions,
           judged_well k state result actions
           /\ turn k state
              = (Continue (applyRoundResult state result), round_output state result actions)).
Proof.
  unfold Cli.turn, Cli.judged_well, Cli.judged.
  destruct (leaves k); [left; now split|right; split; [reflexivity|]].
  rewrite normalizeMoveInput_string.
  set (v := match trim (trim (answers k)) with
            | [] => Some (VStr [])
            | _ :: _ => _
            end).
  assert (Hv : exists n, v = Some n).
  { subst v. destruct (trim (trim (answers k))); [eauto|].
    destruct (Nat.eqb _ 1); eauto. }
  destruct Hv as [n ->].
  destruct (judgeRound Number_toString ceil_ms (sdk k) RulesAndPrompt.buildRoundPrompt env
              state (template_text n) (template_move (randomBotMove (random_index k)))
              default_options []) as [result actions] eqn:Hrun.
  destruct (judgeRound_outcomes _ _ _ _ _ _ _ _ _ Hrun) as [Hwf Hcalls].
  exists result, actions. split; [split; [reflexivity|split; assumption]|].
  now rewrite (report_well_formed _ Hwf).
Qed.

Lemma isGameOver_step (state : RoundState) (result : JudgeResult) :
  isGameOver (applyRoundResult state result) = Z.ltb 3 (round state + 1).
Proof. unfold isGameOver. now rewrite applyRoundResult_fields. Qed.

Lemma round_step (state : RoundState) (result : JudgeResult) :
  round (applyRoundResult state result) = (round state + 1)%Z.
Proof. now rewrite applyRoundResult_fields. Qed.

Lemma play_step (fuel k : nat) (state : RoundState) :
  play (S fuel) k state =
  if isGameOver state then (GameOver state, [])
  else match turn k state with
       | (Continue next, out) =>
           let '(ending, rest) := play fuel (S k) next in (ending, out ++ rest)
       | (Quit, out) => (Exited, out)
       | (Throw, out) => (Thrown, out)
       end.
Proof. reflexivity. Qed.

(** The four ways the game can go: the user leaves at the first, the second
    or the third question, or three rounds are judged. *)
Lemma main_cases :
  (leaves 0 = true /\ main = banner ++ quit_output createState)
  \/ (leaves 0 = false
      /\ exists r0 a0,
           judged_well 0 createState r0 a0
           /\ ((leaves 1 = true
                /\ main = banner ++ round_output createState r0 a0
                          ++ quit_output (applyRoundResult createState r0))
               \/ (leaves 1 = false
                   /\ exists r1 a1,
                        judged_well 1 (applyRoundResult createState r0) r1 a1
                        /\ ((leaves 2 = true
                             /\ main = banner ++ round_output createState r0 a0
                                       ++ round_output (applyRoundResult createState r0) r1 a1
                                       ++ quit_output (fold_left applyRoundResult [r0; r1] createState))
                            \/ (leaves 2 = false
                                /\ exists r2 a2,
                                     judged_well 2 (fold_left applyRoundResult [r0; r1] createState) r2 a2
                                     /\ main = banner ++ round_output createState r0 a0
                                               ++ round_output (applyRoundResult createState r0) r1 a1
                                               ++ round_output (fold_left applyRoundResult [r0; r1] createState) r2 a2
                                               ++ final_report (fold_left applyRoundResult [r0; r1; r2] createState)))))).
Proof.
  unfold Cli.main. change (S (Z.to_nat TOTAL_ROUNDS)) with 4.
  cbn [fold_left].
  rewrite play_step. change (isGameOver createState) with false. cbv iota.
  destruct (turn_cases 0 createState) as [[L0 E0]|[L0 (r0 & a0 & J0 & E0)]]; rewrite E0.
  { left. now split. }
  right. split; [exact L0|]. exists r0, a0. split; [exact J0|].
  set (s1 := applyRoundResult createState r0).
  rewrite play_step.
  assert (G1 : isGameOver s1 = false) by (subst s1; now rewrite isGameOver_step).
  rewrite G1.
  destruct (turn_cases 1 s1) as [[L1 E1]|[L1 (r1 & a1 & J1 & E1)]]; rewrite E1.
  { left. now split. }
  right. split; [exact L1|]. exists r1, a1. split; [exact J1|].
  set (s2 := applyRoundResult s1 r1).
  rewrite play_step.
  assert (G2 : isGameOver s2 = false)
    by (subst s2 s1; now rewrite isGameOver_step, round_step).
  rewrite G2.
  destruct (turn_cases 2 s2) as [[L2 E2]|[L2 (r2 & a2 & J2 & E2)]]; rewrite E2.
  { left. split; [exact L2|]. reflexivity. }
  right. split; [exact L2|]. exists r2, a2. split; [exact J2|].
  set (s3 := applyRoundResult s2 r2).
  rewrite play_step.
  assert (G3 : isGameOver s3 = true)
    by (subst s3 s2 s1; now rewrite isGameOver_step, !round_step).
  rewrite G3. cbv beta iota zeta. now rewrite ?app_nil_r, <- ?app_assoc.
Qed.

(** X22.  The command-line game always ends in an orderly exit.  Whatever
    the user types, the provider answers and the random numbers are, [main]
    throws nothing (no error is reported, no exit with code 1): its last
    action is the only exit, with code 0.  It asks at most three questions,
    judges at most as many rounds as it asked questions, and makes at most
    three provider calls per judged round, nine in all. *)
Theorem main_exits_in_order :
  exists out,
    main = out ++ [Exit 0]
    /\ Forall (fun o => is_exit o = false /\ o <> LogError) out
    /\ questions main <= 3
    /\ rounds_judged main <= questions main
    /\ provider_calls main <= 3 * rounds_judged main
    /\ provider_calls main <= 9.
Proof.
  assert (Hquiet : forall l, Forall (fun o => exists line, o = Log line \/ o = Question line) l ->
                             Forall (fun o => is_exit o = false /\ o <> LogError) l).
  { intros l. apply Forall_impl. intros o [line [-> | ->]]; (split; [reflexivity|discriminate]). }
  destruct main_cases
    as [[_ ->]|[_ (r0 & a0 & (_ & _ & C0) &
         [[_ ->]|[_ (r1 & a1 & (_ & _ & C1) &
           [[_ ->]|[_ (r2 & a2 & (_ & _ & C2) & ->)]])]])]].
  - exists (banner ++ [Log (round_header createState);
                       Question (lit "Your move (free text): "); Log (lit "Game ended.")]).
    split; [now rewrite <- app_assoc|]. split; [|tally; lia].
    pieces ltac:(first [apply banner_count | apply round_output_count
                       | apply Hquiet; repeat constructor; eauto]).
  - exists (banner ++ round_output createState r0 a0
            ++ [Log (round_header (applyRoundResult createState r0));
                Question (lit "Your move (free text): "); Log (lit "Game ended.")]).
    split; [now rewrite <- !app_assoc|]. split; [|tally; lia].
    pieces ltac:(first [apply banner_count | apply round_output_count
                       | apply Hquiet; repeat constructor; eauto]).
  - exists (banner ++ round_output createState r0 a0
            ++ round_output (applyRoundResult createState r0) r1 a1
            ++ [Log (round_header (fold_left applyRoundResult [r0; r1] createState));
                Question (lit "Your move (free text): "); Log (lit "Game ended.")]).
    split; [now rewrite <- !app_assoc|]. split; [|tally; lia].
    pieces ltac:(first [apply banner_count | apply round_output_count
                       | apply Hquiet; repeat constructor; eauto]).
  - set (final := fold_left applyRoundResult [r0; r1; r2] createState).
    exists (banner ++ round_output createState r0 a0
            ++ round_output (applyRoundResult createState r0) r1 a1
            ++ round_output (fold_left applyRoundResult [r0; r1] createState) r2 a2
            ++ [Log (lit "--- Final result ---");
                Log (lit "Scores: User " ++ decimalZ (userScore final) ++ lit " " ++ [en_dash]
                     ++ lit " Bot " ++ decimalZ (botScore final));
                Log (getFinalResult final ++ lit "." ++ [10%N])]).
    split; [now rewrite <- !app_assoc|]. split; [|tally; lia].
    pieces ltac:(first [apply banner_count | apply round_output_count
                       | apply Hquiet; repeat constructor; eauto]).
Qed.

(** X23.  A game in which the user never asks to leave is played to its
    end: three rounds are asked and judged, each on the state that the
    results before it give, and the output is the banner, the three rounds
    and the final report of the state after the three results.  That state
    is in round 4, the game is over, and its scores are the numbers of
    rounds won: none negative, three at most together. *)
Theorem main_full_game :
  leaves 0 = false -> leaves 1 = false -> leaves 2 = false ->
  exists r0 a0 r1 a1 r2 a2,
    judged_well 0 createState r0 a0
    /\ judged_well 1 (fold_left applyRoundResult [r0] createState) r1 a1
    /\ judged_well 2 (fold_left applyRoundResult [r0; r1] createState) r2 a2
    /\ main = banner
              ++ round_output createState r0 a0
              ++ round_output (fold_left applyRoundResult [r0] createState) r1 a1
              ++ round_output (fold_left applyRoundResult [r0; r1] createState) r2 a2
              ++ final_report (fold_left applyRoundResult [r0; r1; r2] createState)
    /\ questions main = 3 /\ rounds_judged main = 3
    /\ round (fold_left applyRoundResult [r0; r1; r2] createState) = 4%Z
    /\ isGameOver (fold_left applyRoundResult [r0; r1; r2] createState) = true
    /\ userScore (fold_left applyRoundResult [r0; r1; r2] createState)
       = won_by (lit "user") [r0; r1; r2]
    /\ botScore (fold_left applyRoundResult [r0; r1; r2] createState)
       = won_by (lit "bot") [r0; r1; r2]
    /\ (0 <= won_by (lit "user") [r0; r1; r2])%Z /\ (0 <= won_by (lit "bot") [r0; r1; r2])%Z
    /\ (won_by (lit "user") [r0; r1; r2] + won_by (lit "bot") [r0; r1; r2] <= 3)%Z.
Proof.
  intros L0 L1 L2.
  destruct main_cases
    as [[X _]|[_ (r0 & a0 & J0 &
         [[X _]|[_ (r1 & a1 & J1 &
           [[X _]|[_ (r2 & a2 & J2 & E)]])]])]]; try congruence.
  exists r0, a0, r1, a1, r2, a2.
  split; [exact J0|]. split; [exact J1|]. split; [exact J2|]. split; [exact E|].
  pose proof (won_by_bounds [r0; r1; r2]) as (B1 & B2 & B3). cbn [List.length] in B3.
  rewrite E, (fold_applyRoundResult [r0; r1; r2]).
  cbn [round userScore botScore createState List.length fold_left].
  unfold isGameOver. cbn [round].
  split; [tally; lia|]. split; [tally; lia|].
  repeat split; try reflexivity; lia.
Qed.

(** X24.  Leaving the game.  When the answer to the question of round
    [k + 1] is [quit] or [exit], in any case of the letters and with any
    white space around it, [main] prints [Game ended.] and exits with code 0
    at once: the rounds before were judged, this one is not, no provider call
    is made for it, and no final result is printed. *)
Theorem main_quit :
  forall k : nat,
    k < 3 ->
    (forall j, j < k -> leaves j = false) ->
    map ascii_lower (trim (answers k)) = lit "quit"
    \/ map ascii_lower (trim (answers k)) = lit "exit" ->
    (exists out, main = out ++ [Log (lit "Game ended."); Exit 0])
    /\ questions main = S k
    /\ rounds_judged main = k
    /\ ~ In (Log (lit "--- Final result ---")) main.
Proof.
  intros k Hk Hbefore Hword.
  pose proof (wants_out_word unicode_lower _ Hword) as Hout.
  assert (Hnot : forall l, Forall (fun o => o <> Log (lit "--- Final result ---")) l ->
                           ~ In (Log (lit "--- Final result ---")) l).
  { intros l F Hin. rewrite Forall_forall in F. now apply (F _ Hin). }
  assert (Hround : forall s r a,
             Forall (fun o => o <> Log (lit "--- Final result ---")) (round_output s r a)).
  { intros s r a. unfold round_output, shown_result.
    destruct (text_of (reason (intent r))); repeat constructor; discriminate. }
  assert (Hquit : forall s,
             Forall (fun o => o <> Log (lit "--- Final result ---")) (quit_output s)).
  { intro s. unfold quit_output. repeat constructor; discriminate. }
  assert (Hbanner : Forall (fun o => o <> Log (lit "--- Final result ---")) banner).
  { unfold banner. repeat constructor; discriminate. }
  destruct main_cases
    as [[L0 E]|[L0 (r0 & a0 & _ &
         [[L1 E]|[L1 (r1 & a1 & _ &
           [[L2 E]|[L2 (r2 & a2 & _ & E)]])]])]].
  - destruct k as [|k]; [|rewrite (Hbefore 0) in L0 by lia; discriminate].
    rewrite E. split; [|split; [tally; lia|split; [tally; lia|]]].
    + exists (banner ++ [Log (round_header createState);
                         Question (lit "Your move (free text): ")]).
      now rewrite <- app_assoc.
    + apply Hnot. pieces ltac:(first [exact Hbanner | apply Hquit | apply Hround]).
  - destruct k as [|[|k]]; [congruence| |rewrite (Hbefore 1) in L1 by lia; discriminate].
    rewrite E. split; [|split; [tally; lia|split; [tally; lia|]]].
    + exists (banner ++ round_output createState r0 a0
              ++ [Log (round_header (applyRoundResult createState r0));
                  Question (lit "Your move (free text): ")]).
      now rewrite <- !app_assoc.
    + apply Hnot. pieces ltac:(first [exact Hbanner | apply Hquit | apply Hround]).
  - destruct k as [|[|[|k]]]; [congruence|congruence| |lia].
    rewrite E. split; [|split; [tally; lia|split; [tally; lia|]]].
    + exists (banner ++ round_output createState r0 a0
              ++ round_output (applyRoundResult createState r0) r1 a1
              ++ [Log (round_header (fold_left applyRoundResult [r0; r1] createState));
                  Question (lit "Your move (free text): ")]).
      now rewrite <- !app_assoc.
    + apply Hnot. pieces ltac:(first [exact Hbanner | apply Hquit | apply Hround]).
  - destruct k as [|[|[|k]]]; [congruence|congruence|congruence|lia].
Qed.

(** X25.  Without any credential the game is still played to its end: the
    three questions are asked, every round is answered by the fixed result
    that asks for an API key, without a provider call, no score changes, and
    the final report announces a draw at 0 to 0. *)
Theorem main_without_credentials :
  AiJudge.truthy (ANTHROPIC_API_KEY env) = false ->
  AiJudge.truthy (GEMINI_API_KEY env) = false ->
  AiJudge.truthy (GOOGLE_API_KEY env) = false ->
  leaves 0 = false -> leaves 1 = false -> leaves 2 = false ->
  main = banner
         ++ round_output {| round := 1; userScore := 0; botScore := 0; bombUsed := false |}
              no_key_result []
         ++ round_output {| round := 2; userScore := 0; botScore := 0; bombUsed := false |}
              no_key_result []
         ++ round_output {| round := 3; userScore := 0; botScore := 0; bombUsed := false |}
              no_key_result []
         ++ [ Log (lit "--- Final result ---");
              Log (lit "Scores: User 0 " ++ [en_dash] ++ lit " Bot 0");
              Log (lit "Draw." ++ [10%N]);
              Exit 0 ]
  /\ provider_calls main = 0
  /\ shown_result no_key_result
     = [ Log ([10%N] ++ lit "Cannot run AI Judge: set either GEMINI_API_KEY or ANTHROPIC_API_KEY in .env." ++ [10%N]);
         Log (lit "[Intent: INVALID " ++ [RulesAndPrompt.em_dash]
              ++ lit " No API key. Set GEMINI_API_KEY or ANTHROPIC_API_KEY in .env.]" ++ [10%N]) ].
Proof.
  intros K1 K2 K3 L0 L1 L2.
  assert (Hjudge : forall k s r a, judged_well k s r a -> r = no_key_result /\ a = []).
  { intros k s r a (J & _ & _). unfold Cli.judged in J.
    destruct (normalizeMoveInput unicode_lower (VStr (trim (answers k)))) as [v|];
      [|discriminate].
    unfold AiJudge.judgeRound in J.
    rewrite (@getProvider_none env default_options eq_refl K1 K2 K3) in J.
    unfold ret in J. injection J as <- <-. now split. }
  destruct main_cases
    as [[X _]|[_ (r0 & a0 & J0 &
         [[X _]|[_ (r1 & a1 & J1 &
           [[X _]|[_ (r2 & a2 & J2 & E)]])]])]]; try congruence.
  apply Hjudge in J0 as [-> ->]. apply Hjudge in J1 as [-> ->].
  apply Hjudge in J2 as [-> ->].
  assert (Emain : main = banner
         ++ round_output {| round := 1; userScore := 0; botScore := 0; bombUsed := false |}
              no_key_result []
         ++ round_output {| round := 2; userScore := 0; botScore := 0; bombUsed := false |}
              no_key_result []
         ++ round_output {| round := 3; userScore := 0; botScore := 0; bombUsed := false |}
              no_key_result []
         ++ [ Log (lit "--- Final result ---");
              Log (lit "Scores: User 0 " ++ [en_dash] ++ lit " Bot 0");
              Log (lit "Draw." ++ [10%N]);
              Exit 0 ]) by (rewrite E; reflexivity).
  split; [exact Emain|]. split; [|reflexivity].
  rewrite Emain. tally.
  change (provider_calls [Log (lit "--- Final result ---");
              Log (lit "Scores: User 0 " ++ [en_dash] ++ lit " Bot 0");
              Log (lit "Draw." ++ [10%N]);
              Exit 0 ]) with 0.
  cbn [calls_made filter List.length] in *. lia.
Qed.

End LoopFacts.

Lemma main_full_game_witness :
  questions
    (Cli.main Reference.print_lexeme Reference.exact_ceil_ms Reference.unicode_lower
       Reference.no_keys (fun _ _ => Replied []) (fun _ => lit "rock") (fun _ => 0)) = 3.
Proof.
  destruct (@main_full_game Reference.print_lexeme Reference.exact_ceil_ms
              Reference.unicode_lower Reference.no_keys (fun _ _ => Replied [])
              (fun _ => lit "rock") (fun _ => 0) eq_refl eq_refl eq_refl)
    as (r0 & a0 & r1 & a1 & r2 & a2 & _ & _ & _ & _ & Q & _).
  exact Q.
Defined.

Lemma main_quit_witness :
  rounds_judged
    (Cli.main Reference.print_lexeme Reference.exact_ceil_ms Reference.unicode_lower
       Reference.no_keys (fun _ _ => Replied [])
       (fun k => match k with 0 => lit "paper" | _ => lit "  QUIT " end) (fun _ => 0)) = 1.
Proof.
  refine (proj1 (proj2 (proj2 (@main_quit Reference.print_lexeme Reference.exact_ceil_ms
              Reference.unicode_lower Reference.no_keys (fun _ _ => Replied [])
              (fun k => match k with 0 => lit "paper" | _ => lit "  QUIT " end) (fun _ => 0)
              1 _ _ _)))).
  - lia.
  - intros j Hj. assert (j = 0) as -> by lia. reflexivity.
  - left. reflexivity.
Defined.

Lemma main_without_credentials_witness :
  provider_calls
    (Cli.main Reference.print_lexeme Reference.exact_ceil_ms Reference.unicode_lower
       Reference.no_keys (fun _ _ => Replied []) (fun _ => lit "rock") (fun _ => 0)) = 0.
Proof.
  exact (proj1 (proj2 (@main_without_credentials Reference.print_lexeme Reference.exact_ceil_ms
              Reference.unicode_lower Reference.no_keys (fun _ _ => Replied [])
              (fun _ => lit "rock") (fun _ => 0)
              eq_refl eq_refl eq_refl eq_refl eq_refl eq_refl))).
Defined.
